(** * UQpy: Gaussian-process regression and Grassmann projections

    A shallow embedding of
      - [UQpy/surrogates/GPR/GaussianProcessRegressor.py],
      - [UQpy/dimension_reduction/grassman/manifold_projections/SvdProjection.py],
      - [UQpy/dimension_reduction/grassmann_manifold/ManifoldInterpolation.py],
    and the properties of these three classes that the specification states.

    Conventions.  A Python call that may raise returns [result A]; methods that
    mutate [self] run in the state-and-error monad [M].  NumPy [float64] data
    are real numbers ([R]); the values [inf], [-inf] and [nan] are kept where the
    source tests for them (the recorded objective values of [fit]).  Library
    routines (SciPy, NumPy linear algebra, the optimizer, the kernel, the
    pseudo-random generator) are parameters of the sections that use them. *)

From Stdlib Require Import List ZArith QArith Reals Lra Lia Bool.
Import ListNotations.

Close Scope Q_scope.
Close Scope R_scope.

Set Implicit Arguments.

(** ** Python exceptions and results *)

Module Py.

Inductive exn : Type :=
| TypeError
| ValueError
| IndexError
| AttributeError
| ZeroDivisionError
| NotImplementedError
| LinAlgError.

Definition result (A : Type) : Type := (exn + A)%type.

Definition ok {A} (a : A) : result A := inr a.
Definition raise {A} (e : exn) : result A := inl e.

Definition rbind {A B} (r : result A) (k : A -> result B) : result B :=
  match r with
  | inl e => inl e
  | inr a => k a
  end.

Definition raises {A} (r : result A) : Prop := exists e, r = inl e.
Definition returns {A} (r : result A) : Prop := exists a, r = inr a.

(** [sys.maxsize] on a 64-bit build. *)
Definition maxsize : Z := 9223372036854775807.

(** [l.count(x) != len(l)] on a list of integers. *)
Definition count_neq_len (x : nat) (l : list nat) : bool :=
  negb (Nat.eqb (count_occ Nat.eq_dec l x) (length l)).

(** [min(l)] and [max(l)] of a non-empty list of naturals ([a] is its head). *)
Definition min_list (a : nat) (l : list nat) : nat := fold_left Nat.min l a.
Definition max_list (a : nat) (l : list nat) : nat := fold_left Nat.max l a.

End Py.

Import Py.

Declare Scope result_scope.
Delimit Scope result_scope with result.
Notation "x <- r ;; k" := (rbind r (fun x => k))
  (at level 61, r at next level, right associativity) : result_scope.

(** ** Two-dimensional arrays as lists of rows *)

Module Numpy.

Section Shape.
Variable A : Type.

(** [np.shape(m)] of a two-dimensional array held as its list of rows. *)
Definition shape (m : list (list A)) : nat * nat :=
  (length m, length (hd [] m)).

Definition max_shape (m : list (list A)) : nat :=
  Nat.max (fst (shape m)) (snd (shape m)).
Definition min_shape (m : list (list A)) : nat :=
  Nat.min (fst (shape m)) (snd (shape m)).
End Shape.

(** *** Arrays of [float64], read as real numbers *)

Open Scope R_scope.

Definition vec : Type := list R.
Definition mat : Type := list (list R).

(** An array argument whose number of axes is not fixed by the source:
    [values] of [fit], [points] and the results of [predict]. *)
Inductive ndarray : Type :=
| Arr1 (v : vec)
| Arr2 (m : mat).

Definition nrows (m : mat) : nat := length m.
Definition ncols (m : mat) : nat := length (hd [] m).

Definition size (a : ndarray) : nat :=
  match a with
  | Arr1 v => length v
  | Arr2 m => length (concat m)
  end.

(** [a.flatten()], row-major. *)
Definition flatten (a : ndarray) : vec :=
  match a with
  | Arr1 v => v
  | Arr2 m => concat m
  end.

(** [np.atleast_2d(a)]. *)
Definition atleast_2d (a : ndarray) : mat :=
  match a with
  | Arr1 v => [v]
  | Arr2 m => m
  end.

(** The rows of [l] cut into [n] rows of [k] entries. *)
Fixpoint chunks (n k : nat) (l : vec) : mat :=
  match n with
  | O => []
  | S n' => firstn k l :: chunks n' k (skipn k l)
  end.

(** [a.reshape(n, k)]: [ValueError] unless the array has [n * k] entries. *)
Definition reshape (a : ndarray) (n k : nat) : result mat :=
  if Nat.eqb (size a) (n * k) then ok (chunks n k (flatten a))
  else raise ValueError.

Fixpoint zip_with {A B C} (f : A -> B -> C) (l : list A) (l' : list B) : list C :=
  match l, l' with
  | a :: t, b :: t' => f a b :: zip_with f t t'
  | _, _ => []
  end.

Definition sum (v : vec) : R := fold_right Rplus 0 v.
Definition dot (u v : vec) : R := sum (zip_with Rmult u v).

Definition column (j : nat) (m : mat) : vec := map (fun row => nth j row 0) m.
(** [m.T] for a matrix of [c] columns. *)
Definition transpose_n (c : nat) (m : mat) : mat :=
  map (fun j => column j m) (seq 0 c).
Definition transpose (m : mat) : mat := transpose_n (ncols m) m.

(** [a @ b]. *)
Definition matmul (a b : mat) : mat :=
  map (fun row => map (fun j => dot row (column j b)) (seq 0 (ncols b))) a.

Definition madd (a b : mat) : mat := zip_with (zip_with Rplus) a b.
Definition msub (a b : mat) : mat := zip_with (zip_with Rminus) a b.
Definition mscale (c : R) (a : mat) : mat := map (map (Rmult c)) a.

(** [np.eye(n)]. *)
Definition eye (n : nat) : mat :=
  map (fun i => map (fun j => if Nat.eqb i j then 1 else 0) (seq 0 n)) (seq 0 n).

(** [np.diag(m)] and [m.diagonal()] of a two-dimensional array. *)
Definition diagonal (m : mat) : vec :=
  map (fun i => nth i (nth i m []) 0) (seq 0 (Nat.min (nrows m) (ncols m))).

(** [np.mean(m, 0)] and [np.std(m, 0)]: along the first axis. *)
Definition mean (v : vec) : R := sum v / INR (length v).
Definition std (v : vec) : R :=
  sqrt (mean (map (fun x => (x - mean v) * (x - mean v)) v)).
Definition mean0 (m : mat) : vec := map mean (transpose m).
Definition std0 (m : mat) : vec := map std (transpose m).

(** [(m - mu) / sd], [mu] and [sd] broadcast along the rows. *)
Definition standardize (m : mat) (mu sd : vec) : mat :=
  map (fun row => zip_with Rdiv (zip_with Rminus row mu) sd) m.
(** [mu + m * sd], [mu] and [sd] broadcast along the rows. *)
Definition unstandardize (m : mat) (mu sd : vec) : mat :=
  map (fun row => zip_with Rplus mu (zip_with Rmult row sd)) m.

(** [v[:-1]] and [v[-1]]. *)
Definition but_last (v : vec) : vec := removelast v.
Definition last_entry (v : vec) : result R :=
  match v with
  | [] => raise IndexError
  | _ => ok (last v 0)
  end.

(** [np.log10] and [10 ** x], entry by entry. *)
Definition log10 (x : R) : R := ln x / ln 10.
Definition pow10 (x : R) : R := Rpower 10 x.

(** Broadcasting a one-dimensional operand against a row of [d] entries. *)
Definition broadcast_to (d : nat) (v : vec) : result vec :=
  if Nat.eqb (length v) d then ok v
  else match v with
       | [x] => ok (repeat x d)
       | _ => raise ValueError
       end.

(** Broadcasting two one-dimensional operands of a binary operation. *)
Definition broadcast2 (f : R -> R -> R) (u v : vec) : result vec :=
  if Nat.eqb (length u) (length v) then ok (zip_with f u v)
  else match u, v with
       | [x], _ => ok (map (f x) v)
       | _, [y] => ok (map (fun x => f x y) u)
       | _, _ => raise ValueError
       end.

(** The global generator behind [np.random.uniform]: the sequence of
    variates of [[0, 1)] it is going to deliver, and how many were taken. *)
Record RandomState : Type := {
  tape : nat -> R;
  taken : nat
}.

Definition random_sample (g : RandomState) (n : nat) : vec * RandomState :=
  (map (fun i => tape g (taken g + i)%nat) (seq 0 n),
   {| tape := tape g; taken := (taken g + n)%nat |}).

(** [uniform(low, high, size=(n, d))]: [low + (high - low) * random_sample]. *)
Definition uniform (g : RandomState) (low high : vec) (n d : nat)
    : result mat * RandomState :=
  match broadcast_to d low, broadcast_to d high with
  | inr lo, inr hi =>
      let (u, g') := random_sample g (n * d) in
      (ok (map (fun row => zip_with Rplus lo
                             (zip_with Rmult (zip_with Rminus hi lo) row))
               (chunks n d u)), g')
  | _, _ => (raise ValueError, g)
  end.

Close Scope R_scope.

End Numpy.

(** ** SvdProjection.__init__ *)

Module SvdProjection.

Section Init.
Variable num : Type.
Variable KernelComposition : Type.

Definition array2 : Type := list (list num).

(** [np.linalg.matrix_rank]. *)
Variable matrix_rank : array2 -> nat.

(** [svd(matrix, rank)] of [UQpy.utilities.Utilities], which this class
    imports; the file is not part of the sources at hand, so the routine is a
    parameter.  It returns [(u, s, v)]. *)
Variable svd : array2 -> Z -> array2 * list num * array2.

(** [np.diag(s)]. *)
Variable np_diag : list num -> array2.

Record t : Type := {
  kernel_composition : KernelComposition;
  data : list array2;
  input_points : list array2;
  psi : list array2;
  sigma : list array2;
  phi : list array2;
  n_psi : nat;
  n_phi : nat;
  p_planes_dimensions : Z;
  ranks : list Z;
  points_number : nat;
  max_rank : Z
}.

(** Lines 26-39: the two lists of larger and smaller dimensions and the
    shape test.  [n_left[0]] raises [IndexError] on an empty input. *)
Definition check_shapes (input_points : list array2) : result (nat * nat) :=
  let n_left := map (@Numpy.max_shape num) input_points in
  let n_right := map (@Numpy.min_shape num) input_points in
  match n_left, n_right with
  | l0 :: _, r0 :: _ =>
      let bool_left := count_neq_len l0 n_left in
      let bool_right := count_neq_len r0 n_right in
      if bool_left && bool_right then raise TypeError
      else ok (l0, r0)
  | _, _ => raise IndexError
  end.

(** Lines 50-54: the loop of the explicit-rank branch. *)
Fixpoint check_explicit (input_points : list array2) (p : Z) : result unit :=
  match input_points with
  | [] => ok tt
  | m :: rest =>
      if (Z.of_nat (Numpy.min_shape m) <? p)%Z then raise ValueError
      else check_explicit rest p
  end.

(** Lines 41-54: the rank list and the resolution of [p_planes_dimensions]. *)
Definition resolve_rank (input_points : list array2) (p : Z) : result Z :=
  let ranks := map matrix_rank input_points in
  if (p =? 0)%Z then
    match ranks with
    | r0 :: rs => ok (Z.of_nat (min_list r0 rs))
    | [] => raise ValueError
    end
  else if (p =? maxsize)%Z then
    match ranks with
    | r0 :: rs => ok (Z.of_nat (max_list r0 rs))
    | [] => raise ValueError
    end
  else
    (_ <- check_explicit input_points p ;; ok p)%result.

(** Lines 56-80: the truncated SVD of every input and the attributes. *)
Definition init (input_points : list array2) (p_planes_dimensions : Z)
    (kernel_composition : KernelComposition) : result t :=
  (let points_number := length input_points in
   n <- check_shapes input_points ;;
   p <- resolve_rank input_points p_planes_dimensions ;;
   let ranks := repeat p points_number in
   let usv := map (fun m => svd m p) input_points in
   ok {| kernel_composition := kernel_composition;
         data := input_points;
         input_points := input_points;
         psi := map (fun x => fst (fst x)) usv;
         sigma := map (fun x => np_diag (snd (fst x))) usv;
         phi := map (fun x => snd x) usv;
         n_psi := fst n;
         n_phi := snd n;
         p_planes_dimensions := p;
         ranks := ranks;
         points_number := points_number;
         max_rank := p |})%result.

End Init.

End SvdProjection.

(** ** ManifoldInterpolation *)

Module ManifoldInterpolation.

Section Model.
Variable num : Type.
Variable zero : num.
Variable GrassmannPoint : Type.
Variable coordinates_t : Type.     (* [list[NumpyFloatArray]] *)
Variable query_t : Type.           (* the point to interpolate at *)
Variable distance_t : Type.        (* a [GrassmannianDistance] *)
Variable optimization_t : Type.    (* the name of the Karcher-mean method *)
Variable surrogate_t : Type.       (* instances of [Surrogate] subclasses *)

Definition tangent : Type := list (list num).

(** The static methods of [Grassmann] (its file is not among the sources at
    hand) and SciPy's [LinearNDInterpolator] are parameters. *)
Variable karcher_mean : list GrassmannPoint -> optimization_t -> distance_t -> GrassmannPoint.
Variable log_map : list GrassmannPoint -> GrassmannPoint -> list tangent.
Variable exp_map : list tangent -> GrassmannPoint -> list GrassmannPoint.
Variable LinearNDInterpolator : coordinates_t -> list tangent -> query_t -> tangent.

(** What a caller can pass as [interpolation_method].  The annotation is
    [Union[Surrogate, callable, None]]; the two first constructors are the
    objects the source compares with by identity: the class [Surrogate] itself
    and the builtin function [callable]. *)
Inductive method : Type :=
| SurrogateClass
| CallableBuiltin
| SurrogateInstance (s : surrogate_t)
| UserCallable (f : coordinates_t -> list tangent -> query_t -> tangent)
| PyNone.

(** [m is Surrogate] and [m is callable]: identity of objects. *)
Definition is_Surrogate (m : method) : bool :=
  match m with SurrogateClass => true | _ => false end.
Definition is_callable (m : method) : bool :=
  match m with CallableBuiltin => true | _ => false end.

Record t : Type := {
  interpolation_method : method;
  mean : GrassmannPoint;
  tangent_points : list tangent;
  surrogates : option (list (list method));
  coordinates : option coordinates_t
}.

(** Lines 39-50.  [self.surrogates = [[]]], then for every entry [(j, k)] the
    statement [self.surrogates[j][k] = copy.copy(...)] assigns into the empty
    inner list (or, from the second row on, indexes past the outer one), so the
    first entry visited raises [IndexError] before any [fit]. *)
Definition fit_surrogates (tps : list tangent) : result (list (list method)) :=
  match tps with
  | [] => raise IndexError
  | t0 :: _ =>
      let n_rows := fst (Numpy.shape t0) in
      let n_cols := snd (Numpy.shape t0) in
      match n_rows, n_cols with
      | S _, S _ => raise IndexError
      | _, _ => ok [[]]
      end
  end.

Definition init (interpolation_method : method)
    (manifold_data : list GrassmannPoint) (coords : coordinates_t)
    (distance : distance_t) (optimization_method : optimization_t) : result t :=
  let mean := karcher_mean manifold_data optimization_method distance in
  let tangent_points := log_map manifold_data mean in
  if is_Surrogate interpolation_method then
    (s <- fit_surrogates tangent_points ;;
     ok {| interpolation_method := interpolation_method;
           mean := mean;
           tangent_points := tangent_points;
           surrogates := Some s;
           coordinates := None |})%result
  else
    ok {| interpolation_method := interpolation_method;
          mean := mean;
          tangent_points := tangent_points;
          surrogates := None;
          coordinates := Some coords |}.

(** Lines 65-69: every tangent matrix has the shape of the first. *)
Fixpoint check_same_shape (shape_ref : nat * nat) (rest : list tangent) : result unit :=
  match rest with
  | [] => ok tt
  | tp :: rest' =>
      let s := Numpy.shape tp in
      if Nat.eqb (fst s) (fst shape_ref) && Nat.eqb (snd s) (snd shape_ref)
      then check_same_shape shape_ref rest'
      else raise TypeError
  end.

(** Lines 71-80: the interpolated tangent matrix. *)
Definition interp_point (self : t) (point : query_t) : result tangent :=
  match tangent_points self with
  | [] => raise IndexError
  | t0 :: rest =>
      let shape_ref := Numpy.shape t0 in
      (_ <- check_same_shape shape_ref rest ;;
       if is_Surrogate (interpolation_method self) then
         match surrogates self with
         | None => raise AttributeError
         | Some _ =>
             (* [self.surrogates[j][k]] on [[[]]] *)
             match fst shape_ref, snd shape_ref with
             | S _, S _ => raise IndexError
             | n_rows, n_cols => ok (repeat (repeat zero n_cols) n_rows)
             end
         end
       else
         match coordinates self with
         | None => raise AttributeError
         | Some coords =>
             if is_callable (interpolation_method self) then
               (* the builtin [callable] takes exactly one argument *)
               raise TypeError
             else ok (LinearNDInterpolator coords (tangent_points self) point)
         end)%result
  end.

Definition interpolate_manifold (self : t) (point : query_t)
    : result (list GrassmannPoint) :=
  (ip <- interp_point self point ;;
   ok (exp_map [ip] (mean self)))%result.

End Model.

End ManifoldInterpolation.

(** ** GaussianProcessRegressor *)

Module GPR.

Import Numpy.
Open Scope R_scope.

(** An objective value as [fit] records it: a [float64] that may be
    non-finite. *)
Inductive fval : Type :=
| Fin (r : R)
| PInf
| NInf
| NaN.

(** [a < b] on [float64]: every comparison with [nan] is false. *)
Definition flt (a b : fval) : bool :=
  match a, b with
  | NaN, _ | _, NaN => false
  | _, NInf => false
  | NInf, _ => true
  | PInf, _ => false
  | Fin _, PInf => true
  | Fin x, Fin y => if Rlt_dec x y then true else false
  end.

(** [a == np.inf]. *)
Definition is_pinf (a : fval) : bool :=
  match a with PInf => true | _ => false end.

Definition is_nan (a : fval) : bool :=
  match a with NaN => true | _ => false end.

Definition finite (a : fval) : Prop :=
  match a with Fin _ => True | _ => False end.

(** The builtin [min] over the rows of the column [fun_value]: the first
    entry, replaced by a later one whenever that one compares smaller. *)
Definition py_min (a : fval) (l : list fval) : fval :=
  fold_left (fun cur x => if flt x cur then x else cur) l a.

(** [np.argmin]: the first index of the least entry; a [nan] counts as least. *)
Fixpoint argmin_from (best : nat) (cur : fval) (i : nat) (l : list fval) : nat :=
  match l with
  | [] => best
  | x :: rest =>
      if is_nan cur then best
      else if is_nan x || flt x cur then argmin_from i x (S i) rest
      else argmin_from best cur (S i) rest
  end.

Definition argmin (a : fval) (l : list fval) : nat := argmin_from 0 a 1 l.

(** What [optimizer.optimize] hands back: an array, or a result object with
    the attributes [x] and [fun]. *)
Inductive optimize_result : Type :=
| AsArray (p : vec)
| AsObject (x : vec) (fun_ : fval).

Inductive predict_result : Type :=
| Mean (y : ndarray)
| MeanStd (y : ndarray) (mse : ndarray).

(** The [random_state] argument: [None], an integer seed, or a generator. *)
Inductive RandomStateType : Type :=
| RsNone
| RsInt (seed : Z)
| RsObject (g : RandomState).

Section Model.

(** [kernel.c(x=, s=, params=)]. *)
Variable kernel_c : mat -> mat -> vec -> mat.

(** [scipy.linalg.cholesky(a, lower=True)] and [np.linalg.cholesky(a)]: the
    lower factor, or [LinAlgError]. *)
Variable cholesky : mat -> result mat.

(** [cho_solve((cc, True), b)]. *)
Variable cho_solve : mat -> mat -> mat.

(** [process_random_state] of [UQpy.utilities.Utilities] (not among the sources
    at hand): the generator object for a seed, [None] for [None]. *)
Variable process_random_state : RandomStateType -> option RandomState.

(** The constraint collaborator and what it produces. *)
Variable ConstraintsGPR : Type.
Variable constraints_t : Type.
Variable constraints_args_t : Type.

Definition predict_fn : Type :=
  ndarray -> bool -> option vec -> result predict_result.

Variable constraints_of : ConstraintsGPR -> mat -> mat -> predict_fn -> constraints_t.
Variable args_of : ConstraintsGPR -> constraints_args_t.

(** The optimizer object, shared with whoever else holds it. *)
Record Optimizer : Type := {
  _bounds : option (list (R * R));
  _constraints : option constraints_t;
  _constraints_argument : option constraints_args_t
}.

(** [optimizer.optimize(function=, initial_guess=, args=, jac=)]; [function]
    comes with [args] already supplied. *)
Variable optimizer_optimize :
  Optimizer -> (vec -> result R) -> vec -> bool -> result optimize_result.

Record regressor : Type := {
  hyperparameters : vec;
  bounds : list (R * R);
  optimizations_number : nat;
  optimize : bool;
  optimize_constraints : option ConstraintsGPR;
  normalize : bool;
  random_state : option RandomState;
  jac : bool;
  samples : option ndarray;
  values : option mat;
  sample_mean : option vec;
  sample_std : option vec;
  value_mean : option vec;
  value_std : option vec;
  K : option mat;
  cc : option mat;
  alpha_ : option mat
}.

(** Everything a call can read or write: the instance, its optimizer, NumPy's
    global generator, and the log of the optimizer runs (their initial
    guesses, latest first). *)
Record world : Type := {
  self : regressor;
  optimizer : Optimizer;
  np_random : RandomState;
  runs : list vec
}.

(** *** log_likelihood (static) *)

(** [kernel.c(s, s, params) + np.eye(m) * noise ** 2]. *)
Definition covariance (s : mat) (params : vec) (noise : R) : mat :=
  madd (kernel_c s s params) (mscale (noise * noise) (eye (nrows s))).

(** [k + 1e-10 * np.eye(m)]. *)
Definition jitter : R := / 10000000000.
Definition with_jitter (k : mat) (m : nat) : mat :=
  madd k (mscale jitter (eye m)).

(** [a[0, 0]]. *)
Definition entry00 (a : mat) : result R :=
  match a with
  | (x :: _) :: _ => ok x
  | _ => raise IndexError
  end.

Definition log_likelihood (p0 : vec) (s y : mat) : result R :=
  (let m := nrows s in
   p_last <- last_entry p0 ;;
   let k__ := covariance s (map pow10 (but_last p0)) (pow10 p_last) in
   cc <- cholesky (with_jitter k__ m) ;;
   let term1 := matmul (transpose y) (cho_solve cc y) in
   let term2 := 2 * sum (map (fun d => ln (Rabs d)) (diagonal cc)) in
   t00 <- entry00 term1 ;;
   ok (/ 2 * (t00 + term2 + INR m * ln (2 * PI))))%result.

(** *** Attribute assignment *)

Definition set_hyperparameters (v : vec) (r : regressor) : regressor :=
  {| hyperparameters := v;
     bounds := bounds r;
     optimizations_number := optimizations_number r;
     optimize := optimize r;
     optimize_constraints := optimize_constraints r;
     normalize := normalize r;
     random_state := random_state r;
     jac := jac r;
     samples := samples r;
     values := values r;
     sample_mean := sample_mean r;
     sample_std := sample_std r;
     value_mean := value_mean r;
     value_std := value_std r;
     K := K r;
     cc := cc r;
     alpha_ := alpha_ r |}.

Definition set_optimizations_number (v : nat) (r : regressor) : regressor :=
  {| hyperparameters := hyperparameters r;
     bounds := bounds r;
     optimizations_number := v;
     optimize := optimize r;
     optimize_constraints := optimize_constraints r;
     normalize := normalize r;
     random_state := random_state r;
     jac := jac r;
     samples := samples r;
     values := values r;
     sample_mean := sample_mean r;
     sample_std := sample_std r;
     value_mean := value_mean r;
     value_std := value_std r;
     K := K r;
     cc := cc r;
     alpha_ := alpha_ r |}.

Definition set_samples (v : option ndarray) (r : regressor) : regressor :=
  {| hyperparameters := hyperparameters r;
     bounds := bounds r;
     optimizations_number := optimizations_number r;
     optimize := optimize r;
     optimize_constraints := optimize_constraints r;
     normalize := normalize r;
     random_state := random_state r;
     jac := jac r;
     samples := v;
     values := values r;
     sample_mean := sample_mean r;
     sample_std := sample_std r;
     value_mean := value_mean r;
     value_std := value_std r;
     K := K r;
     cc := cc r;
     alpha_ := alpha_ r |}.

Definition set_values (v : option mat) (r : regressor) : regressor :=
  {| hyperparameters := hyperparameters r;
     bounds := bounds r;
     optimizations_number := optimizations_number r;
     optimize := optimize r;
     optimize_constraints := optimize_constraints r;
     normalize := normalize r;
     random_state := random_state r;
     jac := jac r;
     samples := samples r;
     values := v;
     sample_mean := sample_mean r;
     sample_std := sample_std r;
     value_mean := value_mean r;
     value_std := value_std r;
     K := K r;
     cc := cc r;
     alpha_ := alpha_ r |}.

Definition set_sample_mean (v : option vec) (r : regressor) : regressor :=
  {| hyperparameters := hyperparameters r;
     bounds := bounds r;
     optimizations_number := optimizations_number r;
     optimize := optimize r;
     optimize_constraints := optimize_constraints r;
     normalize := normalize r;
     random_state := random_state r;
     jac := jac r;
     samples := samples r;
     values := values r;
     sample_mean := v;
     sample_std := sample_std r;
     value_mean := value_mean r;
     value_std := value_std r;
     K := K r;
     cc := cc r;
     alpha_ := alpha_ r |}.

Definition set_sample_std (v : option vec) (r : regressor) : regressor :=
  {| hyperparameters := hyperparameters r;
     bounds := bounds r;
     optimizations_number := optimizations_number r;
     optimize := optimize r;
     optimize_constraints := optimize_constraints r;
     normalize := normalize r;
     random_state := random_state r;
     jac := jac r;
     samples := samples r;
     values := values r;
     sample_mean := sample_mean r;
     sample_std := v;
     value_mean := value_mean r;
     value_std := value_std r;
     K := K r;
     cc := cc r;
     alpha_ := alpha_ r |}.

Definition set_value_mean (v : option vec) (r : regressor) : regressor :=
  {| hyperparameters := hyperparameters r;
     bounds := bounds r;
     optimizations_number := optimizations_number r;
     optimize := optimize r;
     optimize_constraints := optimize_constraints r;
     normalize := normalize r;
     random_state := random_state r;
     jac := jac r;
     samples := samples r;
     values := values r;
     sample_mean := sample_mean r;
     sample_std := sample_std r;
     value_mean := v;
     value_std := value_std r;
     K := K r;
     cc := cc r;
     alpha_ := alpha_ r |}.

Definition set_value_std (v : option vec) (r : regressor) : regressor :=
  {| hyperparameters := hyperparameters r;
     bounds := bounds r;
     optimizations_number := optimizations_number r;
     optimize := optimize r;
     optimize_constraints := optimize_constraints r;
     normalize := normalize r;
     random_state := random_state r;
     jac := jac r;
     samples := samples r;
     values := values r;
     sample_mean := sample_mean r;
     sample_std := sample_std r;
     value_mean := value_mean r;
     value_std := v;
     K := K r;
     cc := cc r;
     alpha_ := alpha_ r |}.

Definition set_K (v : option mat) (r : regressor) : regressor :=
  {| hyperparameters := hyperparameters r;
     bounds := bounds r;
     optimizations_number := optimizations_number r;
     optimize := optimize r;
     optimize_constraints := optimize_constraints r;
     normalize := normalize r;
     random_state := random_state r;
     jac := jac r;
     samples := samples r;
     values := values r;
     sample_mean := sample_mean r;
     sample_std := sample_std r;
     value_mean := value_mean r;
     value_std := value_std r;
     K := v;
     cc := cc r;
     alpha_ := alpha_ r |}.

Definition set_cc (v : option mat) (r : regressor) : regressor :=
  {| hyperparameters := hyperparameters r;
     bounds := bounds r;
     optimizations_number := optimizations_number r;
     optimize := optimize r;
     optimize_constraints := optimize_constraints r;
     normalize := normalize r;
     random_state := random_state r;
     jac := jac r;
     samples := samples r;
     values := values r;
     sample_mean := sample_mean r;
     sample_std := sample_std r;
     value_mean := value_mean r;
     value_std := value_std r;
     K := K r;
     cc := v;
     alpha_ := alpha_ r |}.

Definition set_alpha_ (v : option mat) (r : regressor) : regressor :=
  {| hyperparameters := hyperparameters r;
     bounds := bounds r;
     optimizations_number := optimizations_number r;
     optimize := optimize r;
     optimize_constraints := optimize_constraints r;
     normalize := normalize r;
     random_state := random_state r;
     jac := jac r;
     samples := samples r;
     values := values r;
     sample_mean := sample_mean r;
     sample_std := sample_std r;
     value_mean := value_mean r;
     value_std := value_std r;
     K := K r;
     cc := cc r;
     alpha_ := v |}.

(** *** The state-and-error monad of the methods *)

Declare Scope M_scope.
Delimit Scope M_scope with M.

Definition M (A : Type) : Type := world -> result A * world.

Definition ret {A} (a : A) : M A := fun w => (ok a, w).
Definition throw {A} (e : exn) : M A := fun w => (raise e, w).
Definition bind {A B} (m : M A) (k : A -> M B) : M B :=
  fun w =>
    match m w with
    | (inl e, w') => (inl e, w')
    | (inr a, w') => k a w'
    end.
Definition lift {A} (r : result A) : M A := fun w => (r, w).
Definition get_self : M regressor := fun w => (ok (self w), w).
Definition assign (f : regressor -> regressor) : M unit :=
  fun w => (ok tt, {| self := f (self w); optimizer := optimizer w;
                      np_random := np_random w; runs := runs w |}).
Definition get_optimizer : M Optimizer := fun w => (ok (optimizer w), w).
Definition put_optimizer (o : Optimizer) : M unit :=
  fun w => (ok tt, {| self := self w; optimizer := o;
                      np_random := np_random w; runs := runs w |}).
Definition np_random_uniform (low high : vec) (n d : nat) : M mat :=
  fun w =>
    let (r, g) := uniform (np_random w) low high n d in
    (r, {| self := self w; optimizer := optimizer w;
           np_random := g; runs := runs w |}).
Definition log_run (x0 : vec) : M unit :=
  fun w => (ok tt, {| self := self w; optimizer := optimizer w;
                      np_random := np_random w; runs := x0 :: runs w |}).

Notation "x <- m ;; k" := (bind m (fun x => k))
  (at level 61, m at next level, right associativity) : M_scope.
Notation "m ;;; k" := (bind m (fun _ => k))
  (at level 61, right associativity) : M_scope.

(** Reading an attribute that still holds [None] where an array is needed. *)
Definition attr {A} (o : option A) : result A :=
  match o with
  | Some a => ok a
  | None => raise AttributeError
  end.

(** A stored sample array where the kernel needs two axes. *)
Definition as_2d (a : ndarray) : result mat :=
  match a with
  | Arr2 m => ok m
  | Arr1 _ => raise ValueError
  end.

(** *** predict *)

Definition predict (self : regressor) (points : ndarray) (return_std : bool)
    (hyperparameters_arg : option vec) : result predict_result :=
  (let x_ := atleast_2d points in
   samples_ <- attr (samples self) ;;
   samples2 <- as_2d samples_ ;;
   values_ <- attr (values self) ;;
   xsy <- (if normalize self then
             smean <- attr (sample_mean self) ;;
             sstd <- attr (sample_std self) ;;
             vmean <- attr (value_mean self) ;;
             vstd <- attr (value_std self) ;;
             ok (standardize x_ smean sstd,
                 standardize samples2 smean sstd,
                 standardize values_ vmean vstd)
           else ok (x_, samples2, values_)) ;;
   let x_ := fst (fst xsy) in
   let s_ := snd (fst xsy) in
   let y_ := snd xsy in
   let hyperparameters :=
     match hyperparameters_arg with
     | None => hyperparameters self
     | Some h => h
     end in
   factor <- match alpha_ self with
             | None =>
                 (* This is used during MLE computation *)
                 noise <- last_entry hyperparameters ;;
                 let K := covariance s_ (but_last hyperparameters) noise in
                 cc <- cholesky (with_jitter K (nrows samples2)) ;;
                 ok (cc, cho_solve cc y_)
             | Some a =>
                 cc <- attr (cc self) ;;
                 ok (cc, a)
             end ;;
   let cc := fst factor in
   let alpha_ := snd factor in
   let k := kernel_c x_ s_ (but_last hyperparameters) in
   let y := matmul k alpha_ in
   y <- (if normalize self then
           vmean <- attr (value_mean self) ;;
           vstd <- attr (value_std self) ;;
           ok (unstandardize y vmean vstd)
         else ok y) ;;
   let y := if Nat.eqb (ncols x_) 1 then Arr1 (flatten (Arr2 y)) else Arr2 y in
   if return_std then
     let k1 := kernel_c x_ x_ (but_last hyperparameters) in
     let var := diagonal (msub k1 (matmul k (cho_solve cc (transpose k)))) in
     let mse := map sqrt var in
     mse <- (if normalize self then
               vstd <- attr (value_std self) ;;
               broadcast2 Rmult vstd mse
             else ok mse) ;;
     ok (MeanStd y (Arr1 mse))
   else ok (Mean y))%result.

(** *** __init__ *)

(** Lines 90-96: [[[10**-3, 10**3]] * n] with its last entry replaced. *)
Definition default_bounds (n : nat) : result (list (R * R)) :=
  match n with
  | O => raise IndexError
  | S n' => ok (repeat (/ 1000, 1000) n' ++ [(/ 10000000000, / 10)])
  end.

Definition init (hyperparameters_arg : vec) (opt : Optimizer)
    (bounds_arg : option (list (R * R))) (optimize_arg : bool)
    (optimize_constraints_arg : option ConstraintsGPR)
    (optimizations_number_arg : nat) (normalize_arg : bool)
    (random_state_arg : RandomStateType) : result regressor :=
  (bounds_ <- match bounds_arg with
              | Some b => ok b
              | None =>
                  match _bounds opt with
                  | None => default_bounds (length hyperparameters_arg)
                  | Some b => ok b
                  end
              end ;;
   ok {| hyperparameters := hyperparameters_arg;
         bounds := bounds_;
         optimizations_number := optimizations_number_arg;
         optimize := optimize_arg;
         optimize_constraints := optimize_constraints_arg;
         normalize := normalize_arg;
         random_state := process_random_state random_state_arg;
         jac := false;
         samples := None;
         values := None;
         sample_mean := None;
         sample_std := None;
         value_mean := None;
         value_std := None;
         K := None;
         cc := None;
         alpha_ := None |})%result.

(** *** fit *)

(** Lines 176-187: one optimizer run per starting point; each run leaves a row
    of [minimizer] and an entry of [fun_value]. *)
Fixpoint restarts (starting_point : list vec) (d : nat) (s_ y_ : mat)
    : M (list (vec * fval)) :=
  match starting_point with
  | [] => ret []
  | x0 :: rest =>
      (log_run x0 ;;;
       o <- get_optimizer ;;
       r <- get_self ;;
       p_ <- lift (optimizer_optimize o (fun p0 => log_likelihood p0 s_ y_)
                     x0 (jac r)) ;;
       row <- match p_ with
              | AsArray p =>
                  x <- lift (broadcast_to d p) ;;
                  f <- lift (log_likelihood p s_ y_) ;;
                  ret (x, Fin f)
              | AsObject x f =>
                  x' <- lift (broadcast_to d x) ;;
                  ret (x', f)
              end ;;
       more <- restarts rest d s_ y_ ;;
       ret (row :: more))%M
  end.

(** Lines 153-193: the maximum-likelihood estimation. *)
Definition mle (samples_ : mat) (input_dim : nat) (s_ y_ : mat) : M unit :=
  (* To ensure that cholesky of covariance matrix is computed again *)
  (assign (set_alpha_ None) ;;;
   r <- get_self ;;
   let lb := map (fun xy => log10 (fst xy)) (bounds r) in
   let ub := map (fun xy => log10 (snd xy)) (bounds r) in
   drawn <- np_random_uniform lb ub (optimizations_number r) (input_dim + 2) ;;
   row0 <- lift (match drawn with
                 | [] => raise IndexError
                 | _ :: _ => broadcast_to (input_dim + 2)
                               (map log10 (hyperparameters r))
                 end) ;;
   let starting_point := row0 :: tl drawn in
   o <- get_optimizer ;;
   match optimize_constraints r with
   | Some oc =>
       vals <- lift (attr (values r)) ;;
       let cons := constraints_of oc samples_ vals (predict r) in
       put_optimizer {| _bounds := _bounds o;
                        _constraints := Some cons;
                        _constraints_argument := Some (args_of oc) |}
   | None =>
       let log_bounds := map (fun xy => (log10 (fst xy), log10 (snd xy))) (bounds r) in
       put_optimizer {| _bounds := Some log_bounds;
                        _constraints := _constraints o;
                        _constraints_argument := _constraints_argument o |}
   end ;;;
   rows <- restarts starting_point (input_dim + 2) s_ y_ ;;
   let minimizer := map fst rows in
   let fun_value := map snd rows in
   match fun_value with
   | [] => throw ValueError
   | f0 :: fs =>
       if is_pinf (py_min f0 fs) then throw NotImplementedError
       else
         let t := argmin f0 fs in
         assign (set_hyperparameters (map pow10 (nth t minimizer [])))
   end)%M.

(** Lines 128-148: the arguments are stored, the values reshaped and, when
    [normalize] is set, the data standardized.  Returns the sample matrix and
    the pair [(s_, y_)]. *)
Definition load_data (samples_arg values_arg : ndarray)
    (optimizations_number_arg : option nat) (hyperparameters_arg : option vec)
    : M (mat * (mat * mat)) :=
  (match optimizations_number_arg with
   | Some n => assign (set_optimizations_number n)
   | None => ret tt
   end ;;;
   match hyperparameters_arg with
   | Some h => assign (set_hyperparameters h)
   | None => ret tt
   end ;;;
   assign (set_samples (Some samples_arg)) ;;;
   (* Number of samples and dimensions of samples and values *)
   samples_ <- lift (as_2d samples_arg) ;;
   let nsamples := nrows samples_ in
   output_dim <- lift (if Nat.eqb nsamples 0 then raise ZeroDivisionError
                       else ok (size values_arg / nsamples)%nat) ;;
   values_ <- lift (reshape values_arg nsamples output_dim) ;;
   assign (set_values (Some values_)) ;;;
   (* Normalizing the data *)
   r <- get_self ;;
   if normalize r then
     let smean := mean0 samples_ in
     let sstd := std0 samples_ in
     let vmean := mean0 values_ in
     let vstd := std0 values_ in
     assign (set_sample_mean (Some smean)) ;;;
     assign (set_sample_std (Some sstd)) ;;;
     assign (set_value_mean (Some vmean)) ;;;
     assign (set_value_std (Some vstd)) ;;;
     ret (samples_, (standardize samples_ smean sstd,
                     standardize values_ vmean vstd))
   else ret (samples_, (samples_, values_)))%M.

(** Lines 196-200: the covariance matrix for the current hyperparameters, its
    Cholesky factor and the factor-solve of the outputs. *)
Definition factorize (s_ y_ : mat) (nsamples : nat) : M unit :=
  (r <- get_self ;;
   noise <- lift (last_entry (hyperparameters r)) ;;
   let K_ := covariance s_ (but_last (hyperparameters r)) noise in
   assign (set_K (Some K_)) ;;;
   cc_ <- lift (cholesky (with_jitter K_ nsamples)) ;;
   assign (set_cc (Some cc_)) ;;;
   assign (set_alpha_ (Some (cho_solve cc_ y_))))%M.

Definition fit (samples_arg values_arg : ndarray)
    (optimizations_number_arg : option nat) (hyperparameters_arg : option vec)
    : M unit :=
  (d <- load_data samples_arg values_arg optimizations_number_arg
          hyperparameters_arg ;;
   let samples_ := fst d in
   let s_ := fst (snd d) in
   let y_ := snd (snd d) in
   r <- get_self ;;
   (* Maximum Likelihood Estimation *)
   (if optimize r then mle samples_ (ncols samples_) s_ y_ else ret tt) ;;;
   (* Updated correlation matrix for the MLE estimates *)
   factorize s_ y_ (nrows samples_))%M.

End Model.

Close Scope R_scope.

End GPR.

(** ** Concrete collaborators and inputs

    Stand-ins for the injected or library routines, used where a statement is
    evaluated on explicit data. *)

Module Instances.

Import Numpy.

(** The rank of a rational matrix by Gaussian elimination, for
    [np.linalg.matrix_rank] on exactly representable entries. *)
Definition head_zero (r : list Q) : bool :=
  match r with
  | [] => true
  | x :: _ => Qeq_bool x 0
  end.

Definition eliminate (piv r : list Q) : list Q :=
  match piv, r with
  | p :: pt, x :: xt => zip_with (fun a b => (b - (x / p) * a)%Q) pt xt
  | _, _ => []
  end.

Fixpoint exact_rank_fuel (fuel : nat) (m : list (list Q)) : nat :=
  match fuel with
  | O => O
  | S f =>
      match partition head_zero m with
      | (zs, []) => exact_rank_fuel f (map (@tl Q) zs)
      | (zs, piv :: others) =>
          S (exact_rank_fuel f (map (@tl Q) zs ++ map (eliminate piv) others))
      end
  end.

Definition exact_rank (m : list (list Q)) : nat :=
  exact_rank_fuel (length (hd [] m)) m.

(** [np.diag] of a vector of rationals. *)
Definition diag_Q (v : list Q) : list (list Q) :=
  map (fun i => map (fun j => if Nat.eqb i j then nth i v 0%Q else 0%Q)
                 (seq 0 (length v)))
      (seq 0 (length v)).

(** A placeholder factorization: the properties below concern the checks made
    before the factorization and hold for every [svd]. *)
Definition no_svd (m : list (list Q)) (r : Z) : list (list Q) * list Q * list (list Q) :=
  ([], [], []).

(** Three 5 x 5 matrices of ranks 2, 3 and 4. *)
Definition D5 (k : nat) : list (list Q) :=
  diag_Q (repeat 1%Q k ++ repeat 0%Q (5 - k)).
Definition ranks_234 : list (list (list Q)) := [D5 2; D5 3; D5 4].

(** A 3 x 2 and a 4 x 2 matrix: equal column counts, different row counts. *)
Definition A32 : list (list Q) := [[1; 0]; [0; 1]; [1; 1]]%Q.
Definition A42 : list (list Q) := [[1; 0]; [0; 1]; [1; 1]; [2; 1]]%Q.
(** A 2 x 3 matrix: the transposed shape of [A32]. *)
Definition A23 : list (list Q) := [[1; 0; 1]; [0; 1; 1]]%Q.

End Instances.

(** ** Concrete collaborators for the regressor *)

Module GPRInstances.

Import Numpy GPR.
Open Scope R_scope.

(** A user kernel: [c(x, s)[i][j] = offset + <x_i, s_j>].  It is a covariance
    kernel for [offset >= 0]; with a negative offset the matrix it returns
    need not be positive definite. *)
Definition linear_kernel (offset : R) (x s : mat) (params : vec) : mat :=
  map (fun xi => map (fun sj => offset + dot xi sj) s) x.

(** The lower Cholesky factor, row by row (Cholesky-Banachiewicz);
    [LinAlgError] when a pivot is not positive. *)
Fixpoint chol_row (a_row : vec) (prev : mat) (acc : vec) : vec :=
  match prev with
  | [] => acc
  | lj :: rest =>
      let j := length acc in
      chol_row a_row rest (acc ++ [(nth j a_row 0 - dot acc lj) / nth j lj 0])
  end.

Fixpoint chol_rows (n : nat) (a : mat) (prev : mat) : result mat :=
  match a with
  | [] => ok prev
  | a_row :: a_rest =>
      let i := length prev in
      let left := chol_row a_row prev [] in
      let d := nth i a_row 0 - dot left left in
      if Rlt_dec 0 d
      then chol_rows n a_rest (prev ++ [left ++ sqrt d :: repeat 0 (n - i - 1)])
      else raise LinAlgError
  end.

Definition cholesky (a : mat) : result mat := chol_rows (length a) a [].

(** [cho_solve]: forward substitution with [L], then backward with [L.T],
    one column of the right-hand side at a time. *)
Fixpoint forward (l : mat) (b : vec) (acc : vec) : vec :=
  match l, b with
  | li :: l', bi :: b' =>
      let i := length acc in
      forward l' b' (acc ++ [(bi - dot acc li) / nth i li 0])
  | _, _ => acc
  end.

Definition backward (u : mat) (z : vec) : vec :=
  rev (forward (rev (map (@rev R) u)) (rev z) []).

Definition cho_solve (l b : mat) : mat :=
  let solutions :=
    map (fun col => backward (transpose l) (forward l col [])) (transpose b) in
  map (fun i => map (fun c => nth i c 0) solutions) (seq 0 (nrows b)).

(** No constraint collaborator. *)
Definition no_constraints : Type := Empty_set.
Definition constraints_of (c : no_constraints) (s v : mat)
    (predict : ndarray -> bool -> option vec -> result predict_result) : unit :=
  tt.
Definition args_of (c : no_constraints) : unit := tt.

Definition optimizer_t : Type := Optimizer unit unit.
Definition regressor_t : Type := regressor no_constraints.
Definition world_t : Type := world no_constraints unit unit.

(** An optimizer that returns its initial guess as an array (no iteration). *)
Definition array_optimizer (o : optimizer_t) (f : vec -> result R) (x0 : vec)
    (jac : bool) : result optimize_result :=
  ok (AsArray x0).

(** An optimizer that evaluates the objective at the initial guess and
    returns a result object. *)
Definition object_optimizer (o : optimizer_t) (f : vec -> result R) (x0 : vec)
    (jac : bool) : result optimize_result :=
  (v <- f x0 ;; ok (AsObject x0 (Fin v)))%result.

(** Optimizers whose result object reports the objective value [v]. *)
Definition reporting_optimizer (v : fval) (o : optimizer_t) (f : vec -> result R)
    (x0 : vec) (jac : bool) : result optimize_result :=
  ok (AsObject x0 v).

(** [process_random_state]: a generator for a seed. *)
Definition seeded (seed : Z) : RandomState :=
  {| tape := fun i => / (INR i + IZR (Z.abs seed) + 2); taken := 0 |}.
Definition process_random_state (a : RandomStateType) : option RandomState :=
  match a with
  | RsNone => None
  | RsInt seed => Some (seeded seed)
  | RsObject g => Some g
  end.

(** Two states of NumPy's global generator: one that delivers zeros, and one
    whose fourth variate is [1/2]. *)
Definition global_a : RandomState := {| tape := fun _ => 0; taken := 0 |}.
Definition global_b : RandomState :=
  {| tape := fun i => if Nat.eqb i 3 then / 2 else 0; taken := 0 |}.

Definition fresh_optimizer : optimizer_t :=
  {| _bounds := None; _constraints := None; _constraints_argument := None |}.

(** An instance as [__init__] leaves it. *)
Definition constructed (hp : vec) (bnds : list (R * R)) (opt : bool) (n : nat)
    (seed : option RandomState) : regressor_t :=
  {| hyperparameters := hp;
     bounds := bnds;
     optimizations_number := n;
     optimize := opt;
     optimize_constraints := None;
     normalize := false;
     random_state := seed;
     jac := false;
     samples := None; values := None;
     sample_mean := None; sample_std := None;
     value_mean := None; value_std := None;
     K := None; cc := None; alpha_ := None |}.

Definition world_of (r : regressor_t) (g : RandomState) : world_t :=
  {| self := r; optimizer := fresh_optimizer; np_random := g; runs := [] |}.

(** One training point in two input dimensions, one output; no optimization. *)
Definition plain_regressor : regressor_t :=
  constructed [1; 1; 1; 1]
    [(/ 1000, 1000); (/ 1000, 1000); (/ 1000, 1000); (/ 10000000000, / 10)]
    false 1 None.
Definition plain_world : world_t := world_of plain_regressor global_a.
Definition samples_2d : ndarray := Arr2 [[0; 0]].
Definition values_1 : ndarray := Arr1 [1].
Definition query_2d : ndarray := Arr2 [[1; 2]].

(** One training point in one input dimension, two restarts, constructed with
    the seed 42. *)
Definition bounds3 : list (R * R) := [(1, 10); (1, 10); (/ 10, 1)].
Definition seeded_regressor : regressor_t :=
  constructed [1; 1; 1] bounds3 true 2 (Some (seeded 42)).
Definition world_a : world_t := world_of seeded_regressor global_a.
Definition world_b : world_t := world_of seeded_regressor global_b.
Definition samples_1d : ndarray := Arr2 [[0]].
Definition values_0 : ndarray := Arr1 [0].

(** The same with the noise started at 2 and bounded by [[1/10, 10]]. *)
Definition wide_regressor : regressor_t :=
  constructed [1; 1; 2] [(1, 10); (1, 10); (/ 10, 10)] true 2 None.
Definition wide_world : world_t := world_of wide_regressor global_a.

Close Scope R_scope.

End GPRInstances.

(** * Properties *)

(** ** SvdProjection *)

Module SvdProjectionFacts.

Import SvdProjection Instances.

Example ranks_234_ranks : map exact_rank ranks_234 = [2; 3; 4]%nat.
Proof. vm_compute. reflexivity. Qed.


Definition is_least (l : list nat) (z : Z) : Prop :=
  In z (map Z.of_nat l) /\ Forall (fun r => (z <= Z.of_nat r)%Z) l.
Definition is_greatest (l : list nat) (z : Z) : Prop :=
  In z (map Z.of_nat l) /\ Forall (fun r => (Z.of_nat r <= z)%Z) l.

Lemma fold_min_le (l : list nat) (a : nat) :
  (fold_left Nat.min l a <= a)%nat /\
  Forall (fun r => (fold_left Nat.min l a <= r)%nat) l /\
  In (fold_left Nat.min l a) (a :: l).
Proof.
  revert a. induction l as [|x l IH]; intros a; simpl.
  - repeat split; auto.
  - destruct (IH (Nat.min a x)) as (H1 & H2 & H3). repeat split.
    + lia.
    + constructor; [lia | exact H2].
    + destruct H3 as [H3 | H3]; [| auto].
      rewrite <- H3.
      destruct (Nat.min_spec a x) as [[_ E] | [_ E]]; rewrite E; auto.
Qed.

Lemma fold_max_ge (l : list nat) (a : nat) :
  (a <= fold_left Nat.max l a)%nat /\
  Forall (fun r => (r <= fold_left Nat.max l a)%nat) l /\
  In (fold_left Nat.max l a) (a :: l).
Proof.
  revert a. induction l as [|x l IH]; intros a; simpl.
  - repeat split; auto.
  - destruct (IH (Nat.max a x)) as (H1 & H2 & H3). repeat split.
    + lia.
    + constructor; [lia | exact H2].
    + destruct H3 as [H3 | H3]; [| auto].
      rewrite <- H3.
      destruct (Nat.max_spec a x) as [[_ E] | [_ E]]; rewrite E; auto.
Qed.

Lemma min_list_least (a : nat) (l : list nat) :
  is_least (a :: l) (Z.of_nat (min_list a l)).
Proof.
  destruct (fold_min_le l a) as (H1 & H2 & H3). split.
  - apply in_map. exact H3.
  - constructor; [unfold min_list; lia |].
    eapply Forall_impl; [| exact H2]. unfold min_list. intros; simpl in *; lia.
Qed.

Lemma max_list_greatest (a : nat) (l : list nat) :
  is_greatest (a :: l) (Z.of_nat (max_list a l)).
Proof.
  destruct (fold_max_ge l a) as (H1 & H2 & H3). split.
  - apply in_map. exact H3.
  - constructor; [unfold max_list; lia |].
    eapply Forall_impl; [| exact H2]. unfold max_list. intros; simpl in *; lia.
Qed.

Section Resolution.
Variable num : Type.
Variable KernelComposition : Type.
Variable matrix_rank : list (list num) -> nat.
Variable svd : list (list num) -> Z -> list (list num) * list num * list (list num).
Variable np_diag : list num -> list (list num).

Lemma check_explicit_raises (inputs : list (list (list num))) (p : Z) :
  Exists (fun m => (Z.of_nat (Numpy.min_shape m) < p)%Z) inputs ->
  check_explicit inputs p = inl ValueError.
Proof.
  induction 1 as [m l H | m l H IH]; simpl.
  - apply Z.ltb_lt in H. rewrite H. reflexivity.
  - destruct (Z.ltb_spec (Z.of_nat (Numpy.min_shape m)) p); [reflexivity | exact IH].
Qed.

Lemma check_explicit_passes (inputs : list (list (list num))) (p : Z) :
  Forall (fun m => (p <= Z.of_nat (Numpy.min_shape m))%Z) inputs ->
  check_explicit inputs p = inr tt.
Proof.
  induction 1 as [| m l H _ IH]; simpl; [reflexivity |].
  destruct (Z.ltb_spec (Z.of_nat (Numpy.min_shape m)) p); [lia | exact IH].
Qed.

Lemma check_shapes_nonempty (inputs : list (list (list num))) (n : nat * nat) :
  check_shapes inputs = inr n -> inputs <> [].
Proof. destruct inputs; [discriminate | discriminate]. Qed.

Lemma check_explicit_cases (inputs : list (list (list num))) (p : Z) :
  (check_explicit inputs p = inl ValueError /\
   Exists (fun m => (Z.of_nat (Numpy.min_shape m) < p)%Z) inputs) \/
  (check_explicit inputs p = inr tt /\
   Forall (fun m => (p <= Z.of_nat (Numpy.min_shape m))%Z) inputs).
Proof.
  induction inputs as [| m l IH]; simpl.
  - right. split; [reflexivity | constructor].
  - destruct (Z.ltb_spec (Z.of_nat (Numpy.min_shape m)) p) as [Hlt | Hge].
    + left. split; [reflexivity | constructor; exact Hlt].
    + destruct IH as [[E H] | [E H]].
      * left. split; [exact E | apply Exists_cons_tl; exact H].
      * right. split; [exact E | constructor; assumption].
Qed.

Lemma init_explicit (inputs : list (list (list num))) (p : Z)
    (kc : KernelComposition) (n : nat * nat) :
  check_shapes inputs = inr n ->
  p <> 0%Z -> p <> maxsize ->
  (Exists (fun m => (Z.of_nat (Numpy.min_shape m) < p)%Z) inputs ->
   init matrix_rank svd np_diag inputs p kc = inl ValueError) /\
  (Forall (fun m => (p <= Z.of_nat (Numpy.min_shape m))%Z) inputs ->
   exists o, init matrix_rank svd np_diag inputs p kc = inr o /\
             p_planes_dimensions o = p).
Proof.
  intros Hs H0 Hmax. unfold init, resolve_rank, array2. rewrite Hs. simpl.
  apply Z.eqb_neq in H0. apply Z.eqb_neq in Hmax. rewrite H0, Hmax. split.
  - intros H. rewrite (check_explicit_raises H). reflexivity.
  - intros H. rewrite (check_explicit_passes H). simpl. eexists. split; reflexivity.
Qed.

(** C6 (as amended).  Once the shape test has passed: the sentinel [0]
    resolves to the least matrix rank of the inputs, the sentinel
    [sys.maxsize] to the greatest, and any other [p] is kept, the constructor
    raising [ValueError] exactly when [p] exceeds the smaller dimension of some
    input.  For inputs of ranks 2, 3 and 4 the sentinel [0] resolves to 2, and
    [p = 5] raises exactly when some input has a smaller dimension below 5;
    otherwise 5 is accepted. *)
Theorem rank_resolution (inputs : list (list (list num))) (p : Z)
    (kc : KernelComposition) (n : nat * nat) :
  check_shapes inputs = inr n ->
  let ranks := map matrix_rank inputs in
  (p = 0%Z ->
   exists o, init matrix_rank svd np_diag inputs p kc = inr o /\
             is_least ranks (p_planes_dimensions o)) /\
  (p = maxsize ->
   exists o, init matrix_rank svd np_diag inputs p kc = inr o /\
             is_greatest ranks (p_planes_dimensions o)) /\
  (p <> 0%Z -> p <> maxsize ->
   (Exists (fun m => (Z.of_nat (Numpy.min_shape m) < p)%Z) inputs ->
    init matrix_rank svd np_diag inputs p kc = inl ValueError) /\
   (Forall (fun m => (p <= Z.of_nat (Numpy.min_shape m))%Z) inputs ->
    exists o, init matrix_rank svd np_diag inputs p kc = inr o /\
              p_planes_dimensions o = p)) /\
  (ranks = [2; 3; 4]%nat ->
   (exists o, init matrix_rank svd np_diag inputs 0 kc = inr o /\
              p_planes_dimensions o = 2%Z) /\
   (init matrix_rank svd np_diag inputs 5 kc = inl ValueError <->
    Exists (fun m => (Z.of_nat (Numpy.min_shape m) < 5)%Z) inputs) /\
   ((exists o, init matrix_rank svd np_diag inputs 5 kc = inr o /\
               p_planes_dimensions o = 5%Z) <->
    Forall (fun m => (5 <= Z.of_nat (Numpy.min_shape m))%Z) inputs)).
Proof.
  intros Hs ranks. subst ranks. repeat split.
  - intros ->. unfold init, resolve_rank, array2. rewrite Hs. simpl.
    destruct (map matrix_rank inputs) as [| r0 rs] eqn:E.
    + apply check_shapes_nonempty in Hs. destruct inputs; [congruence | discriminate].
    + simpl. eexists. split; [reflexivity |]. simpl. apply min_list_least.
  - intros ->. unfold init, resolve_rank, array2. rewrite Hs. simpl.
    destruct (map matrix_rank inputs) as [| r0 rs] eqn:E.
    + apply check_shapes_nonempty in Hs. destruct inputs; [congruence | discriminate].
    + simpl. eexists. split; [reflexivity |]. simpl. apply max_list_greatest.
  - apply (init_explicit inputs kc Hs H H0).
  - apply (init_explicit inputs kc Hs H H0).
  - unfold init, resolve_rank, array2. rewrite Hs. simpl. rewrite H. simpl.
    eexists. split; reflexivity.
  - intros E. destruct (check_explicit_cases inputs 5) as [[_ Hx] | [Hc _]]; [exact Hx |].
    unfold init, resolve_rank, array2 in E. rewrite Hs in E. simpl in E.
    rewrite Hc in E. discriminate.
  - apply (init_explicit inputs kc Hs); [lia | unfold maxsize; lia].
  - intros (o & E & _). destruct (check_explicit_cases inputs 5) as [[Hc _] | [_ Hf]]; [| exact Hf].
    unfold init, resolve_rank, array2 in E. rewrite Hs in E. simpl in E.
    rewrite Hc in E. discriminate.
  - apply (init_explicit inputs kc Hs); [lia | unfold maxsize; lia].
Qed.

(** The shape test raises [TypeError] exactly when the larger dimensions are
    not all equal and the smaller dimensions are not all equal either. *)
Lemma count_occ_le_length (x : nat) (l : list nat) :
  (count_occ Nat.eq_dec l x <= length l)%nat.
Proof.
  induction l as [| y l IH]; simpl; [lia |].
  destruct (Nat.eq_dec y x); simpl; lia.
Qed.

Lemma count_neq_len_true (x : nat) (l : list nat) :
  count_neq_len x l = true <-> Exists (fun y => y <> x) l.
Proof.
  unfold count_neq_len. rewrite negb_true_iff, Nat.eqb_neq.
  induction l as [| y l IH]; simpl.
  - split; [intros H; now elim H | intros H; inversion H].
  - pose proof (count_occ_le_length x l) as Hle.
    destruct (Nat.eq_dec y x) as [-> | Hne]; simpl.
    + split.
      * intros H. apply Exists_cons_tl. apply IH. lia.
      * intros H. inversion H as [? ? Hx | ? ? Hx]; subst; [now elim Hx |].
        apply IH in Hx. lia.
    + split; [intros _; now constructor | intros _; lia].
Qed.

Lemma check_shapes_TypeError (inputs : list (list (list num))) :
  check_shapes inputs = inl TypeError <->
  exists m0 rest, inputs = m0 :: rest /\
    Exists (fun m => Numpy.max_shape m <> Numpy.max_shape m0) inputs /\
    Exists (fun m => Numpy.min_shape m <> Numpy.min_shape m0) inputs.
Proof.
  unfold check_shapes. destruct inputs as [| m0 rest].
  - simpl. split; [discriminate | intros (? & ? & E & _); discriminate].
  - cbn [map].
    destruct (count_neq_len (Numpy.max_shape m0)
                (Numpy.max_shape m0 :: map (@Numpy.max_shape num) rest)) eqn:EL;
    destruct (count_neq_len (Numpy.min_shape m0)
                (Numpy.min_shape m0 :: map (@Numpy.min_shape num) rest)) eqn:ER;
    simpl.
    + split; [intros _ | reflexivity].
      exists m0, rest. split; [reflexivity |].
      apply count_neq_len_true in EL. apply count_neq_len_true in ER.
      change (Numpy.max_shape m0 :: map (@Numpy.max_shape num) rest)
        with (map (@Numpy.max_shape num) (m0 :: rest)) in EL.
      change (Numpy.min_shape m0 :: map (@Numpy.min_shape num) rest)
        with (map (@Numpy.min_shape num) (m0 :: rest)) in ER.
      rewrite Exists_map in EL, ER. split; assumption.
    + split; [discriminate |]. intros (m & r & E & _ & H). injection E as <- <-.
      rewrite <- Exists_map with (f := @Numpy.min_shape num)
        (P := fun y => y <> Numpy.min_shape m0) in H.
      apply count_neq_len_true in H. simpl in H. congruence.
    + split; [discriminate |]. intros (m & r & E & H & _). injection E as <- <-.
      rewrite <- Exists_map with (f := @Numpy.max_shape num)
        (P := fun y => y <> Numpy.max_shape m0) in H.
      apply count_neq_len_true in H. simpl in H. congruence.
    + split; [discriminate |]. intros (m & r & E & H & _). injection E as <- <-.
      rewrite <- Exists_map with (f := @Numpy.max_shape num)
        (P := fun y => y <> Numpy.max_shape m0) in H.
      apply count_neq_len_true in H. simpl in H. congruence.
Qed.

End Resolution.

(** C6, the example as the specification words it fails: three 5 x 5 inputs of
    ranks 2, 3 and 4, and the explicit rank 5 is accepted, because the test
    compares [p] with the dimensions of the inputs, not with their ranks. *)
Lemma rank_5_accepted :
  map exact_rank ranks_234 = [2; 3; 4]%nat /\
  exists o, init exact_rank no_svd diag_Q ranks_234 5 tt = inr o /\
            p_planes_dimensions o = 5%Z.
Proof.
  split; [vm_compute; reflexivity |].
  eexists. split; [vm_compute; reflexivity | reflexivity].
Qed.

Lemma rank_resolution_witness :
  check_shapes ranks_234 = inr (5, 5)%nat /\
  exists o, init exact_rank no_svd diag_Q ranks_234 0 tt = inr o /\
            is_least (map exact_rank ranks_234) (p_planes_dimensions o).
Proof.
  split; [reflexivity |].
  destruct (@rank_resolution Q unit exact_rank no_svd diag_Q ranks_234 0%Z tt
              (5, 5)%nat eq_refl) as [H _].
  exact (H eq_refl).
Defined.

(** C7 at two inputs whose row counts differ (3 x 2 and 4 x 2): the larger
    dimensions differ, the smaller ones agree, [bool_left and bool_right] is
    false and the constructor goes on to the factorization with [n_psi = 3].
    The same happens for a matrix and one of the transposed shape. *)
Theorem row_count_mismatch_accepted :
  Numpy.shape A32 = (3, 2)%nat /\ Numpy.shape A42 = (4, 2)%nat /\
  check_shapes [A32; A42] = inr (3, 2)%nat /\
  (forall (matrix_rank : list (list Q) -> nat) svd np_diag,
   exists o, init matrix_rank svd np_diag [A32; A42] 2 tt = inr o /\
             n_psi o = 3%nat /\ n_phi o = 2%nat /\ p_planes_dimensions o = 2%Z) /\
  Numpy.shape A23 = (2, 3)%nat /\
  check_shapes [A32; A23] = inr (3, 2)%nat.
Proof.
  repeat split.
  intros matrix_rank svd np_diag. eexists. split; [reflexivity |].
  repeat split.
Qed.

End SvdProjectionFacts.

(** ** ManifoldInterpolation *)

Module ManifoldInterpolationFacts.

Import ManifoldInterpolation.

Section Dispatch.
Variable num : Type.
Variable zero : num.
Variable GrassmannPoint : Type.
Variable coordinates_t : Type.
Variable query_t : Type.
Variable distance_t : Type.
Variable optimization_t : Type.
Variable surrogate_t : Type.
Variable karcher_mean : list GrassmannPoint -> optimization_t -> distance_t -> GrassmannPoint.
Variable log_map : list GrassmannPoint -> GrassmannPoint -> list (tangent num).
Variable exp_map : list (tangent num) -> GrassmannPoint -> list GrassmannPoint.
Variable LinearNDInterpolator : coordinates_t -> list (tangent num) -> query_t -> tangent num.

Variable manifold_data : list GrassmannPoint.
Variable coords : coordinates_t.
Variable distance : distance_t.
Variable optimization_method : optimization_t.

Definition construct (m : method num coordinates_t query_t surrogate_t) :=
  init karcher_mean log_map m manifold_data coords distance optimization_method.

Definition the_mean : GrassmannPoint :=
  karcher_mean manifold_data optimization_method distance.
Definition the_tangent_points : list (tangent num) :=
  log_map manifold_data the_mean.

(** What the default (piecewise-linear) scheme returns. *)
Definition linear_result (point : query_t) : result (list GrassmannPoint) :=
  match the_tangent_points with
  | [] => raise IndexError
  | t0 :: rest =>
      (_ <- check_same_shape (Numpy.shape t0) rest ;;
       ok (exp_map [LinearNDInterpolator coords the_tangent_points point]
             the_mean))%result
  end.

Lemma construct_not_class (m : method num coordinates_t query_t surrogate_t) :
  is_Surrogate m = false ->
  construct m = inr {| interpolation_method := m;
                       mean := the_mean;
                       tangent_points := the_tangent_points;
                       surrogates := None;
                       coordinates := Some coords |}.
Proof. intros H. unfold construct, init. rewrite H. reflexivity. Qed.

Lemma interpolate_linear (m : method num coordinates_t query_t surrogate_t)
    (point : query_t) :
  is_Surrogate m = false -> is_callable m = false ->
  (o <- construct m ;;
   interpolate_manifold zero exp_map LinearNDInterpolator o point)%result
  = linear_result point.
Proof.
  intros H1 H2. rewrite (construct_not_class m H1). simpl.
  unfold interpolate_manifold, interp_point, linear_result. simpl.
  destruct the_tangent_points as [| t0 rest]; [reflexivity |].
  destruct (check_same_shape (Numpy.shape t0) rest) as [e | []]; simpl; [reflexivity |].
  rewrite H1, H2. reflexivity.
Qed.

(** C8 on an injected regressor and on a user-supplied function.  Both tests
    of [interpolation_method] are identity tests ([is Surrogate],
    [is callable]), which an instance of a [Surrogate] subclass or a function
    of the caller's never passes: no regressor is stored or fitted, the
    function is never applied, and [interpolate_manifold] returns what the
    default piecewise-linear scheme returns. *)
Theorem injected_method_is_ignored (s : surrogate_t)
    (f : coordinates_t -> list (tangent num) -> query_t -> tangent num)
    (point : query_t) :
  (exists o, construct (SurrogateInstance _ _ _ s) = inr o /\
             surrogates o = None /\ coordinates o = Some coords) /\
  (o <- construct (SurrogateInstance _ _ _ s) ;;
   interpolate_manifold zero exp_map LinearNDInterpolator o point)%result
  = linear_result point /\
  (o <- construct (UserCallable _ f) ;;
   interpolate_manifold zero exp_map LinearNDInterpolator o point)%result
  = linear_result point /\
  (o <- construct (PyNone _ _ _ _) ;;
   interpolate_manifold zero exp_map LinearNDInterpolator o point)%result
  = linear_result point.
Proof.
  split; [| split; [| split]].
  - eexists. split; [apply construct_not_class; reflexivity |]. split; reflexivity.
  - apply interpolate_linear; reflexivity.
  - apply interpolate_linear; reflexivity.
  - apply interpolate_linear; reflexivity.
Qed.

(** The only objects that pass the identity tests are the class [Surrogate]
    and the builtin [callable] themselves, and with them the call raises as
    soon as a tangent matrix has an entry. *)
Lemma class_object_raises (t0 : tangent num) (rest : list (tangent num)) (r c : nat) :
  the_tangent_points = t0 :: rest ->
  Numpy.shape t0 = (S r, S c) ->
  construct (SurrogateClass _ _ _ _) = inl IndexError.
Proof.
  intros E Hs. unfold construct, init. simpl.
  fold the_mean. fold the_tangent_points. rewrite E. simpl.
  unfold Numpy.shape in Hs. injection Hs as H1 H2.
  simpl in H1. rewrite H1, H2. reflexivity.
Qed.

Lemma builtin_callable_raises (point : query_t) :
  (o <- construct (CallableBuiltin _ _ _ _) ;;
   interpolate_manifold zero exp_map LinearNDInterpolator o point)%result
  = match linear_result point with
    | inl e => inl e
    | inr _ => inl TypeError
    end.
Proof.
  rewrite (construct_not_class (CallableBuiltin _ _ _ _) eq_refl). simpl.
  unfold interpolate_manifold, interp_point, linear_result. simpl.
  destruct the_tangent_points as [| t0 rest]; [reflexivity |].
  destruct (check_same_shape (Numpy.shape t0) rest) as [e | []]; reflexivity.
Qed.

End Dispatch.

End ManifoldInterpolationFacts.

(** ** GaussianProcessRegressor *)

Module GPRFacts.

Import Numpy GPR.

(** *** Objective values *)

Lemma flt_irrefl (a : fval) : flt a a = false.
Proof.
  destruct a; simpl; try reflexivity.
  destruct (Rlt_dec r r) as [H | H]; [exfalso; lra | reflexivity].
Qed.

Lemma flt_pinf_false (a : fval) : flt PInf a = false.
Proof. destruct a; reflexivity. Qed.

Lemma flt_nan_l (a : fval) : flt NaN a = false.
Proof. destruct a; reflexivity. Qed.

Lemma flt_nan_r (a : fval) : flt a NaN = false.
Proof. destruct a; reflexivity. Qed.

Lemma flt_trans (a b c : fval) : flt a b = true -> flt b c = true -> flt a c = true.
Proof.
  destruct a, b, c; simpl; try congruence.
  destruct (Rlt_dec r r0), (Rlt_dec r0 r1), (Rlt_dec r r1); try congruence.
  exfalso; lra.
Qed.

(** On values that are not [nan], "not smaller" is a total preorder. *)
Lemma flt_total (a b : fval) :
  is_nan a = false -> is_nan b = false -> flt a b = false -> flt b a = false -> a = b.
Proof.
  destruct a, b; simpl; try congruence.
  destruct (Rlt_dec r r0), (Rlt_dec r0 r); try congruence.
  intros _ _ _ _. f_equal. lra.
Qed.

Lemma flt_le_trans (a b c : fval) :
  is_nan a = false -> is_nan b = false -> is_nan c = false ->
  flt b a = false -> flt c b = false -> flt c a = false.
Proof.
  destruct a, b, c; simpl; try congruence.
  destruct (Rlt_dec r0 r), (Rlt_dec r1 r0), (Rlt_dec r1 r); try congruence.
  exfalso; lra.
Qed.

(** The builtin [min] returns [inf] exactly when the first entry is [inf]
    and every other entry is [inf] or [nan]. *)
Lemma py_min_pinf (a : fval) (l : list fval) :
  is_pinf (py_min a l) = true <->
  a = PInf /\ Forall (fun x => x = PInf \/ x = NaN) l.
Proof.
  unfold py_min. revert a. induction l as [| x l IH]; intros a; simpl.
  - destruct a; simpl; split; try discriminate; try (intros [H _]; discriminate); auto.
  - rewrite IH. split.
    + intros [E F]. destruct (flt x a) eqn:Hlt.
      * subst x. rewrite flt_pinf_false in Hlt. discriminate.
      * subst a. split; [reflexivity |]. constructor; [| exact F].
        destruct x; simpl in Hlt; try discriminate; auto.
    + intros [-> F]. inversion F as [| ? ? Hx F']; subst.
      destruct Hx as [-> | ->]; simpl; auto.
Qed.

(** [np.argmin] on values none of which is [nan]: the index it returns
    holds a least value. *)
Lemma argmin_from_least (l pre : list fval) (best : nat) (cur : fval) :
  (best < length pre)%nat ->
  nth best pre NaN = cur ->
  Forall (fun x => is_nan x = false) pre ->
  Forall (fun x => flt x cur = false) pre ->
  Forall (fun x => is_nan x = false) l ->
  let t := argmin_from best cur (length pre) l in
  (t < length (pre ++ l))%nat /\
  Forall (fun x => flt x (nth t (pre ++ l) NaN) = false) (pre ++ l).
Proof.
  revert pre best cur. induction l as [| x l IH]; intros pre best cur Hb Hn Hpre Hle Hl; simpl.
  - rewrite app_nil_r. split; [exact Hb |]. rewrite Hn. exact Hle.
  - inversion Hl as [| ? ? Hx Hl']; subst x0 l0.
    assert (Hc : is_nan cur = false).
    { rewrite Forall_forall in Hpre. apply Hpre. rewrite <- Hn. apply nth_In. exact Hb. }
    rewrite Hc, Hx. simpl.
    assert (Hlen : length (pre ++ [x]) = S (length pre)).
    { rewrite length_app. simpl. lia. }
    assert (Hpre' : Forall (fun y => is_nan y = false) (pre ++ [x])).
    { apply Forall_app. split; [exact Hpre | constructor; [exact Hx | constructor]]. }
    replace (pre ++ x :: l) with ((pre ++ [x]) ++ l) by (rewrite <- app_assoc; reflexivity).
    rewrite <- Hlen.
    destruct (flt x cur) eqn:Hlt.
    + apply IH; try assumption.
      * rewrite Hlen. lia.
      * rewrite app_nth2 by lia. rewrite Nat.sub_diag. reflexivity.
      * apply Forall_app. split.
        -- eapply Forall_impl; [| exact Hle]. intros y Hy. simpl in Hy.
           destruct (flt y x) eqn:Hyx; [| reflexivity].
           rewrite (flt_trans _ _ _ Hyx Hlt) in Hy. discriminate.
        -- constructor; [apply flt_irrefl | constructor].
    + apply IH; try assumption.
      * rewrite Hlen. lia.
      * rewrite app_nth1 by exact Hb. exact Hn.
      * apply Forall_app. split; [exact Hle | constructor; [exact Hlt | constructor]].
Qed.

Lemma argmin_least (a : fval) (l : list fval) :
  Forall (fun x => is_nan x = false) (a :: l) ->
  (argmin a l < length (a :: l))%nat /\
  Forall (fun x => flt x (nth (argmin a l) (a :: l) NaN) = false) (a :: l).
Proof.
  intros H. inversion H as [| ? ? Ha Hl]; subst.
  apply (@argmin_from_least l [a] 0%nat a); simpl; auto.
  constructor; [apply flt_irrefl | constructor].
Qed.

(** *** The methods, step by step *)

Section Fit.
Variable kernel_c : mat -> mat -> vec -> mat.
Variable cholesky : mat -> result mat.
Variable cho_solve : mat -> mat -> mat.
Variable ConstraintsGPR : Type.
Variable constraints_t : Type.
Variable constraints_args_t : Type.
Variable constraints_of : ConstraintsGPR -> mat -> mat -> predict_fn -> constraints_t.
Variable args_of : ConstraintsGPR -> constraints_args_t.
Variable optimizer_optimize :
  Optimizer constraints_t constraints_args_t ->
  (vec -> result R) -> vec -> bool -> result optimize_result.

Notation "'World'" := (world ConstraintsGPR constraints_t constraints_args_t)
  (only parsing).
Notation "'Regressor'" := (regressor ConstraintsGPR) (only parsing).
Notation "'fit_'" :=
  (fit kernel_c cholesky cho_solve constraints_of args_of optimizer_optimize)
  (only parsing).
Notation "'mle_'" :=
  (mle kernel_c cholesky cho_solve constraints_of args_of optimizer_optimize)
  (only parsing).
Notation "'restarts_'" :=
  (restarts kernel_c cholesky cho_solve optimizer_optimize) (only parsing).
Notation "'factorize_'" := (factorize kernel_c cholesky cho_solve) (only parsing).
Notation "'predict_'" := (predict kernel_c cholesky cho_solve) (only parsing).
Notation "'log_likelihood_'" := (log_likelihood kernel_c cholesky cho_solve)
  (only parsing).

(** The world with another instance state. *)
Definition with_self (w : World) (r : Regressor) : World :=
  {| self := r; optimizer := optimizer w; np_random := np_random w;
     runs := runs w |}.

Lemma bind_inv (A B : Type)
    (m : M ConstraintsGPR constraints_t constraints_args_t A)
    (k : A -> M ConstraintsGPR constraints_t constraints_args_t B)
    (w w' : World) (r : result B) :
  bind m k w = (r, w') ->
  (exists e, m w = (inl e, w') /\ r = inl e) \/
  (exists a w1, m w = (inr a, w1) /\ k a w1 = (r, w')).
Proof.
  unfold bind. destruct (m w) as [[e | a] w1]; intros H.
  - left. exists e. inversion H. split; reflexivity.
  - right. exists a, w1. split; [reflexivity | exact H].
Qed.

Lemma bind_assign (B : Type) (f : Regressor -> Regressor)
    (k : unit -> M ConstraintsGPR constraints_t constraints_args_t B) (w : World) :
  bind (assign f) k w = k tt (with_self w (f (self w))).
Proof. reflexivity. Qed.

Lemma bind_ret (A B : Type) (a : A)
    (k : A -> M ConstraintsGPR constraints_t constraints_args_t B) (w : World) :
  bind (ret a) k w = k a w.
Proof. reflexivity. Qed.

Lemma bind_lift_ok (A B : Type) (a : A)
    (k : A -> M ConstraintsGPR constraints_t constraints_args_t B) (w : World) :
  bind (lift (inr a)) k w = k a w.
Proof. reflexivity. Qed.

Lemma bind_lift_err (A B : Type) (e : exn)
    (k : A -> M ConstraintsGPR constraints_t constraints_args_t B) (w : World) :
  bind (lift (inl e)) k w = (inl e, w).
Proof. reflexivity. Qed.

Lemma bind_get_self (B : Type)
    (k : Regressor -> M ConstraintsGPR constraints_t constraints_args_t B) (w : World) :
  bind (@get_self ConstraintsGPR constraints_t constraints_args_t) k w = k (self w) w.
Proof. reflexivity. Qed.

Lemma with_self_id (w : World) : with_self w (self w) = w.
Proof. destruct w; reflexivity. Qed.

Lemma bind_opt_assign (A B : Type) (o : option A) (f : A -> Regressor -> Regressor)
    (k : unit -> M ConstraintsGPR constraints_t constraints_args_t B) (w : World) :
  bind (match o with Some x => assign (f x) | None => ret tt end) k w
  = k tt (with_self w (match o with Some x => f x (self w) | None => self w end)).
Proof. destruct o; [reflexivity |]. rewrite with_self_id. reflexivity. Qed.

Ltac bind_step H :=
  let e := fresh "e" in
  let a := fresh "a" in
  let w1 := fresh "w" in
  let H1 := fresh "Hm" in
  let H2 := fresh "Hk" in
  apply bind_inv in H;
  destruct H as [(e & H1 & H2) | (a & w1 & H1 & H2)].

(** The instance state once the arguments are stored (lines 128-132). *)
Definition stored (samples_arg : ndarray) (n : option nat) (h : option vec)
    (r : Regressor) : Regressor :=
  set_samples (Some samples_arg)
    (match h with
     | Some x => set_hyperparameters x
     | None => fun r => r
     end
       (match n with
        | Some x => set_optimizations_number x r
        | None => r
        end)).

(** ... and once the reshaped values and the statistics are stored. *)
Definition standardized (samples_ values_ : mat) (r : Regressor) : Regressor :=
  if normalize r then
    set_value_std (Some (std0 values_))
      (set_value_mean (Some (mean0 values_))
         (set_sample_std (Some (std0 samples_))
            (set_sample_mean (Some (mean0 samples_))
               (set_values (Some values_) r))))
  else set_values (Some values_) r.

Definition training_pair (samples_ values_ : mat) (r : Regressor) : mat * mat :=
  if normalize r then
    (standardize samples_ (mean0 samples_) (std0 samples_),
     standardize values_ (mean0 values_) (std0 values_))
  else (samples_, values_).

(** The array checks of lines 132-138, which touch no attribute. *)
Definition checked (samples_arg values_arg : ndarray) : result (mat * mat) :=
  (samples_ <- as_2d samples_arg ;;
   output_dim <- (if Nat.eqb (nrows samples_) 0 then raise ZeroDivisionError
                  else ok (size values_arg / nrows samples_)%nat) ;;
   values_ <- reshape values_arg (nrows samples_) output_dim ;;
   ok (samples_, values_))%result.

(** [load_data] either stops with the arguments stored, or goes through. *)
Lemma load_data_eq (sa va : ndarray) (n : option nat) (h : option vec) (w : World) :
  load_data sa va n h w =
  match checked sa va with
  | inl e => (inl e, with_self w (stored sa n h (self w)))
  | inr mv =>
      (inr (fst mv, training_pair (fst mv) (snd mv) (self w)),
       with_self w (standardized (fst mv) (snd mv) (stored sa n h (self w))))
  end.
Proof.
  unfold load_data, checked, ok, raise.
  rewrite bind_opt_assign, bind_opt_assign, bind_assign.
  destruct sa as [v | m]; cbn [as_2d rbind raise ok].
  - unfold raise. rewrite bind_lift_err. f_equal. destruct n, h; reflexivity.
  - rewrite bind_lift_ok. cbv zeta.
    destruct (Nat.eqb (nrows m) 0) eqn:En; cbn [rbind].
    + rewrite bind_lift_err. f_equal. destruct n, h; reflexivity.
    + rewrite bind_lift_ok.
      destruct (reshape va (nrows m) (size va / nrows m)) as [e | v] eqn:Er;
        cbn [rbind fst snd].
      * rewrite bind_lift_err. f_equal. destruct n, h; reflexivity.
      * rewrite bind_lift_ok, bind_assign, bind_get_self.
        unfold training_pair, standardized.
        destruct n, h; cbn; destruct (normalize (self w)); reflexivity.
Qed.

Lemma checked_ok (sa va : ndarray) (m v : mat) :
  checked sa va = inr (m, v) <->
  sa = Arr2 m /\ nrows m <> 0%nat /\
  reshape va (nrows m) (size va / nrows m) = inr v.
Proof.
  unfold checked, ok, raise. destruct sa as [x | m']; cbn [as_2d rbind ok raise].
  - split; [discriminate | intros (E & _); discriminate].
  - destruct (Nat.eqb (nrows m') 0) eqn:En; cbn [rbind].
    + apply Nat.eqb_eq in En. split; [discriminate |].
      intros (E & Hn & _). injection E as ->. contradiction.
    + apply Nat.eqb_neq in En.
      destruct (reshape va (nrows m') (size va / nrows m')) as [e | v'] eqn:Er;
        cbn [rbind].
      * split; [discriminate |]. intros (E & _ & Er'). injection E as ->. congruence.
      * split.
        -- intros E. injection E as -> ->. repeat split; assumption.
        -- intros (E & _ & Er'). injection E as ->. congruence.
Qed.

(** [factorize] assigns [K], then [cc], then [alpha_]. *)
Definition factorized (s_ y_ : mat) (noise : R) (l : mat) (r : Regressor)
    : Regressor :=
  set_alpha_ (Some (cho_solve l y_))
    (set_cc (Some l)
       (set_K (Some (covariance kernel_c s_ (but_last (hyperparameters r)) noise)) r)).

Lemma factorize_cases (s_ y_ : mat) (nsamples : nat) (w w' : World)
    (res : result unit) :
  factorize_ s_ y_ nsamples w = (res, w') <->
  (last_entry (hyperparameters (self w)) = inl IndexError /\
   res = inl IndexError /\ w' = w) \/
  (exists noise,
     last_entry (hyperparameters (self w)) = inr noise /\
     let K_ := covariance kernel_c s_ (but_last (hyperparameters (self w))) noise in
     ((exists e, cholesky (with_jitter K_ nsamples) = inl e /\ res = inl e /\
                 w' = with_self w (set_K (Some K_) (self w))) \/
      (exists l, cholesky (with_jitter K_ nsamples) = inr l /\ res = inr tt /\
                 w' = with_self w (factorized s_ y_ noise l (self w))))).
Proof.
  unfold factorize. rewrite bind_get_self.
  destruct (last_entry (hyperparameters (self w))) as [e | noise] eqn:El.
  - rewrite bind_lift_err.
    assert (e = IndexError) as ->.
    { unfold last_entry, raise, ok in El.
      destruct (hyperparameters (self w)); congruence. }
    split.
    + intros H. inversion H. left. repeat split.
    + intros [(_ & -> & ->) | (noise & E & _)]; [reflexivity | discriminate].
  - rewrite bind_lift_ok, bind_assign. cbv zeta.
    destruct (cholesky (with_jitter (covariance kernel_c s_
                (but_last (hyperparameters (self w))) noise) nsamples))
      as [e | l] eqn:Ec.
    + rewrite bind_lift_err. split.
      * intros H. inversion H. right. exists noise. split; [reflexivity |].
        left. exists e. repeat split; assumption.
      * intros [(E & _) | (x & E & HH)]; [discriminate |].
        injection E as <-. cbv zeta in HH.
        destruct HH as [(e' & E1 & -> & ->) | (l & E1 & _)]; [| congruence].
        rewrite Ec in E1. injection E1 as <-. reflexivity.
    + rewrite bind_lift_ok, bind_assign. unfold assign. cbn [self with_self optimizer np_random runs]. split.
      * intros H. inversion H. right. exists noise. split; [reflexivity |].
        right. exists l. repeat split; assumption.
      * intros [(E & _) | (x & E & HH)]; [discriminate |].
        injection E as <-. cbv zeta in HH.
        destruct HH as [(e' & E1 & _) | (l' & E1 & -> & ->)]; [congruence |].
        rewrite Ec in E1. injection E1 as <-. reflexivity.
Qed.


(** One pass of the loop body (lines 177-187): what the run leaves in
    [minimizer] and [fun_value]. *)
Definition run_once (o : Optimizer constraints_t constraints_args_t)
    (jac_ : bool) (d : nat) (s_ y_ : mat) (x0 : vec) : result (vec * fval) :=
  (p_ <- optimizer_optimize o (fun p0 => log_likelihood_ p0 s_ y_) x0 jac_ ;;
   match p_ with
   | AsArray p =>
       x <- broadcast_to d p ;;
       f <- log_likelihood_ p s_ y_ ;;
       ok (x, Fin f)
   | AsObject x f =>
       x' <- broadcast_to d x ;;
       ok (x', f)
   end)%result.

(** The loop: the rows it produces, or the first error, and the starting
    points of the runs it made. *)
Fixpoint run_all (o : Optimizer constraints_t constraints_args_t)
    (jac_ : bool) (d : nat) (s_ y_ : mat) (starting_point : list vec)
    : result (list (vec * fval)) * list vec :=
  match starting_point with
  | [] => (ok [], [])
  | x0 :: rest =>
      match run_once o jac_ d s_ y_ x0 with
      | inl e => (inl e, [x0])
      | inr row =>
          let (r, ran) := run_all o jac_ d s_ y_ rest in
          (match r with
           | inl e => inl e
           | inr rows => inr (row :: rows)
           end, x0 :: ran)
      end
  end.

Definition with_runs (w : World) (l : list vec) : World :=
  {| self := self w; optimizer := optimizer w; np_random := np_random w;
     runs := l |}.

Lemma bind_lift (A B : Type) (r : result A)
    (k : A -> M ConstraintsGPR constraints_t constraints_args_t B) (w : World) :
  bind (lift r) k w = match r with inl e => (inl e, w) | inr a => k a w end.
Proof. destruct r; reflexivity. Qed.

Lemma bind_log_run (B : Type) (x0 : vec)
    (k : unit -> M ConstraintsGPR constraints_t constraints_args_t B) (w : World) :
  bind (log_run x0) k w = k tt (with_runs w (x0 :: runs w)).
Proof. reflexivity. Qed.

Lemma bind_get_optimizer (B : Type)
    (k : Optimizer constraints_t constraints_args_t ->
         M ConstraintsGPR constraints_t constraints_args_t B) (w : World) :
  bind (@get_optimizer ConstraintsGPR constraints_t constraints_args_t) k w
  = k (optimizer w) w.
Proof. reflexivity. Qed.

Lemma bind_bind (A B C : Type)
    (m : M ConstraintsGPR constraints_t constraints_args_t A)
    (k : A -> M ConstraintsGPR constraints_t constraints_args_t B)
    (k' : B -> M ConstraintsGPR constraints_t constraints_args_t C) (w : World) :
  bind (bind m k) k' w = bind m (fun a => bind (k a) k') w.
Proof. unfold bind. destruct (m w) as [[e | a] w1]; reflexivity. Qed.

Lemma restarts_eq (starting_point : list vec) (d : nat) (s_ y_ : mat) (w : World) :
  restarts_ starting_point d s_ y_ w =
  let out := run_all (optimizer w) (jac (self w)) d s_ y_ starting_point in
  (fst out, with_runs w (rev (snd out) ++ runs w)).
Proof.
  revert w. induction starting_point as [| x0 rest IH]; intros w.
  - destruct w; reflexivity.
  - cbn [restarts run_all].
    rewrite bind_log_run, bind_get_optimizer, bind_get_self, bind_lift.
    cbn [self optimizer with_runs]. unfold run_once.
    destruct (optimizer_optimize (optimizer w)
                (fun p0 => log_likelihood_ p0 s_ y_) x0 (jac (self w)))
      as [e | p_]; cbn [rbind]; [reflexivity |].
    destruct p_ as [p | x f].
    + rewrite bind_bind, bind_lift.
      destruct (broadcast_to d p) as [e | x]; cbn [rbind]; [reflexivity |].
      rewrite bind_bind, bind_lift.
      destruct (log_likelihood_ p s_ y_) as [e | f]; cbn [rbind]; [reflexivity |].
      rewrite bind_ret. unfold bind, ok. rewrite IH.
      cbv zeta. cbn [self optimizer runs with_runs].
      destruct (run_all (optimizer w) (jac (self w)) d s_ y_ rest) as [[e | rows] ran];
        cbn [fst snd rev]; unfold with_runs, ret; cbn [self optimizer np_random runs];
        rewrite <- app_assoc; reflexivity.
    + rewrite bind_bind, bind_lift.
      destruct (broadcast_to d x) as [e | x']; cbn [rbind]; [reflexivity |].
      rewrite bind_ret. unfold bind, ok. rewrite IH.
      cbv zeta. cbn [self optimizer runs with_runs].
      destruct (run_all (optimizer w) (jac (self w)) d s_ y_ rest) as [[e | rows] ran];
        cbn [fst snd rev]; unfold with_runs, ret; cbn [self optimizer np_random runs];
        rewrite <- app_assoc; reflexivity.
Qed.

Lemma run_all_ok (o : Optimizer constraints_t constraints_args_t) (jac_ : bool)
    (d : nat) (s_ y_ : mat) (starting_point : list vec) (rows : list (vec * fval)) :
  fst (run_all o jac_ d s_ y_ starting_point) = inr rows <->
  Forall2 (fun x0 row => run_once o jac_ d s_ y_ x0 = inr row) starting_point rows.
Proof.
  revert rows. induction starting_point as [| x0 rest IH]; intros rows; simpl.
  - split.
    + intros H. injection H as <-. constructor.
    + intros H. inversion H. reflexivity.
  - destruct (run_once o jac_ d s_ y_ x0) as [e | row] eqn:E0; simpl.
    + split; [discriminate | intros H; inversion H; congruence].
    + destruct (run_all o jac_ d s_ y_ rest) as [[e | rows'] ran] eqn:Er; simpl in *.
      * split; [discriminate |]. intros H. inversion H as [| ? ? ? ? _ H']; subst.
        apply IH in H'. discriminate.
      * split.
        -- intros H. injection H as <-. constructor; [exact E0 |].
           apply IH. reflexivity.
        -- intros H. inversion H as [| ? ? ? ? H0 H']; subst.
           apply IH in H'. congruence.
Qed.

Lemma run_all_ok_ran (o : Optimizer constraints_t constraints_args_t) (jac_ : bool)
    (d : nat) (s_ y_ : mat) (starting_point : list vec) (rows : list (vec * fval)) :
  fst (run_all o jac_ d s_ y_ starting_point) = inr rows ->
  snd (run_all o jac_ d s_ y_ starting_point) = starting_point.
Proof.
  revert rows. induction starting_point as [| x0 rest IH]; intros rows; simpl.
  - reflexivity.
  - destruct (run_once o jac_ d s_ y_ x0) as [e | row]; simpl; [discriminate |].
    destruct (run_all o jac_ d s_ y_ rest) as [[e | rows'] ran]; simpl in *.
    + discriminate.
    + intros _. f_equal. apply (IH rows'). reflexivity.
Qed.

(** The optimizer after lines 165-171, where it receives either the
    constraints or the log-transformed bounds. *)
Definition configured (o : Optimizer constraints_t constraints_args_t)
    (r : Regressor) (samples_ : mat)
    : result (Optimizer constraints_t constraints_args_t) :=
  match optimize_constraints r with
  | Some oc =>
      (vals <- attr (values r) ;;
       ok {| _bounds := _bounds o;
             _constraints := Some (constraints_of oc samples_ vals (predict_ r));
             _constraints_argument := Some (args_of oc) |})%result
  | None =>
      ok {| _bounds := Some (map (fun xy => (log10 (fst xy), log10 (snd xy)))
                               (bounds r));
            _constraints := _constraints o;
            _constraints_argument := _constraints_argument o |}
  end.

Definition lower (r : Regressor) : vec := map (fun xy => log10 (fst xy)) (bounds r).
Definition upper (r : Regressor) : vec := map (fun xy => log10 (snd xy)) (bounds r).

(** The first row of [starting_point] (line 163). *)
Definition first_start (drawn : mat) (d : nat) (r : Regressor) : result vec :=
  match drawn with
  | [] => raise IndexError
  | _ :: _ => broadcast_to d (map log10 (hyperparameters r))
  end.

(** [mle], statement by statement. *)
Lemma mle_eq (samples_ : mat) (input_dim : nat) (s_ y_ : mat) (w : World) :
  mle_ samples_ input_dim s_ y_ w =
  let r := set_alpha_ None (self w) in
  let d := (input_dim + 2)%nat in
  match uniform (np_random w) (lower r) (upper r) (optimizations_number r) d with
  | (inl e, g) => (inl e, Build_world r (optimizer w) g (runs w))
  | (inr drawn, g) =>
      match first_start drawn d r with
      | inl e => (inl e, Build_world r (optimizer w) g (runs w))
      | inr row0 =>
          match configured (optimizer w) r samples_ with
          | inl e => (inl e, Build_world r (optimizer w) g (runs w))
          | inr o' =>
              let out := run_all o' (jac r) d s_ y_ (row0 :: tl drawn) in
              let l := rev (snd out) ++ runs w in
              match fst out with
              | inl e => (inl e, Build_world r o' g l)
              | inr rows =>
                  match map snd rows with
                  | [] => (inl ValueError, Build_world r o' g l)
                  | f0 :: fs =>
                      if is_pinf (py_min f0 fs)
                      then (inl NotImplementedError, Build_world r o' g l)
                      else (inr tt,
                            Build_world
                              (set_hyperparameters
                                 (map pow10 (nth (argmin f0 fs) (map fst rows) []))
                                 r)
                              o' g l)
                  end
              end
          end
      end
  end.
Proof.
  unfold mle. rewrite bind_assign, bind_get_self. cbn [self with_self]. cbv zeta.
  unfold bind at 1. unfold np_random_uniform at 1.
  cbn [self optimizer np_random runs with_self].
  fold (lower (set_alpha_ None (self w))). fold (upper (set_alpha_ None (self w))).
  destruct (uniform (np_random w) (lower (set_alpha_ None (self w)))
              (upper (set_alpha_ None (self w)))
              (optimizations_number (set_alpha_ None (self w))) (input_dim + 2))
    as [[e | drawn] g]; [reflexivity |].
  rewrite bind_lift. fold (first_start drawn (input_dim + 2) (set_alpha_ None (self w))).
  destruct (first_start drawn (input_dim + 2) (set_alpha_ None (self w)))
    as [e | row0]; [reflexivity |].
  rewrite bind_get_optimizer. cbn [optimizer].
  unfold configured.
  destruct (optimize_constraints (set_alpha_ None (self w))) as [oc |].
  - rewrite bind_bind, bind_lift.
    destruct (attr (values (set_alpha_ None (self w)))) as [e | vals]; cbn [rbind];
      [reflexivity |].
    unfold bind at 1. unfold put_optimizer at 1.
    cbn [self optimizer np_random runs]. unfold bind at 1.
    rewrite restarts_eq. cbv beta iota zeta delta [ok rbind].
    cbn [self optimizer np_random runs with_runs fst snd].
    match goal with
    | |- context [run_all ?o ?j ?d ?s ?y ?sp] =>
        destruct (run_all o j d s y sp) as [[e | rows] ran]
    end; cbn [fst snd]; [reflexivity |].
    destruct (map snd rows) as [| f0 fs]; [reflexivity |].
    destruct (is_pinf (py_min f0 fs)); reflexivity.
  - unfold bind at 1. unfold put_optimizer at 1.
    cbn [self optimizer np_random runs]. unfold bind at 1.
    rewrite restarts_eq. cbv beta iota zeta delta [ok rbind].
    cbn [self optimizer np_random runs with_runs fst snd].
    match goal with
    | |- context [run_all ?o ?j ?d ?s ?y ?sp] =>
        destruct (run_all o j d s y sp) as [[e | rows] ran]
    end; cbn [fst snd]; [reflexivity |].
    destruct (map snd rows) as [| f0 fs]; [reflexivity |].
    destruct (is_pinf (py_min f0 fs)); reflexivity.
Qed.

Lemma fit_eq (sa va : ndarray) (n : option nat) (h : option vec) (w : World) :
  fit_ sa va n h w =
  match load_data sa va n h w with
  | (inl e, w1) => (inl e, w1)
  | (inr d, w1) =>
      match (if optimize (self w1)
             then mle_ (fst d) (ncols (fst d)) (fst (snd d)) (snd (snd d)) w1
             else (inr tt, w1)) with
      | (inl e, w2) => (inl e, w2)
      | (inr _, w2) => factorize_ (fst (snd d)) (snd (snd d)) (nrows (fst d)) w2
      end
  end.
Proof.
  unfold fit. unfold bind at 1.
  destruct (load_data sa va n h w) as [[e | d] w1]; [reflexivity |].
  rewrite bind_get_self. unfold bind at 1.
  destruct (optimize (self w1)); reflexivity.
Qed.


Ltac fields :=
  unfold standardized, stored, factorized;
  repeat match goal with
         | |- context [if ?b then _ else _] => destruct b
         | |- context [match ?o with Some _ => _ | None => _ end] => destruct o
         end;
  reflexivity.

Lemma loaded_samples sa n h m v (r : Regressor) :
  samples (standardized m v (stored sa n h r)) = Some sa.
Proof. fields. Qed.
Lemma loaded_values sa n h m v (r : Regressor) :
  values (standardized m v (stored sa n h r)) = Some v.
Proof. fields. Qed.
Lemma loaded_cc sa n h m v (r : Regressor) :
  cc (standardized m v (stored sa n h r)) = cc r.
Proof. fields. Qed.
Lemma loaded_K sa n h m v (r : Regressor) :
  K (standardized m v (stored sa n h r)) = K r.
Proof. fields. Qed.
Lemma loaded_alpha sa n h m v (r : Regressor) :
  alpha_ (standardized m v (stored sa n h r)) = alpha_ r.
Proof. fields. Qed.
Lemma loaded_optimize sa n h m v (r : Regressor) :
  optimize (standardized m v (stored sa n h r)) = optimize r.
Proof. fields. Qed.
Lemma loaded_normalize sa n h m v (r : Regressor) :
  normalize (standardized m v (stored sa n h r)) = normalize r.
Proof. fields. Qed.
Lemma loaded_bounds sa n h m v (r : Regressor) :
  bounds (standardized m v (stored sa n h r)) = bounds r.
Proof. fields. Qed.
Lemma loaded_jac sa n h m v (r : Regressor) :
  jac (standardized m v (stored sa n h r)) = jac r.
Proof. fields. Qed.
Lemma loaded_random_state sa n h m v (r : Regressor) :
  random_state (standardized m v (stored sa n h r)) = random_state r.
Proof. fields. Qed.
Lemma loaded_hyperparameters sa n h m v (r : Regressor) :
  hyperparameters (standardized m v (stored sa n h r)) =
  match h with Some x => x | None => hyperparameters r end.
Proof. fields. Qed.
Lemma loaded_optimizations_number sa n h m v (r : Regressor) :
  optimizations_number (standardized m v (stored sa n h r)) =
  match n with Some x => x | None => optimizations_number r end.
Proof. fields. Qed.
Lemma loaded_statistics sa n h m v (r : Regressor) :
  normalize r = true ->
  let r' := standardized m v (stored sa n h r) in
  sample_mean r' = Some (mean0 m) /\ sample_std r' = Some (std0 m) /\
  value_mean r' = Some (mean0 v) /\ value_std r' = Some (std0 v).
Proof.
  intros H. unfold standardized.
  replace (normalize (stored sa n h r)) with true
    by (rewrite <- H; unfold stored; destruct n, h; reflexivity).
  repeat split.
Qed.


(** *** The starting points *)

Lemma chunks_length (n k : nat) (l : vec) : length (chunks n k l) = n.
Proof. revert l. induction n as [| n IH]; intros l; simpl; [reflexivity | now rewrite IH]. Qed.

Lemma chunks_Forall (P : R -> Prop) (n k : nat) (l : vec) :
  Forall P l -> Forall (Forall P) (chunks n k l).
Proof.
  revert l. induction n as [| n IH]; intros l H; simpl; [constructor |].
  rewrite <- (firstn_skipn k l) in H. apply Forall_app in H. destruct H as [H1 H2].
  constructor; [exact H1 | apply IH; exact H2].
Qed.

Lemma uniform_length (g g' : RandomState) (low high : vec) (n d : nat) (rows : mat) :
  uniform g low high n d = (inr rows, g') -> length rows = n.
Proof.
  unfold uniform.
  destruct (broadcast_to d low) as [e | lo]; [discriminate |].
  destruct (broadcast_to d high) as [e | hi]; [discriminate |].
  cbn. intros H. injection H as <- _. rewrite length_map. apply chunks_length.
Qed.

(** A value of the box: between the two bounds, entry by entry. *)
Definition in_box (low high x : vec) : Prop :=
  Forall2 (fun lh v => (Rmin (fst lh) (snd lh) <= v <= Rmax (fst lh) (snd lh))%R)
    (combine low high) x.

Lemma affine_between (a b u : R) :
  (0 <= u <= 1)%R -> (Rmin a b <= a + (b - a) * u <= Rmax a b)%R.
Proof.
  intros [H0 H1]. unfold Rmin, Rmax. destruct (Rle_dec a b) as [Hab | Hab].
  - split; nra.
  - split; nra.
Qed.

Lemma draw_in_box (lo hi row : vec) :
  length lo = length hi -> length row = length lo ->
  Forall (fun u => (0 <= u <= 1)%R) row ->
  in_box lo hi (zip_with Rplus lo (zip_with Rmult (zip_with Rminus hi lo) row)).
Proof.
  unfold in_box. revert hi row.
  induction lo as [| a lo IH]; intros [| b hi] [| u row] Hl Hr Hu;
    simpl in *; try discriminate; constructor.
  - simpl. apply affine_between. inversion Hu; assumption.
  - apply IH; [lia | lia | inversion Hu; assumption].
Qed.

Lemma chunks_row_length (n k : nat) (l : vec) :
  length l = (n * k)%nat -> Forall (fun row => length row = k) (chunks n k l).
Proof.
  revert l. induction n as [| n IH]; intros l H; simpl; constructor.
  - rewrite length_firstn. simpl in H. lia.
  - apply IH. rewrite length_skipn. simpl in H. lia.
Qed.

(** With bounds given entry by entry, every row that [np.random.uniform]
    returns lies in the box, provided the generator delivers variates of
    [[0, 1]]. *)
Lemma uniform_in_box (g g' : RandomState) (low high : vec) (n d : nat) (rows : mat) :
  length low = d -> length high = d ->
  (forall i, 0 <= tape g i <= 1)%R ->
  uniform g low high n d = (inr rows, g') ->
  Forall (in_box low high) rows.
Proof.
  intros Hl Hh Ht. unfold uniform, broadcast_to.
  rewrite Hl, Hh, Nat.eqb_refl.
  cbn. intros H. injection H as <- _.
  apply Forall_map.
  assert (Hu : Forall (fun u => (0 <= u <= 1)%R)
                 (map (fun i => tape g (taken g + i)) (seq 0 (n * d)))).
  { apply Forall_map. apply Forall_forall. intros i _. apply Ht. }
  assert (Hlen : length (map (fun i => tape g (taken g + i)) (seq 0 (n * d)))
                 = (n * d)%nat).
  { rewrite length_map, length_seq. reflexivity. }
  pose proof (@chunks_Forall _ n d _ Hu) as H1.
  pose proof (@chunks_row_length n d _ Hlen) as H2.
  rewrite Forall_forall in *. intros row Hrow.
  apply draw_in_box; [lia | rewrite (H2 row Hrow); lia | apply H1; exact Hrow].
Qed.

Lemma argmin_from_lt (l : list fval) (best : nat) (cur : fval) (i : nat) :
  (best < i)%nat -> (argmin_from best cur i l < i + length l)%nat.
Proof.
  revert best cur i. induction l as [| x l IH]; intros best cur i Hb; simpl.
  - lia.
  - destruct (is_nan cur); [lia |].
    destruct (is_nan x || flt x cur).
    + specialize (IH i x (S i)). lia.
    + specialize (IH best cur (S i)). lia.
Qed.

Lemma first_start_nonempty (drawn : mat) (d : nat) (r : Regressor) (row0 : vec) :
  first_start drawn d r = inr row0 ->
  drawn <> [] /\ broadcast_to d (map log10 (hyperparameters r)) = inr row0 /\
  length (row0 :: tl drawn) = length drawn.
Proof.
  destruct drawn as [| x rest]; simpl; [discriminate |].
  intros H. repeat split; [discriminate | exact H].
Qed.

(** The restarts of a call that returns. *)
Lemma restarts_of_fit (sa va : ndarray) (n : option nat) (h : option vec)
    (w w' : World) :
  fit_ sa va n h w = (inr tt, w') ->
  optimize (self w) = true ->
  let N := match n with Some x => x | None => optimizations_number (self w) end in
  let current := match h with Some x => x | None => hyperparameters (self w) end in
  exists (m v drawn : mat) (row0 : vec) (rows : list (vec * fval)) (t : nat),
    checked sa va = inr (m, v) /\
    let d := (ncols m + 2)%nat in
    let s_ := fst (training_pair m v (self w)) in
    let y_ := snd (training_pair m v (self w)) in
    let starting_point := row0 :: tl drawn in
    (* the starting points *)
    uniform (np_random w) (lower (self w)) (upper (self w)) N d
      = (inr drawn, np_random w') /\
    broadcast_to d (map log10 current) = inr row0 /\
    length starting_point = N /\
    (length (bounds (self w)) = d ->
     (forall i, 0 <= tape (np_random w) i <= 1)%R ->
     Forall (in_box (lower (self w)) (upper (self w))) (tl drawn)) /\
    (* exactly N runs *)
    runs w' = rev starting_point ++ runs w /\
    Forall2 (fun x0 row =>
               run_once (optimizer w') (jac (self w)) d s_ y_ x0 = inr row)
      starting_point rows /\
    (* the selection *)
    (t < N)%nat /\
    hyperparameters (self w') = map pow10 (fst (nth t rows ([], NaN))) /\
    (Forall (fun row => is_nan (snd row) = false) rows ->
     Forall (fun row => flt (snd row) (snd (nth t rows ([], NaN))) = false) rows).
Proof.
  intros H Eo N current. rewrite fit_eq, load_data_eq in H.
  destruct (checked sa va) as [e | [m v]] eqn:EC; [discriminate |].
  cbn [fst snd self with_self] in H. rewrite loaded_optimize, Eo in H.
  rewrite mle_eq in H. cbv zeta in H. cbn [self with_self optimizer np_random runs] in H.
  set (r1 := standardized m v (stored sa n h (self w))) in *.
  assert (Hb : bounds (set_alpha_ None r1) = bounds (self w))
    by (cbn; apply loaded_bounds).
  assert (Hlow : lower (set_alpha_ None r1) = lower (self w))
    by (unfold lower; rewrite Hb; reflexivity).
  assert (Hup : upper (set_alpha_ None r1) = upper (self w))
    by (unfold upper; rewrite Hb; reflexivity).
  assert (HN : optimizations_number (set_alpha_ None r1) = N)
    by (cbn; apply loaded_optimizations_number).
  assert (Hh : hyperparameters (set_alpha_ None r1) = current)
    by (cbn; apply loaded_hyperparameters).
  assert (Hj : jac (set_alpha_ None r1) = jac (self w))
    by (cbn; apply loaded_jac).
  rewrite Hlow, Hup, HN, Hj in H.
  destruct (uniform (np_random w) (lower (self w)) (upper (self w)) N (ncols m + 2))
    as [[e | drawn] g] eqn:EU; [discriminate |].
  destruct (first_start drawn (ncols m + 2) (set_alpha_ None r1)) as [e | row0] eqn:EF;
    [discriminate |].
  apply first_start_nonempty in EF. destruct EF as (Hne & Hrow0 & Hlen).
  rewrite Hh in Hrow0.
  destruct (configured (optimizer w) (set_alpha_ None r1) m) as [e | o'];
    [discriminate |].
  destruct (run_all o' (jac (self w)) (ncols m + 2)
              (fst (training_pair m v (self w))) (snd (training_pair m v (self w)))
              (row0 :: tl drawn)) as [[e | rows] ran] eqn:ER;
    cbn [fst snd] in H; [discriminate |].
  assert (ER1 : fst (run_all o' (jac (self w)) (ncols m + 2)
              (fst (training_pair m v (self w))) (snd (training_pair m v (self w)))
              (row0 :: tl drawn)) = inr rows) by (rewrite ER; reflexivity).
  pose proof (run_all_ok_ran _ _ _ _ _ _ ER1) as Hran. rewrite ER in Hran.
  cbn [snd] in Hran. subst ran.
  apply run_all_ok in ER1.
  destruct (map snd rows) as [| f0 fs] eqn:Ef; [discriminate |].
  destruct (is_pinf (py_min f0 fs)) eqn:Ep; [discriminate |].
  apply factorize_cases in H.
  destruct H as [(_ & E & _) | (noise & _ & [(e & _ & E & _) | (l & _ & _ & ->)])];
    try discriminate.
  pose proof (uniform_length _ _ _ _ _ EU) as HU.
  pose proof (Forall2_length ER1) as Hrl.
  exists m, v, drawn, row0, rows, (argmin f0 fs).
  split; [reflexivity |]. cbv zeta. cbn [self with_self np_random runs optimizer].
  split; [exact EU |]. split; [exact Hrow0 |].
  split; [rewrite Hlen; exact HU |]. split.
  { intros Hbl Ht.
    assert (HF : Forall (in_box (lower (self w)) (upper (self w))) drawn).
    { eapply uniform_in_box; [| | exact Ht | exact EU].
      - unfold lower. rewrite length_map. exact Hbl.
      - unfold upper. rewrite length_map. exact Hbl. }
    destruct drawn; [constructor | inversion HF; assumption]. }
  split; [reflexivity |]. split; [exact ER1 |].
  assert (Hnth : forall i, snd (nth i rows ([], NaN)) = nth i (f0 :: fs) NaN).
  { intros i. rewrite <- Ef. change NaN with (snd (@nil R, NaN)) at 2.
    rewrite map_nth. reflexivity. }
  split.
  { pose proof (@argmin_from_lt fs 0%nat f0 1%nat Nat.lt_0_1) as Ht.
    fold (argmin f0 fs) in Ht.
    assert (length rows = S (length fs))
      by (rewrite <- (length_map snd rows), Ef; reflexivity).
    lia. }
  split.
  { unfold factorized. cbn. change (@nil R) with (fst (@nil R, NaN)).
    rewrite map_nth. reflexivity. }
  intros Hnn.
  assert (Hnn' : Forall (fun x => is_nan x = false) (f0 :: fs)).
  { rewrite <- Ef. apply Forall_map. exact Hnn. }
  destruct (argmin_least Hnn') as [_ Hleast].
  rewrite <- Ef in Hleast at 1. rewrite Forall_map in Hleast.
  eapply Forall_impl; [| exact Hleast]. intros row Hr. simpl in Hr.
  rewrite Hnth. exact Hr.
Qed.


(** *** predict *)

(** The query matrix [x_] of [predict] (lines 216-218). *)
Definition query_matrix (r : Regressor) (points : ndarray) : mat :=
  if normalize r then
    match sample_mean r, sample_std r with
    | Some mu, Some sd => standardize (atleast_2d points) mu sd
    | _, _ => atleast_2d points
    end
  else atleast_2d points.




(** The posterior mean and standard deviation of lines 237-251, from the
    three kernel matrices and the factorization in use. *)
Definition posterior (r : Regressor) (x_ s_ : mat) (params : vec)
    (l a : mat) (return_std : bool) : result predict_result :=
  (let k := kernel_c x_ s_ params in
   y <- (if normalize r then
           vmean <- attr (value_mean r) ;;
           vstd <- attr (value_std r) ;;
           ok (unstandardize (matmul k a) vmean vstd)
         else ok (matmul k a)) ;;
   let y := if Nat.eqb (ncols x_) 1 then Arr1 (flatten (Arr2 y)) else Arr2 y in
   if return_std then
     let k1 := kernel_c x_ x_ params in
     let mse := map sqrt (diagonal (msub k1 (matmul k (cho_solve l (transpose k))))) in
     mse <- (if normalize r then
               vstd <- attr (value_std r) ;;
               broadcast2 Rmult vstd mse
             else ok mse) ;;
     ok (MeanStd y (Arr1 mse))
   else ok (Mean y))%result.

(** The training inputs [s_] of [predict] (lines 219 and 222). *)
Definition training_inputs (r : Regressor) : result mat :=
  (sa <- attr (samples r) ;;
   s2 <- as_2d sa ;;
   _ <- attr (values r) ;;
   if normalize r then
     smean <- attr (sample_mean r) ;;
     sstd <- attr (sample_std r) ;;
     _ <- attr (value_mean r) ;;
     _ <- attr (value_std r) ;;
     ok (standardize s2 smean sstd)
   else ok s2)%result.

(** C10.  With the cached factorization present and hyperparameters [h]
    supplied: the result is the posterior computed from the cached factor
    [cc] and the cached solve [alpha_], with the kernel evaluated at
    [h[:-1]]; no factorization is computed (the result is the same for every
    Cholesky routine); the noise entry of [h], the stored hyperparameters and
    the stored matrix [K] have no influence. *)
Theorem predict_with_cached_factor (r : Regressor) (points : ndarray)
    (return_std : bool) (h : vec) (l a : mat) :
  alpha_ r = Some a -> cc r = Some l ->
  predict_ r points return_std (Some h) =
    (s_ <- training_inputs r ;;
     posterior r (query_matrix r points) s_ (but_last h) l a return_std)%result /\
  (forall cholesky' : mat -> result mat,
     predict kernel_c cholesky' cho_solve r points return_std (Some h) =
     predict_ r points return_std (Some h)) /\
  (forall h', but_last h' = but_last h ->
     predict_ r points return_std (Some h') =
     predict_ r points return_std (Some h)) /\
  (forall hp K',
     predict_ (set_K K' (set_hyperparameters hp r)) points return_std (Some h) =
     predict_ r points return_std (Some h)).
Proof.
  intros Ha Hc.
  assert (Hmain : forall (chol : mat -> result mat) h0,
            predict kernel_c chol cho_solve r points return_std (Some h0) =
            (s_ <- training_inputs r ;;
             posterior r (query_matrix r points) s_ (but_last h0) l a
               return_std)%result).
  { intros chol h0. unfold predict, training_inputs, posterior, query_matrix.
    rewrite Ha, Hc.
    destruct (attr (samples r)) as [e | sa]; [reflexivity |]. cbn [rbind].
    destruct (as_2d sa) as [e | s2]; [reflexivity |]. cbn [rbind].
    destruct (attr (values r)) as [e | vs]; [reflexivity |]. cbn [rbind].
    destruct (normalize r).
    - destruct (sample_mean r) as [mu |]; [| reflexivity]. cbn [attr rbind ok].
      destruct (sample_std r) as [sd |]; [| reflexivity]. cbn [attr rbind ok].
      destruct (value_mean r) as [vm |]; [| reflexivity]. cbn [attr rbind ok].
      destruct (value_std r) as [vsd |]; [| reflexivity]. reflexivity.
    - reflexivity. }
  split; [apply Hmain |]. split; [| split].
  - intros chol. rewrite !Hmain. reflexivity.
  - intros h' E. rewrite !Hmain, E. reflexivity.
  - intros hp K'. unfold predict. cbn. rewrite Ha, Hc. reflexivity.
Qed.

(** *** The [random_state] attribute *)

(** The instance with another generator in [random_state]. *)
Definition reseed (g : option RandomState) (r : Regressor) : Regressor :=
  {| hyperparameters := hyperparameters r;
     bounds := bounds r;
     optimizations_number := optimizations_number r;
     optimize := optimize r;
     optimize_constraints := optimize_constraints r;
     normalize := normalize r;
     random_state := g;
     jac := jac r;
     samples := samples r;
     values := values r;
     sample_mean := sample_mean r;
     sample_std := sample_std r;
     value_mean := value_mean r;
     value_std := value_std r;
     K := K r;
     cc := cc r;
     alpha_ := alpha_ r |}.

Definition reseed_world (g : option RandomState) (w : World) : World :=
  with_self w (reseed g (self w)).

(** A computation that neither reads nor writes [random_state]. *)
Definition blind (A : Type) (m : M ConstraintsGPR constraints_t constraints_args_t A)
    : Prop :=
  forall g w, m (reseed_world g w) = (fst (m w), reseed_world g (snd (m w))).

Lemma blind_ret (A : Type) (a : A) : blind (ret a).
Proof. intros g w. reflexivity. Qed.

Lemma blind_throw (A : Type) (e : exn) : blind (@throw _ _ _ A e).
Proof. intros g w. reflexivity. Qed.

Lemma blind_lift (A : Type) (r : result A) : blind (lift r).
Proof. intros g w. reflexivity. Qed.

Lemma blind_assign (f : Regressor -> Regressor) :
  (forall g r, f (reseed g r) = reseed g (f r)) -> blind (assign f).
Proof.
  intros Hf g w. unfold assign, reseed_world, with_self. cbn [self fst snd].
  rewrite Hf. reflexivity.
Qed.

Lemma blind_bind (A B : Type)
    (m : M ConstraintsGPR constraints_t constraints_args_t A)
    (k : A -> M ConstraintsGPR constraints_t constraints_args_t B) :
  blind m -> (forall a, blind (k a)) -> blind (bind m k).
Proof.
  intros Hm Hk g w. unfold bind. rewrite Hm.
  destruct (m w) as [[e | a] w1]; cbn [fst snd]; [reflexivity |].
  apply Hk.
Qed.

Lemma blind_get_self (B : Type)
    (k : Regressor -> M ConstraintsGPR constraints_t constraints_args_t B) :
  (forall g r w, k (reseed g r) w = k r w) -> (forall r, blind (k r)) ->
  blind (bind (@get_self ConstraintsGPR constraints_t constraints_args_t) k).
Proof.
  intros Hk Hb g w. rewrite !bind_get_self.
  unfold reseed_world at 1. cbn [self with_self]. rewrite Hk.
  apply (Hb (self w)).
Qed.

Lemma blind_get_optimizer (B : Type)
    (k : Optimizer constraints_t constraints_args_t ->
         M ConstraintsGPR constraints_t constraints_args_t B) :
  (forall o, blind (k o)) ->
  blind (bind (@get_optimizer ConstraintsGPR constraints_t constraints_args_t) k).
Proof. intros Hb g w. rewrite !bind_get_optimizer. apply (Hb (optimizer w)). Qed.

Lemma blind_put_optimizer (o : Optimizer constraints_t constraints_args_t) :
  blind (put_optimizer (ConstraintsGPR := ConstraintsGPR) o).
Proof. intros g w. reflexivity. Qed.

Lemma blind_log_run (x0 : vec) :
  blind (@log_run ConstraintsGPR constraints_t constraints_args_t x0).
Proof. intros g w. reflexivity. Qed.

Lemma blind_uniform (low high : vec) (n d : nat) :
  blind (@np_random_uniform ConstraintsGPR constraints_t constraints_args_t
           low high n d).
Proof.
  intros g w. unfold np_random_uniform. cbn [np_random reseed_world with_self].
  destruct (uniform (np_random w) low high n d) as [r g']. reflexivity.
Qed.

Lemma blind_restarts (starting_point : list vec) (d : nat) (s_ y_ : mat) :
  blind (restarts_ starting_point d s_ y_).
Proof.
  induction starting_point as [| x0 rest IH]; cbn [restarts].
  - apply blind_ret.
  - apply blind_bind; [apply blind_log_run | intros _].
    apply blind_get_optimizer. intros o.
    apply blind_get_self; [reflexivity | intros r].
    apply blind_bind; [apply blind_lift | intros p_].
    apply blind_bind.
    + destruct p_ as [p | x f].
      * apply blind_bind; [apply blind_lift | intros x].
        apply blind_bind; [apply blind_lift | intros f]. apply blind_ret.
      * apply blind_bind; [apply blind_lift | intros x']. apply blind_ret.
    + intros row. apply blind_bind; [exact IH | intros more]. apply blind_ret.
Qed.

Lemma blind_mle (samples_ : mat) (input_dim : nat) (s_ y_ : mat) :
  blind (mle_ samples_ input_dim s_ y_).
Proof.
  unfold mle.
  apply blind_bind; [apply blind_assign; reflexivity | intros _].
  apply blind_get_self; [reflexivity | intros r].
  apply blind_bind; [apply blind_uniform | intros drawn].
  apply blind_bind; [apply blind_lift | intros row0].
  apply blind_get_optimizer. intros o.
  apply blind_bind.
  - destruct (optimize_constraints r) as [oc |].
    + apply blind_bind; [apply blind_lift | intros vals]. apply blind_put_optimizer.
    + apply blind_put_optimizer.
  - intros _. apply blind_bind; [apply blind_restarts | intros rows].
    destruct (map snd rows) as [| f0 fs]; [apply blind_throw |].
    destruct (is_pinf (py_min f0 fs)); [apply blind_throw |].
    apply blind_assign. reflexivity.
Qed.

Lemma blind_load_data (sa va : ndarray) (n : option nat) (h : option vec) :
  blind (load_data (ConstraintsGPR := ConstraintsGPR)
           (constraints_t := constraints_t)
           (constraints_args_t := constraints_args_t) sa va n h).
Proof.
  unfold load_data.
  apply blind_bind;
    [destruct n; [apply blind_assign; reflexivity | apply blind_ret] | intros _].
  apply blind_bind;
    [destruct h; [apply blind_assign; reflexivity | apply blind_ret] | intros _].
  apply blind_bind; [apply blind_assign; reflexivity | intros _].
  apply blind_bind; [apply blind_lift | intros samples_].
  apply blind_bind; [apply blind_lift | intros output_dim].
  apply blind_bind; [apply blind_lift | intros values_].
  apply blind_bind; [apply blind_assign; reflexivity | intros _].
  apply blind_get_self; [reflexivity | intros r].
  destruct (normalize r); [| apply blind_ret].
  repeat (apply blind_bind; [apply blind_assign; reflexivity | intros _]).
  apply blind_ret.
Qed.

Lemma blind_factorize (s_ y_ : mat) (nsamples : nat) :
  blind (factorize_ s_ y_ nsamples).
Proof.
  unfold factorize.
  apply blind_get_self; [reflexivity | intros r].
  apply blind_bind; [apply blind_lift | intros noise].
  apply blind_bind; [apply blind_assign; reflexivity | intros _].
  apply blind_bind; [apply blind_lift | intros cc_].
  apply blind_bind; [apply blind_assign; reflexivity | intros _].
  apply blind_assign; reflexivity.
Qed.

(** C5, the part of it that the code contradicts.  [fit] neither reads nor
    writes the generator that [__init__] stores in [random_state]: its
    outcome is the same whatever that generator is, and every random draw
    comes from NumPy's global generator [np_random] instead. *)
Theorem fit_ignores_random_state (sa va : ndarray) (n : option nat)
    (h : option vec) (g : option RandomState) (w : World) :
  fit_ sa va n h (reseed_world g w) =
  (fst (fit_ sa va n h w), reseed_world g (snd (fit_ sa va n h w))).
Proof.
  revert g w. change (blind (fit_ sa va n h)). unfold fit.
  apply blind_bind; [apply blind_load_data | intros d].
  apply blind_get_self; [reflexivity | intros r].
  apply blind_bind; [| intros _; apply blind_factorize].
  destruct (optimize r); [apply blind_mle | apply blind_ret].
Qed.

(** The runs that a call of [fit] made: what it added to the log. *)
Definition runs_of_call (w w' : World) : list vec :=
  firstn (length (runs w') - length (runs w)) (runs w').

(** A run that raises (in the optimizer, or in the evaluation of
    [log_likelihood] that follows an array result) ends the call: [fit]
    cannot return. *)
Lemma fit_aborts_when_a_run_raises (sa va : ndarray) (n : option nat)
    (h : option vec) (w w' : World) (res : result unit) (m v : mat)
    (x0 : vec) (e : exn) :
  fit_ sa va n h w = (res, w') ->
  optimize (self w) = true ->
  checked sa va = inr (m, v) ->
  In x0 (runs_of_call w w') ->
  run_once (optimizer w') (jac (self w)) (ncols m + 2)
    (fst (training_pair m v (self w))) (snd (training_pair m v (self w))) x0
    = inl e ->
  exists e', res = inl e'.
Proof.
  intros H Eo EC Hin Hrun. destruct res as [e' | []]; [eauto | exfalso].
  destruct (@restarts_of_fit sa va n h w w' H Eo)
    as (m' & v' & drawn & row0 & rows & t & EC' & _ & _ & _ & _ & Hruns & HF & _).
  rewrite EC in EC'. injection EC' as <- <-.
  unfold runs_of_call in Hin. rewrite Hruns in Hin.
  rewrite length_app, Nat.add_sub in Hin.
  rewrite firstn_app, firstn_all, Nat.sub_diag in Hin. cbn [firstn] in Hin.
  rewrite app_nil_r in Hin. apply in_rev in Hin.
  clear - HF Hin Hrun. induction HF as [| y row sp rows Hy _ IH]; [contradiction |].
  destruct Hin as [-> | Hin]; [congruence | exact (IH Hin)].
Qed.
(** *** Running [mle] and [fit] forward *)

Lemma mle_returns (samples_ : mat) (input_dim : nat) (s_ y_ : mat) (w : World)
    (drawn : mat) (g : RandomState) (row0 : vec)
    (o' : Optimizer constraints_t constraints_args_t)
    (rows : list (vec * fval)) (ran : list vec) (f0 : fval) (fs : list fval) :
  let r := set_alpha_ None (self w) in
  let d := (input_dim + 2)%nat in
  uniform (np_random w) (lower r) (upper r) (optimizations_number r) d
    = (inr drawn, g) ->
  first_start drawn d r = inr row0 ->
  configured (optimizer w) r samples_ = inr o' ->
  run_all o' (jac r) d s_ y_ (row0 :: tl drawn) = (inr rows, ran) ->
  map snd rows = f0 :: fs ->
  is_pinf (py_min f0 fs) = false ->
  mle_ samples_ input_dim s_ y_ w =
  (inr tt,
   Build_world
     (set_hyperparameters (map pow10 (nth (argmin f0 fs) (map fst rows) [])) r)
     o' g (rev ran ++ runs w)).
Proof.
  intros r d EU EF EC ER Ef Ep. rewrite mle_eq. cbv zeta.
  fold r. fold d. rewrite EU, EF, EC, ER. cbn [fst snd]. rewrite Ef, Ep.
  reflexivity.
Qed.


Lemma mle_run_raises (samples_ : mat) (input_dim : nat) (s_ y_ : mat) (w : World)
    (drawn : mat) (g : RandomState) (row0 : vec)
    (o' : Optimizer constraints_t constraints_args_t)
    (e : exn) (ran : list vec) :
  let r := set_alpha_ None (self w) in
  let d := (input_dim + 2)%nat in
  uniform (np_random w) (lower r) (upper r) (optimizations_number r) d
    = (inr drawn, g) ->
  first_start drawn d r = inr row0 ->
  configured (optimizer w) r samples_ = inr o' ->
  run_all o' (jac r) d s_ y_ (row0 :: tl drawn) = (inl e, ran) ->
  mle_ samples_ input_dim s_ y_ w =
  (inl e, Build_world r o' g (rev ran ++ runs w)).
Proof.
  intros r d EU EF EC ER. rewrite mle_eq. cbv zeta.
  fold r. fold d. rewrite EU, EF, EC, ER. reflexivity.
Qed.

Lemma fit_through_mle (sa va : ndarray) (n : option nat) (h : option vec)
    (w w2 : World) (m v : mat) (out : result unit) :
  checked sa va = inr (m, v) ->
  optimize (self w) = true ->
  let r1 := standardized m v (stored sa n h (self w)) in
  let s_ := fst (training_pair m v (self w)) in
  let y_ := snd (training_pair m v (self w)) in
  mle_ m (ncols m) s_ y_ (with_self w r1) = (out, w2) ->
  fit_ sa va n h w =
  match out with
  | inl e => (inl e, w2)
  | inr _ => factorize_ s_ y_ (nrows m) w2
  end.
Proof.
  intros EC Eo r1 s_ y_ EM. rewrite fit_eq, load_data_eq, EC.
  cbn [fst snd self with_self]. rewrite loaded_optimize, Eo.
  fold r1. fold s_. fold y_. rewrite EM. reflexivity.
Qed.

Lemma factorize_returns (s_ y_ : mat) (nsamples : nat) (w : World)
    (noise : R) (l : mat) :
  last_entry (hyperparameters (self w)) = inr noise ->
  cholesky (with_jitter (covariance kernel_c s_
              (but_last (hyperparameters (self w))) noise) nsamples) = inr l ->
  factorize_ s_ y_ nsamples w =
  (inr tt, with_self w (factorized s_ y_ noise l (self w))).
Proof.
  intros El Ec. apply factorize_cases. right. exists noise.
  split; [exact El |]. right. exists l. repeat split. exact Ec.
Qed.

End Fit.


(** *** Matrices as lists of rows *)

Open Scope R_scope.

(** A matrix of [r] rows and [c] columns. *)
Definition shaped (r c : nat) (a : mat) : Prop :=
  length a = r /\ Forall (fun row => length row = c) a.

Lemma shaped_ncols (r c : nat) (a : mat) :
  shaped (S r) c a -> ncols a = c.
Proof.
  intros [Hl Hr]. destruct a as [| row a]; [discriminate |].
  inversion Hr. assumption.
Qed.

Lemma dot_cons (x y : R) (u v : vec) : dot (x :: u) (y :: v) = x * y + dot u v.
Proof. reflexivity. Qed.

Lemma dot_nil_l (v : vec) : dot [] v = 0.
Proof. reflexivity. Qed.

Lemma dot_nil_r (u : vec) : dot u [] = 0.
Proof. destruct u; reflexivity. Qed.

Lemma dot_map_zero (A : Type) (l : list A) (v : vec) :
  dot (map (fun _ => 0) l) v = 0.
Proof.
  revert v. induction l as [| a l IH]; intros [| y v]; simpl; try reflexivity.
  rewrite dot_cons, IH. ring.
Qed.

Lemma dot_map_add (A : Type) (f g : A -> R) (l : list A) (v : vec) :
  dot (map (fun j => f j + g j) l) v = dot (map f l) v + dot (map g l) v.
Proof.
  revert v. induction l as [| a l IH]; intros [| y v]; simpl;
    rewrite ?dot_nil_l, ?dot_nil_r; try ring.
  rewrite !dot_cons, IH. ring.
Qed.

Lemma dot_map_scale (A : Type) (c : R) (f : A -> R) (l : list A) (v : vec) :
  dot (map (fun j => c * f j) l) v = c * dot (map f l) v.
Proof.
  revert v. induction l as [| a l IH]; intros [| y v]; simpl;
    rewrite ?dot_nil_l, ?dot_nil_r; try ring.
  rewrite !dot_cons, IH. ring.
Qed.

Lemma map_nth_seq_from (A : Type) (d : A) (l pre : list A) :
  map (fun j => nth j (pre ++ l) d) (seq (length pre) (length l)) = l.
Proof.
  revert pre. induction l as [| x l IH]; intros pre; simpl; [reflexivity |].
  f_equal.
  - rewrite app_nth2 by lia. rewrite Nat.sub_diag. reflexivity.
  - specialize (IH (pre ++ [x])). rewrite length_app in IH. simpl in IH.
    rewrite Nat.add_1_r in IH. rewrite <- app_assoc in IH. exact IH.
Qed.

Lemma map_nth_seq (A : Type) (d : A) (l : list A) :
  map (fun j => nth j l d) (seq 0 (length l)) = l.
Proof. exact (map_nth_seq_from d l []). Qed.

(** [(r . B) . v = r . (B v)]. *)
Lemma vec_mat_vec (c : nat) (b : mat) (r v : vec) :
  length r = length b ->
  Forall (fun row => length row = c) b ->
  dot (map (fun j => dot r (column j b)) (seq 0 c)) v =
  dot r (map (fun row => dot row v) b).
Proof.
  revert r. induction b as [| b0 b IH]; intros [| r0 r] Hl Hb; simpl in Hl;
    try discriminate.
  - simpl. apply dot_map_zero.
  - inversion Hb as [| ? ? Hb0 Hb']; subst.
    cbn [map column]. 
    change (fun j => dot (r0 :: r) (nth j b0 0 :: map (fun row => nth j row 0) b))
      with (fun j => r0 * nth j b0 0 + dot r (column j b)).
    rewrite dot_map_add, dot_map_scale, dot_cons, map_nth_seq.
    rewrite IH by (try lia; assumption). reflexivity.
Qed.

Lemma column_matmul (a b : mat) (j : nat) :
  (j < ncols b)%nat ->
  column j (matmul a b) = map (fun row => dot row (column j b)) a.
Proof.
  intros Hj. unfold column at 1, matmul. rewrite map_map.
  apply map_ext. intros row.
  rewrite (nth_indep _ 0 (dot row (column 0 b))) by (rewrite length_map, length_seq; exact Hj).
  rewrite (map_nth (fun j => dot row (column j b))).
  rewrite seq_nth by exact Hj. reflexivity.
Qed.

Lemma matmul_shaped (r c d : nat) (a b : mat) :
  shaped r (S c) a -> shaped (S c) d b -> shaped r d (matmul a b).
Proof.
  intros [Ha _] Hb. pose proof (shaped_ncols Hb) as Hn. split.
  - unfold matmul. rewrite length_map. exact Ha.
  - unfold matmul. apply Forall_map. apply Forall_forall. intros row _.
    rewrite length_map, length_seq. exact Hn.
Qed.

Lemma matmul_assoc (r c d e : nat) (a b m : mat) :
  shaped r (S c) a -> shaped (S c) (S d) b -> shaped (S d) e m ->
  matmul (matmul a b) m = matmul a (matmul b m).
Proof.
  intros Ha Hb Hm.
  pose proof (shaped_ncols Hb) as Hnb. pose proof (shaped_ncols Hm) as Hnm.
  pose proof (matmul_shaped Hb Hm) as Hbm.
  pose proof (shaped_ncols Hbm) as Hnbm.
  unfold matmul at 1 2. rewrite map_map. unfold matmul at 1.
  rewrite Hnbm, Hnm, Hnb. apply map_ext_in. intros row Hrow.
  apply map_ext_in. intros j Hj. apply in_seq in Hj.
  rewrite column_matmul by (rewrite Hnm; lia).
  destruct Ha as [_ Ha]. destruct Hb as [Hbl Hb].
  rewrite Forall_forall in Ha.
  apply vec_mat_vec; [rewrite (Ha row Hrow); lia | exact Hb].
Qed.

Lemma dot_basis (n a i : nat) (v : vec) :
  length v = n ->
  dot (map (fun j => if Nat.eqb i j then 1 else 0) (seq a n)) v
  = if (Nat.leb a i && Nat.ltb i (a + n))%bool then nth (i - a) v 0 else 0.
Proof.
  revert a v. induction n as [| n IH]; intros a [| y v] Hl; simpl in Hl;
    try discriminate.
  - simpl. destruct (Nat.leb a i && Nat.ltb i (a + 0))%bool eqn:E; [| reflexivity].
    apply andb_prop in E. destruct E as [E1 E2].
    apply Nat.leb_le in E1. apply Nat.ltb_lt in E2. lia.
  - cbn [seq map]. rewrite dot_cons. rewrite IH by lia.
    destruct (Nat.eqb_spec i a) as [-> | Hne].
    + replace (Nat.leb (S a) a) with false by (symmetry; apply Nat.leb_gt; lia).
      replace (Nat.leb a a) with true by (symmetry; apply Nat.leb_le; lia).
      replace (Nat.ltb a (a + S n)) with true by (symmetry; apply Nat.ltb_lt; lia).
      rewrite Nat.sub_diag. simpl. ring.
    + destruct (Nat.leb_spec (S a) i) as [H1 | H1];
        destruct (Nat.ltb_spec i (S a + n)) as [H2 | H2];
        destruct (Nat.leb_spec a i) as [H3 | H3];
        destruct (Nat.ltb_spec i (a + S n)) as [H4 | H4];
        cbn [andb]; try lia; try ring.
      replace (i - a)%nat with (S (i - S a)) by lia. simpl. ring.
Qed.

Lemma matmul_eye_l (n k : nat) (x : mat) :
  shaped (S n) k x -> matmul (eye (S n)) x = x.
Proof.
  intros Hx. pose proof (shaped_ncols Hx) as Hn. destruct Hx as [Hl Hr].
  unfold matmul, eye. rewrite map_map, Hn.
  transitivity (map (fun i => nth i x []) (seq 0 (S n)));
    [| rewrite <- Hl; apply map_nth_seq].
  apply map_ext_in. intros i Hi. apply in_seq in Hi.
  assert (Hrow : length (nth i x []) = k).
  { rewrite Forall_forall in Hr. apply Hr. apply nth_In. lia. }
  transitivity (map (fun j => nth j (nth i x []) 0) (seq 0 k));
    [| rewrite <- Hrow; apply map_nth_seq].
  apply map_ext. intros j.
  rewrite dot_basis by (unfold column; rewrite length_map; exact Hl).
  replace (Nat.leb 0 i && Nat.ltb i (0 + S n))%bool with true
    by (symmetry; apply andb_true_intro; split;
        [apply Nat.leb_le | apply Nat.ltb_lt]; lia).
  rewrite Nat.sub_0_r. unfold column.
  rewrite (nth_indep _ 0 (nth j [] 0)) by (rewrite length_map; lia).
  rewrite (map_nth (fun row => nth j row 0)). reflexivity.
Qed.

Close Scope R_scope.

(** *** log_likelihood *)

Open Scope R_scope.

(** The value the specification states: [0.5 * (y^T Kinv y + 2 * sum(log(diag L))
    + n * log(2 pi))], for an inverse [kinv] and a factor [l]; a quadratic
    form of several output columns is read at its entry [[0, 0]]. *)
Definition stated_value (kinv l y : mat) (n : nat) : result R :=
  (q <- entry00 (matmul (transpose y) (matmul kinv y)) ;;
   ok (/ 2 * (q + 2 * sum (map ln (diagonal l)) + INR n * ln (2 * PI))))%result.

Section Likelihood.
Variable kernel_c : mat -> mat -> vec -> mat.
Variable cholesky : mat -> result mat.
Variable cho_solve : mat -> mat -> mat.

(** The matrix that [log_likelihood] factorizes. *)
Definition jittered (p0 : vec) (s : mat) (plast : R) : mat :=
  with_jitter (covariance kernel_c s (map pow10 (but_last p0)) (pow10 plast))
    (nrows s).

(** When the factorization raises, so does [log_likelihood]: it has no value,
    finite or not. *)
Lemma log_likelihood_raises (p0 : vec) (s y : mat) (plast : R) (e : exn) :
  last_entry p0 = inr plast ->
  cholesky (jittered p0 s plast) = inl e ->
  log_likelihood kernel_c cholesky cho_solve p0 s y = inl e.
Proof.
  intros Hl Hc. unfold log_likelihood. rewrite Hl. cbn [rbind].
  unfold jittered in Hc. rewrite Hc. reflexivity.
Qed.

Lemma ln_abs_diagonal (l : vec) :
  Forall (fun d => 0 < d) l -> map (fun d => ln (Rabs d)) l = map ln l.
Proof.
  intros H. apply map_ext_in. intros d Hd. rewrite Forall_forall in H.
  rewrite Rabs_right; [reflexivity |]. apply Rle_ge, Rlt_le, H, Hd.
Qed.

(** C1 (as amended).  [log_likelihood] returns the stated value where the
    inverse is the inverse of the matrix that is factorized, [K] with the
    jitter [1e-10] on its diagonal: the quadratic form is solved with the
    same factor [L].  The hypotheses are the contracts of the two SciPy
    routines at this input: [cholesky] returns a factor with a positive
    diagonal, and [cho_solve] returns a solution of [A x = y]. *)
Theorem log_likelihood_formula (p0 : vec) (s y : mat) (plast : R)
    (l kinv : mat) (n k : nat) :
  let A := jittered p0 s plast in
  last_entry p0 = inr plast ->
  nrows s = S n ->
  shaped (S n) (S n) A -> shaped (S n) (S k) y ->
  cholesky A = inr l ->
  Forall (fun d => 0 < d) (diagonal l) ->
  shaped (S n) (S k) (cho_solve l y) ->
  matmul A (cho_solve l y) = y ->
  shaped (S n) (S n) kinv ->
  matmul kinv A = eye (S n) ->
  returns (stated_value kinv l y (S n)) /\
  log_likelihood kernel_c cholesky cho_solve p0 s y
  = stated_value kinv l y (S n).
Proof.
  intros A Hl Hm HA Hy Hc Hd Hx Hsolve Hk Hinv.
  assert (E : matmul kinv y = cho_solve l y).
  { rewrite <- Hsolve at 1.
    rewrite <- (matmul_assoc Hk HA Hx), Hinv. apply (matmul_eye_l Hx). }
  assert (Hq : exists q, entry00 (matmul (transpose y) (cho_solve l y)) = inr q).
  { unfold matmul, transpose, transpose_n.
    rewrite (shaped_ncols Hy), (shaped_ncols Hx). cbn [seq map entry00].
    eexists. reflexivity. }
  destruct Hq as (q & Hq).
  unfold stated_value. rewrite E, Hq. cbn [rbind]. split.
  - eexists. reflexivity.
  - unfold log_likelihood. rewrite Hl. cbn [rbind].
    fold (jittered p0 s plast). fold A. rewrite Hc. cbn [rbind].
    rewrite Hq. cbn [rbind]. rewrite (ln_abs_diagonal Hd), Hm. reflexivity.
Qed.

End Likelihood.

Close Scope R_scope.
End GPRFacts.

(** ** The regressor on explicit data *)

Module GPRExamples.

Import Numpy GPR GPRInstances GPRFacts.

Open Scope R_scope.

(** The methods with the concrete collaborators. *)
Definition fit_with (kernel : mat -> mat -> vec -> mat)
    (opt : optimizer_t -> (vec -> result R) -> vec -> bool -> result optimize_result) :=
  fit kernel GPRInstances.cholesky GPRInstances.cho_solve
    GPRInstances.constraints_of GPRInstances.args_of opt.
Definition predict_with (kernel : mat -> mat -> vec -> mat) :=
  predict kernel GPRInstances.cholesky GPRInstances.cho_solve
    (ConstraintsGPR := no_constraints).
Definition log_likelihood_with (kernel : mat -> mat -> vec -> mat) :=
  log_likelihood kernel GPRInstances.cholesky GPRInstances.cho_solve.

Lemma chol_1x1 (a : R) :
  0 < a -> GPRInstances.cholesky [[a]] = inr [[sqrt (a - 0)]].
Proof.
  intros H. unfold GPRInstances.cholesky. cbn [length chol_rows chol_row nth].
  unfold dot. cbn [zip_with sum fold_right].
  destruct (Rlt_dec 0 (a - 0)) as [_ | Hn]; [reflexivity | exfalso; lra].
Qed.

Lemma chol_1x1_fails (a : R) :
  a <= 0 -> GPRInstances.cholesky [[a]] = inl LinAlgError.
Proof.
  intros H. unfold GPRInstances.cholesky. cbn [length chol_rows chol_row nth].
  unfold dot. cbn [zip_with sum fold_right].
  destruct (Rlt_dec 0 (a - 0)) as [Hn | _]; [exfalso; lra | reflexivity].
Qed.

Lemma ln_10_pos : 0 < ln 10.
Proof. rewrite <- ln_1. apply ln_increasing; lra. Qed.

Lemma pow10_log10 (x : R) : 0 < x -> pow10 (log10 x) = x.
Proof.
  intros H. unfold pow10, log10, Rpower.
  replace (ln x / ln 10 * ln 10) with (ln x)
    by (field; apply Rgt_not_eq, ln_10_pos).
  apply exp_ln. exact H.
Qed.

Lemma pow10_pos (x : R) : 0 < pow10 x.
Proof. unfold pow10, Rpower. apply exp_pos. Qed.

Lemma pow10_inj (x y : R) : pow10 x = pow10 y -> x = y.
Proof.
  unfold pow10, Rpower. intros H. apply exp_inv in H.
  apply Rmult_eq_reg_r in H; [exact H | apply Rgt_not_eq, ln_10_pos].
Qed.

Lemma log10_1 : log10 1 = 0.
Proof. unfold log10. rewrite ln_1. field. apply Rgt_not_eq, ln_10_pos. Qed.

Lemma log10_10 : log10 10 = 1.
Proof. unfold log10. field. apply Rgt_not_eq, ln_10_pos. Qed.

Lemma jitter_pos : 0 < jitter.
Proof. unfold jitter. lra. Qed.

(** [log_likelihood] on one training point [x] with output [b]: the matrix
    to factorize has the single entry [pivot off x p3]. *)
Definition pivot (off x p3 : R) : R :=
  off + (x * x + 0) + pow10 p3 * pow10 p3 * 1 + jitter * 1.

Definition ll_value (a b : R) : R :=
  / 2 * (b * (((b - 0) / sqrt (a - 0) - 0) / sqrt (a - 0)) + 0
         + 2 * (ln (Rabs (sqrt (a - 0))) + 0) + INR 1 * ln (2 * PI)).

Lemma ll_1x1 (off x b p1 p2 p3 : R) :
  0 < pivot off x p3 ->
  log_likelihood_with (linear_kernel off) [p1; p2; p3] [[x]] [[b]]
  = inr (ll_value (pivot off x p3) b).
Proof.
  intros H. unfold log_likelihood_with, log_likelihood.
  cbn [last_entry last rbind ok but_last removelast map nrows length
       covariance with_jitter linear_kernel madd mscale eye zip_with seq
       Nat.eqb dot sum fold_right].
  fold (pivot off x p3). rewrite (chol_1x1 H). cbn [rbind].
  cbn [GPRInstances.cho_solve transpose transpose_n ncols nrows hd length seq map
       column nth forward backward rev app dot zip_with sum fold_right matmul
       entry00 diagonal Nat.min rbind ok].
  reflexivity.
Qed.

Lemma ll_1x1_fails (off x b p1 p2 p3 : R) :
  pivot off x p3 <= 0 ->
  log_likelihood_with (linear_kernel off) [p1; p2; p3] [[x]] [[b]]
  = inl LinAlgError.
Proof.
  intros H. unfold log_likelihood_with, log_likelihood.
  cbn [last_entry last rbind ok but_last removelast map nrows length
       covariance with_jitter linear_kernel madd mscale eye zip_with seq
       Nat.eqb dot sum fold_right].
  fold (pivot off x p3). rewrite (chol_1x1_fails H). reflexivity.
Qed.

Lemma ll_value_increasing (a a' : R) :
  0 < a -> a < a' -> ll_value a 0 < ll_value a' 0.
Proof.
  intros H0 H1. unfold ll_value.
  assert (Hs : 0 < sqrt (a - 0)) by (apply sqrt_lt_R0; lra).
  assert (Hs' : sqrt (a - 0) < sqrt (a' - 0)) by (apply sqrt_lt_1; lra).
  rewrite (Rabs_right (sqrt (a - 0))) by lra.
  rewrite (Rabs_right (sqrt (a' - 0))) by lra.
  pose proof (ln_increasing _ _ Hs Hs') as Hln. lra.
Qed.

(** *** A fit without optimization, and a prediction *)

Lemma plain_fit_and_predict :
  exists w' y,
    fit_with (linear_kernel 0) array_optimizer samples_2d values_1 None None
      plain_world = (inr tt, w') /\
    values (self w') = Some [[1]] /\
    (exists a l, alpha_ (self w') = Some a /\ cc (self w') = Some l) /\
    predict_with (linear_kernel 0) (self w') query_2d false None
    = inr (Mean (Arr2 y)).
Proof.
  unfold fit_with. eexists. eexists. split.
  - rewrite fit_eq, load_data_eq.
    change (checked samples_2d values_1) with (@inr exn _ ([[0; 0]], [[1]])).
    cbn [fst snd self with_self]. rewrite loaded_optimize.
    cbn [optimize plain_world world_of self plain_regressor constructed].
    apply factorize_cases. right. exists 1. split; [reflexivity |].
    right. eexists. split; [| split; reflexivity].
    cbn [with_jitter covariance training_pair standardized stored fst snd
         linear_kernel madd mscale eye nrows zip_with map seq length Nat.eqb
         dot sum fold_right but_last removelast hyperparameters normalize
         plain_regressor constructed set_samples set_values plain_world
         world_of self with_self samples_2d].
    apply chol_1x1. unfold jitter. lra.
  - split; [reflexivity |]. split; [do 2 eexists; split; reflexivity |]. reflexivity.
Qed.



Lemma predict_cached_witness :
  exists r a l,
    alpha_ r = Some a /\ cc r = Some l /\
    forall cholesky' : mat -> result mat,
      predict (linear_kernel 0) cholesky' GPRInstances.cho_solve r query_2d true
        (Some [2; 2; 2; 2])
      = predict_with (linear_kernel 0) r query_2d true (Some [2; 2; 2; 2]).
Proof.
  destruct plain_fit_and_predict as (w' & y & _ & _ & (a & l & Ha & Hc) & _).
  exists (self w'), a, l. split; [exact Ha |]. split; [exact Hc |].
  exact (proj1 (proj2 (predict_with_cached_factor (linear_kernel 0)
                         GPRInstances.cholesky GPRInstances.cho_solve
                         (self w') query_2d true [2; 2; 2; 2] Ha Hc))).
Defined.

(** *** The likelihood of one observation *)

Lemma pow10_0 : pow10 0 = 1.
Proof. unfold pow10. apply Rpower_O. lra. Qed.

Lemma pivot_unit : pivot 0 0 0 = 1 + jitter.
Proof. unfold pivot. rewrite pow10_0. ring. Qed.

(** The matrix [K] of the claim at [p0 = [0, 0, 0]], [s = [[0]]]: the kernel
    matrix plus the squared noise, without the jitter. *)
Definition K_unit : mat :=
  covariance (linear_kernel 0) [[0]] (map pow10 (but_last [0; 0; 0])) (pow10 0).

Lemma jittered_unit :
  jittered (linear_kernel 0) [0; 0; 0] [[0]] 0 = [[pivot 0 0 0]].
Proof. reflexivity. Qed.

Lemma sqrt_pivot_pos : 0 < sqrt (pivot 0 0 0 - 0).
Proof. apply sqrt_lt_R0. rewrite pivot_unit. pose proof jitter_pos. lra. Qed.

Lemma sqrt_pivot_sqr :
  sqrt (pivot 0 0 0 - 0) * sqrt (pivot 0 0 0 - 0) = 1 + jitter.
Proof.
  rewrite sqrt_sqrt; [rewrite pivot_unit; ring |].
  rewrite pivot_unit. pose proof jitter_pos. lra.
Qed.

Lemma log_likelihood_formula_witness :
  returns (stated_value [[/ pivot 0 0 0]] [[sqrt (pivot 0 0 0 - 0)]] [[1]] 1) /\
  log_likelihood_with (linear_kernel 0) [0; 0; 0] [[0]] [[1]]
  = stated_value [[/ pivot 0 0 0]] [[sqrt (pivot 0 0 0 - 0)]] [[1]] 1.
Proof.
  pose proof jitter_pos as Hj. pose proof sqrt_pivot_pos as Hs.
  pose proof sqrt_pivot_sqr as Hq.
  assert (Hp : 0 < pivot 0 0 0) by (rewrite pivot_unit; lra).
  apply (log_likelihood_formula (linear_kernel 0) GPRInstances.cholesky
           GPRInstances.cho_solve [0; 0; 0] [[0]] (y := [[1]]) (plast := 0)
           (l := [[sqrt (pivot 0 0 0 - 0)]]) (kinv := [[/ pivot 0 0 0]])
           (n := 0%nat) (k := 0%nat)).
  - reflexivity.
  - reflexivity.
  - rewrite jittered_unit. split; [reflexivity | repeat constructor].
  - split; [reflexivity | repeat constructor].
  - rewrite jittered_unit. apply chol_1x1. exact Hp.
  - repeat constructor. exact Hs.
  - split; [reflexivity | repeat constructor].
  - rewrite jittered_unit.
    cbn [GPRInstances.cho_solve transpose transpose_n ncols nrows hd length seq
         map column nth forward backward rev app dot zip_with sum fold_right
         matmul].
    do 2 f_equal.
    set (r := sqrt (pivot 0 0 0 - 0)) in *. rewrite pivot_unit.
    replace (1 + jitter) with (r * r) by exact Hq. field. lra.
  - split; [reflexivity | repeat constructor].
  - rewrite jittered_unit.
    cbn [matmul map seq ncols hd length column nth dot zip_with sum fold_right
         eye Nat.eqb].
    do 2 f_equal. field. lra.
Defined.

(** C1, as the specification words it, fails: with [K] taken without the
    jitter, the stated value differs from what [log_likelihood] returns; the
    quadratic form is [1 / (1 + 1e-10)] in the code and [1] in the claim. *)
Lemma quadratic_form_uses_jittered_matrix :
  GPRInstances.cholesky (with_jitter K_unit 1) = inr [[sqrt (pivot 0 0 0 - 0)]] /\
  matmul [[1]] K_unit = eye 1 /\ matmul K_unit [[1]] = eye 1 /\
  log_likelihood_with (linear_kernel 0) [0; 0; 0] [[0]] [[1]]
  <> stated_value [[1]] [[sqrt (pivot 0 0 0 - 0)]] [[1]] 1.
Proof.
  pose proof jitter_pos as Hj. pose proof sqrt_pivot_pos as Hs.
  pose proof sqrt_pivot_sqr as Hq.
  assert (Hp : 0 < pivot 0 0 0) by (rewrite pivot_unit; lra).
  split; [| split; [| split]].
  - change (with_jitter K_unit 1) with [[pivot 0 0 0]]. apply chol_1x1. exact Hp.
  - unfold K_unit.
    cbn [matmul map seq ncols hd length column nth dot zip_with sum fold_right
         eye Nat.eqb covariance linear_kernel madd mscale nrows but_last
         removelast].
    rewrite pow10_0. do 2 f_equal. ring.
  - unfold K_unit.
    cbn [matmul map seq ncols hd length column nth dot zip_with sum fold_right
         eye Nat.eqb covariance linear_kernel madd mscale nrows but_last
         removelast].
    rewrite pow10_0. do 2 f_equal. ring.
  - rewrite (@ll_1x1 0 0 1 0 0 0 Hp). unfold stated_value, ll_value.
    cbn [matmul transpose transpose_n map seq ncols hd length column nth dot
         zip_with sum fold_right entry00 rbind ok diagonal nrows Nat.min].
    set (r := sqrt (pivot 0 0 0 - 0)) in *.
    rewrite (Rabs_right r) by lra.
    intros E. injection E as E.
    assert (Ht : ((1 - 0) / r - 0) / r = / (1 + jitter)).
    { rewrite <- Hq. field. lra. }
    rewrite Ht in E.
    assert (Hlt : / (1 + jitter) < 1).
    { rewrite <- Rinv_1 at 2. apply Rinv_lt_contravar; lra. }
    lra.
Qed.

(** *** Two restarts *)

(** One run of the optimizer that returns its initial guess. *)
Lemma run_once_array (off x b p1 p2 p3 : R) (o : Optimizer unit unit) (j : bool) :
  0 < pivot off x p3 ->
  run_once (linear_kernel off) GPRInstances.cholesky GPRInstances.cho_solve
    array_optimizer o j 3 [[x]] [[b]] [p1; p2; p3]
  = inr ([p1; p2; p3], Fin (ll_value (pivot off x p3) b)).
Proof.
  intros H. unfold run_once, array_optimizer.
  cbn [rbind ok broadcast_to length Nat.eqb].
  fold (log_likelihood_with (linear_kernel off)). rewrite (ll_1x1 b p1 p2 H).
  reflexivity.
Qed.

Lemma run_once_array_fails (off x b p1 p2 p3 : R) (o : Optimizer unit unit) (j : bool) :
  pivot off x p3 <= 0 ->
  run_once (linear_kernel off) GPRInstances.cholesky GPRInstances.cho_solve
    array_optimizer o j 3 [[x]] [[b]] [p1; p2; p3]
  = inl LinAlgError.
Proof.
  intros H. unfold run_once, array_optimizer.
  cbn [rbind ok broadcast_to length Nat.eqb].
  fold (log_likelihood_with (linear_kernel off)). rewrite (ll_1x1_fails b p1 p2 H).
  reflexivity.
Qed.

(** The second starting point of [seeded_regressor] when the global generator
    is [g]. *)
Definition second_start (g : RandomState) : vec :=
  [log10 1 + (log10 10 - log10 1) * tape g 3;
   log10 1 + (log10 10 - log10 1) * tape g 4;
   log10 (/ 10) + (log10 1 - log10 (/ 10)) * tape g 5].

Lemma flt_Fin_lt (a b : R) : a < b -> flt (Fin a) (Fin b) = true.
Proof.
  intros H. simpl. destruct (Rlt_dec a b) as [_ | Hn]; [reflexivity | contradiction].
Qed.

Lemma pivot_first : pivot 0 0 (log10 1) = 1 + jitter.
Proof. unfold pivot. rewrite pow10_log10 by lra. ring. Qed.

Lemma pivot_second (g : RandomState) :
  tape g 5 = 0 ->
  pivot 0 0 (log10 (/ 10) + (log10 1 - log10 (/ 10)) * tape g 5) = / 100 + jitter.
Proof.
  intros H5. rewrite H5, Rmult_0_r, Rplus_0_r. unfold pivot.
  rewrite pow10_log10 by lra. field.
Qed.

(** With the generator [g] (none of its variates taken, the sixth one zero),
    the second restart has the lower objective, and [fit] returns with the
    hyperparameters [10 ** second_start g]. *)
Lemma seeded_fit (g : RandomState) :
  taken g = 0%nat -> tape g 5 = 0 ->
  exists w',
    fit_with (linear_kernel 0) array_optimizer samples_1d values_0 None None
      (world_of seeded_regressor g) = (inr tt, w') /\
    hyperparameters (self w') = map pow10 (second_start g).
Proof.
  intros Ht H5. unfold fit_with.
  pose proof pivot_first as Hp0. pose proof (pivot_second g H5) as Hp1.
  pose proof jitter_pos as Hj.
  assert (Hflt : flt (Fin (ll_value (pivot 0 0 (log10 (/ 10)
                       + (log10 1 - log10 (/ 10)) * tape g 5)) 0))
                     (Fin (ll_value (pivot 0 0 (log10 1)) 0)) = true).
  { apply flt_Fin_lt. rewrite Hp0, Hp1. apply ll_value_increasing; lra. }
  eexists. split.
  - erewrite fit_through_mle with (m := [[0]]) (v := [[0]]);
      [| reflexivity | reflexivity |].
    2: { eapply mle_returns.
         - cbn [self with_self world_of np_random lower upper bounds
                optimizations_number set_alpha_ standardized stored normalize
                seeded_regressor constructed set_samples set_values bounds3
                map fst snd ncols hd length Nat.add].
           unfold uniform, random_sample. rewrite Ht. reflexivity.
         - reflexivity.
         - reflexivity.
         - cbn [run_all jac set_alpha_ self with_self standardized stored normalize
                seeded_regressor constructed set_samples set_values world_of
                training_pair fst snd ncols hd length Nat.add tl
                hyperparameters map].
           rewrite run_once_array; [| rewrite Hp0; lra].
           cbn [run_all tl map chunks firstn skipn zip_with seq Nat.mul Nat.add].
           rewrite run_once_array; [| rewrite Hp1; lra].
           reflexivity.
         - reflexivity.
         - cbn [snd map py_min fold_left]. rewrite Hflt. reflexivity. }
    cbv beta iota.
    cbn [snd fst map argmin argmin_from is_nan orb]. rewrite Hflt.
    cbn [nth training_pair normalize world_of self seeded_regressor constructed
         fst snd nrows length].
    eapply factorize_returns.
    + reflexivity.
    + cbn [self hyperparameters set_hyperparameters map last but_last removelast
           covariance with_jitter linear_kernel madd mscale eye zip_with seq
           Nat.eqb dot sum fold_right nrows length].
      fold (pivot 0 0 (log10 (/ 10) + (log10 1 - log10 (/ 10)) * tape g 5)).
      apply chol_1x1. rewrite Hp1. lra.
  - reflexivity.
Qed.

(** C5 at two calls that differ only in the state of NumPy's global
    generator: the instances are constructed alike, with the seed 42, the
    data and the restart count are the same, and the hyperparameters that
    [fit] selects differ. *)
Theorem same_seed_different_hyperparameters :
  init process_random_state [1; 1; 1] fresh_optimizer (Some bounds3) true None 2
    false (RsInt 42) = inr seeded_regressor /\
  self world_a = seeded_regressor /\ self world_b = seeded_regressor /\
  exists wa wb,
    fit_with (linear_kernel 0) array_optimizer samples_1d values_0 None None
      world_a = (inr tt, wa) /\
    fit_with (linear_kernel 0) array_optimizer samples_1d values_0 None None
      world_b = (inr tt, wb) /\
    hyperparameters (self wa) <> hyperparameters (self wb).
Proof.
  split; [reflexivity |]. split; [reflexivity |]. split; [reflexivity |].
  destruct (seeded_fit global_a eq_refl eq_refl) as (wa & Hfa & Hha).
  destruct (seeded_fit global_b eq_refl eq_refl) as (wb & Hfb & Hhb).
  exists wa, wb. split; [exact Hfa |]. split; [exact Hfb |].
  rewrite Hha, Hhb. unfold second_start. cbn [map tape global_a global_b Nat.eqb].
  intros E. injection E as E. apply pow10_inj in E.
  rewrite log10_1, log10_10 in E. lra.
Qed.


(** *** A fit whose every restart reports [inf] *)

Lemma run_once_reporting (f : fval) (o : Optimizer unit unit) (j : bool)
    (s y : mat) (p1 p2 p3 : R) :
  run_once (linear_kernel 0) GPRInstances.cholesky GPRInstances.cho_solve
    (reporting_optimizer f) o j 3 s y [p1; p2; p3]
  = inr ([p1; p2; p3], f).
Proof. reflexivity. Qed.




(** *** A restart whose factorization fails *)

Lemma pivot_wide_first : pivot (-1) 0 (log10 2) = 3 + jitter.
Proof. unfold pivot. rewrite pow10_log10 by lra. ring. Qed.

Lemma pivot_wide_second :
  pivot (-1) 0 (log10 (/ 10) + (log10 10 - log10 (/ 10)) * 0) = - (99 / 100) + jitter.
Proof.
  rewrite Rmult_0_r, Rplus_0_r. unfold pivot.
  rewrite pow10_log10 by lra. field.
Qed.

(** C3 at a call with two restarts, the optimizer returning arrays.  The
    first restart has a finite objective value; at the second the matrix is
    not positive definite, [cholesky] raises, and so do [log_likelihood] and
    [fit]: the error is [LinAlgError], both runs were started, and the
    restart with the finite objective is not selected (the hyperparameters
    are those of before the call). *)
Theorem failed_factorization_aborts_fit :
  exists v0 w',
    run_once (linear_kernel (-1)) GPRInstances.cholesky GPRInstances.cho_solve
      array_optimizer (optimizer w') false 3 [[0]] [[0]] (map log10 [1; 1; 2])
    = inr (map log10 [1; 1; 2], Fin v0) /\
    fit_with (linear_kernel (-1)) array_optimizer samples_1d values_0 None None
      wide_world = (inl LinAlgError, w') /\
    length (runs w') = 2%nat /\
    hyperparameters (self w') = [1; 1; 2] /\
    alpha_ (self w') = None.
Proof.
  pose proof pivot_wide_first as Hp0. pose proof pivot_wide_second as Hp1.
  pose proof jitter_pos as Hj.
  assert (Hj' : jitter < / 100) by (unfold jitter; lra).
  unfold fit_with. eexists. eexists. split; [| split].
  2: { erewrite fit_through_mle with (m := [[0]]) (v := [[0]]);
         [| reflexivity | reflexivity |].
       2: { eapply mle_run_raises.
            - cbn [self with_self world_of wide_world np_random lower upper bounds
                   optimizations_number set_alpha_ standardized stored normalize
                   wide_regressor constructed set_samples set_values
                   map fst snd ncols hd length Nat.add].
              reflexivity.
            - reflexivity.
            - reflexivity.
            - cbn [run_all jac set_alpha_ self with_self standardized stored
                   normalize wide_regressor wide_world constructed set_samples
                   set_values world_of training_pair fst snd ncols hd length
                   Nat.add tl hyperparameters map].
              rewrite run_once_array; [| rewrite Hp0; lra].
              cbn [run_all tl map chunks firstn skipn zip_with seq Nat.mul Nat.add
                   tape global_a taken].
              rewrite run_once_array_fails; [| rewrite Hp1; lra].
              reflexivity. }
       reflexivity. }
  - cbn [optimizer map]. rewrite run_once_array; [| rewrite Hp0; lra]. reflexivity.
  - repeat split.
Qed.

(** The test [min(fun_value) == np.inf] does not catch other non-finite
    values: when every restart reports [nan], [fit] returns, with the
    hyperparameters of the first restart. *)
Lemma all_nan_fit_returns :
  exists w',
    fit_with (linear_kernel 0) (reporting_optimizer NaN) samples_1d values_0
      None None world_a = (inr tt, w') /\
    hyperparameters (self w') = map pow10 (map log10 [1; 1; 1]).
Proof.
  pose proof pivot_first as Hp0. pose proof jitter_pos as Hj.
  unfold fit_with. eexists. split.
  - erewrite fit_through_mle with (m := [[0]]) (v := [[0]]);
      [| reflexivity | reflexivity |].
    2: { eapply mle_returns.
         - cbn [self with_self world_of world_a np_random lower upper bounds
                optimizations_number set_alpha_ standardized stored normalize
                seeded_regressor constructed set_samples set_values bounds3
                map fst snd ncols hd length Nat.add].
           reflexivity.
         - reflexivity.
         - reflexivity.
         - reflexivity.
         - reflexivity.
         - reflexivity. }
    cbv beta iota.
    cbn [snd fst map argmin argmin_from is_nan orb nth training_pair normalize
         world_of world_a self seeded_regressor constructed nrows length].
    eapply factorize_returns.
    + reflexivity.
    + cbn [self hyperparameters set_hyperparameters map last but_last removelast
           covariance with_jitter linear_kernel madd mscale eye zip_with seq
           Nat.eqb dot sum fold_right nrows length set_alpha_ with_self
           standardized stored normalize seeded_regressor constructed
           set_samples set_values world_a world_of].
      fold (pivot 0 0 (log10 1)).
      apply chol_1x1. rewrite Hp0. lra.
  - reflexivity.
Qed.
Close Scope R_scope.

End GPRExamples.

(** * Further properties of the code *)

(** ** SvdProjection.__init__: outcomes and attributes *)

Module SvdProjectionInit.

Import SvdProjection SvdProjectionFacts Instances.

Section Outcomes.
Variable num : Type.
Variable KernelComposition : Type.
Variable matrix_rank : list (list num) -> nat.
Variable svd : list (list num) -> Z -> list (list num) * list num * list (list num).
Variable np_diag : list num -> list (list num).

Notation "'init_'" := (init matrix_rank svd np_diag) (only parsing).

(** Both the larger and the smaller dimension differ somewhere from those of
    the first input: the condition of line 35. *)
Definition shapes_rejected (inputs : list (list (list num))) : Prop :=
  exists m0 rest, inputs = m0 :: rest /\
    Exists (fun m => Numpy.max_shape m <> Numpy.max_shape m0) inputs /\
    Exists (fun m => Numpy.min_shape m <> Numpy.min_shape m0) inputs.

Lemma check_shapes_cases (inputs : list (list (list num))) :
  (inputs = [] /\ check_shapes inputs = inl IndexError) \/
  (shapes_rejected inputs /\ check_shapes inputs = inl TypeError) \/
  (exists m0 rest, inputs = m0 :: rest /\ ~ shapes_rejected inputs /\
     check_shapes inputs = inr (Numpy.max_shape m0, Numpy.min_shape m0)).
Proof.
  destruct inputs as [| m0 rest]; [left; split; reflexivity | right].
  destruct (check_shapes (m0 :: rest)) as [e | n] eqn:E.
  - left. unfold check_shapes in E. cbn [map] in E.
    destruct (count_neq_len _ _ && count_neq_len _ _)%bool eqn:B in E;
      [| discriminate].
    injection E as <-.
    assert (E' : check_shapes (m0 :: rest) = inl TypeError).
    { unfold check_shapes. cbn [map]. rewrite B. reflexivity. }
    split; [| reflexivity]. apply check_shapes_TypeError in E'. exact E'.
  - right. exists m0, rest. split; [reflexivity |]. split.
    + intros H. apply check_shapes_TypeError in H. congruence.
    + unfold check_shapes in E. cbn [map] in E.
      destruct (count_neq_len _ _ && count_neq_len _ _)%bool in E;
        [discriminate |].
      injection E as <-. reflexivity.
Qed.

Lemma resolve_rank_cases (inputs : list (list (list num))) (p : Z) :
  inputs <> [] ->
  (resolve_rank matrix_rank inputs p = inl ValueError /\
   p <> 0%Z /\ p <> maxsize /\
   Exists (fun m => (Z.of_nat (Numpy.min_shape m) < p)%Z) inputs) \/
  (exists q, resolve_rank matrix_rank inputs p = inr q /\
     (p = 0%Z \/ p = maxsize \/
      Forall (fun m => (p <= Z.of_nat (Numpy.min_shape m))%Z) inputs)).
Proof.
  intros Hne. unfold resolve_rank, array2.
  destruct (Z.eqb_spec p 0) as [-> | H0].
  - right. destruct inputs as [| m0 rest]; [congruence |]. cbn [map].
    eexists. split; [reflexivity | left; reflexivity].
  - destruct (Z.eqb_spec p maxsize) as [-> | Hm].
    + right. destruct inputs as [| m0 rest]; [congruence |]. cbn [map].
      eexists. split; [reflexivity | right; left; reflexivity].
    + destruct (check_explicit_cases inputs p) as [[E H] | [E H]]; rewrite E.
      * left. repeat split; assumption.
      * right. exists p. split; [reflexivity | right; right; exact H].
Qed.

(** X1.  The outcomes of the constructor.  It raises [IndexError] exactly on
    an empty list of inputs, [TypeError] exactly when both the larger and the
    smaller dimensions vary over the inputs, [ValueError] exactly when the
    shape test passes and an explicit rank (neither sentinel) exceeds the
    smaller dimension of some input, and returns in every other case. *)
Theorem init_outcomes (inputs : list (list (list num))) (p : Z)
    (kc : KernelComposition) :
  (init_ inputs p kc = inl IndexError <-> inputs = []) /\
  (init_ inputs p kc = inl TypeError <-> shapes_rejected inputs) /\
  (init_ inputs p kc = inl ValueError <->
   inputs <> [] /\ ~ shapes_rejected inputs /\ p <> 0%Z /\ p <> maxsize /\
   Exists (fun m => (Z.of_nat (Numpy.min_shape m) < p)%Z) inputs) /\
  (returns (init_ inputs p kc) <->
   inputs <> [] /\ ~ shapes_rejected inputs /\
   (p = 0%Z \/ p = maxsize \/
    Forall (fun m => (p <= Z.of_nat (Numpy.min_shape m))%Z) inputs)).
Proof.
  assert (Hex : forall q,
            Exists (fun m : list (list num) => (Z.of_nat (Numpy.min_shape m) < q)%Z)
              inputs ->
            Forall (fun m : list (list num) => (q <= Z.of_nat (Numpy.min_shape m))%Z)
              inputs -> False).
  { intros q He Hf. apply Exists_exists in He. destruct He as (m & Hin & Hlt).
    rewrite Forall_forall in Hf. specialize (Hf m Hin). lia. }
  unfold init.
  destruct (check_shapes_cases inputs)
    as [[-> E] | [[Hr E] | (m0 & rest & -> & Hn & E)]]; rewrite E; cbn [rbind].
  - split; [| split; [| split]].
    + split; reflexivity.
    + split; [discriminate | intros (m0 & rest & E' & _); discriminate].
    + split; [discriminate | intros (H & _); congruence].
    + split; [intros (x & Hx); discriminate | intros (H & _); congruence].
  - split; [| split; [| split]].
    + split; [discriminate |].
      intros ->. destruct Hr as (m0 & rest & E' & _). discriminate.
    + split; [intros _; exact Hr | reflexivity].
    + split; [discriminate | intros (_ & Hn & _); contradiction].
    + split; [intros (x & Hx); discriminate | intros (_ & Hn & _); contradiction].
  - assert (Hne : m0 :: rest <> []) by discriminate.
    destruct (resolve_rank_cases p Hne) as [(Er & H0 & Hm & He) | (q & Er & Hq)];
      rewrite Er; cbn [rbind]; unfold ok.
    + split; [| split; [| split]].
      * split; discriminate.
      * split; [discriminate | intros H; contradiction].
      * split; [intros _; repeat split; assumption | reflexivity].
      * split; [intros (x & Hx); discriminate |].
        intros (_ & _ & [-> | [-> | Hf]]); [congruence | congruence |].
        exfalso. exact (Hex p He Hf).
    + split; [| split; [| split]].
      * split; discriminate.
      * split; [discriminate | intros H; contradiction].
      * split; [discriminate |].
        intros (_ & _ & H0 & Hm & He).
        destruct Hq as [-> | [-> | Hf]]; [congruence | congruence |].
        exfalso. exact (Hex p He Hf).
      * split; [intros _; repeat split; assumption | intros _; eexists; reflexivity].
Qed.

(** X2.  What a constructed object holds.  The input list is not empty and
    is stored unchanged; [points_number] is its length and [psi], [sigma],
    [phi] and [ranks] have one entry for each input; every entry of [ranks],
    and [max_rank], is the resolved rank, with which every input is
    factorized; [n_psi] and [n_phi] are the larger and the smaller dimension
    of the first input, and at least one of the two is shared by all
    inputs. *)
Theorem init_attributes (inputs : list (list (list num))) (p : Z)
    (kc : KernelComposition) (o : t num KernelComposition) :
  init_ inputs p kc = inr o ->
  inputs <> [] /\
  input_points o = inputs /\ data o = inputs /\
  points_number o = length inputs /\
  length (psi o) = length inputs /\ length (sigma o) = length inputs /\
  length (phi o) = length inputs /\
  ranks o = repeat (p_planes_dimensions o) (length inputs) /\
  max_rank o = p_planes_dimensions o /\
  psi o = map (fun m => fst (fst (svd m (p_planes_dimensions o)))) inputs /\
  phi o = map (fun m => snd (svd m (p_planes_dimensions o))) inputs /\
  n_psi o = Numpy.max_shape (hd [] inputs) /\
  n_phi o = Numpy.min_shape (hd [] inputs) /\
  (n_phi o <= n_psi o)%nat /\
  (Forall (fun m => Numpy.max_shape m = n_psi o) inputs \/
   Forall (fun m => Numpy.min_shape m = n_phi o) inputs).
Proof.
  unfold init.
  destruct (check_shapes_cases inputs)
    as [[-> E] | [[Hr E] | (m0 & rest & -> & Hn & E)]]; rewrite E; cbn [rbind];
    try discriminate.
  destruct (resolve_rank matrix_rank (m0 :: rest) p) as [e | q]; cbn [rbind];
    [discriminate |].
  unfold ok. intros H. injection H as <-.
  cbn [input_points data points_number psi sigma phi ranks max_rank n_psi n_phi
       p_planes_dimensions fst snd hd].
  cbn [length map repeat]. rewrite ?length_map, ?map_map.
  repeat split; try reflexivity; try discriminate.
  - unfold Numpy.max_shape, Numpy.min_shape. lia.
  - destruct (Forall_Exists_dec (fun m : list (list num) =>
                                   Numpy.max_shape m = Numpy.max_shape m0)
                (fun m => Nat.eq_dec (Numpy.max_shape m) (Numpy.max_shape m0))
                (m0 :: rest)) as [Hf | He]; [left; exact Hf | right].
    destruct (Forall_Exists_dec (fun m : list (list num) =>
                                   Numpy.min_shape m = Numpy.min_shape m0)
                (fun m => Nat.eq_dec (Numpy.min_shape m) (Numpy.min_shape m0))
                (m0 :: rest)) as [Hf' | He']; [exact Hf' | exfalso].
    apply Hn. exists m0, rest. split; [reflexivity |]. split; assumption.
Qed.

(** X3.  With the minimum sentinel and a rank routine that never reports
    more than the smaller dimension of a matrix, the resolved rank fits every
    input, and constructing again with that rank given explicitly yields the
    same object. *)
Theorem min_sentinel_rank_fits (inputs : list (list (list num)))
    (kc : KernelComposition) (o : t num KernelComposition) :
  Forall (fun m => (matrix_rank m <= Numpy.min_shape m)%nat) inputs ->
  init_ inputs 0 kc = inr o ->
  Forall (fun m => (p_planes_dimensions o <= Z.of_nat (Numpy.min_shape m))%Z)
    inputs /\
  (p_planes_dimensions o <> 0%Z -> p_planes_dimensions o <> maxsize ->
   init_ inputs (p_planes_dimensions o) kc = inr o).
Proof.
  intros Hrank. unfold init.
  destruct (check_shapes inputs) as [e | n] eqn:E; cbn [rbind]; [discriminate |].
  unfold resolve_rank at 1. cbn [Z.eqb]. unfold array2.
  destruct inputs as [| m0 rest]; [discriminate |]. cbn [map rbind].
  unfold ok. cbn [rbind]. intros H. injection H as <-.
  cbn [p_planes_dimensions].
  assert (Hfit : Forall (fun m : list (list num) =>
                   (Z.of_nat (min_list (matrix_rank m0) (map matrix_rank rest))
                    <= Z.of_nat (Numpy.min_shape m))%Z) (m0 :: rest)).
  { destruct (min_list_least (matrix_rank m0) (map matrix_rank rest)) as [_ Hl].
    change (matrix_rank m0 :: map matrix_rank rest)
      with (map matrix_rank (m0 :: rest)) in Hl.
    rewrite Forall_map in Hl.
    rewrite Forall_forall in *. intros m Hin.
    specialize (Hl m Hin). specialize (Hrank m Hin). cbv beta in Hl. lia. }
  split; [exact Hfit |].
  intros H0 Hm. unfold resolve_rank.
  apply Z.eqb_neq in H0. apply Z.eqb_neq in Hm. rewrite H0, Hm.
  rewrite (check_explicit_passes Hfit). reflexivity.
Qed.

End Outcomes.

Lemma init_attributes_witness :
  exists o, init exact_rank no_svd diag_Q ranks_234 0 tt = inr o /\
            points_number o = 3%nat /\ ranks o = [2; 2; 2]%Z /\
            n_psi o = 5%nat /\ n_phi o = 5%nat.
Proof.
  eexists. split; [vm_compute; reflexivity |].
  destruct (@init_attributes Q unit exact_rank no_svd diag_Q ranks_234 0%Z tt _
              eq_refl)
    as (_ & _ & _ & Hn & _ & _ & _ & Hr & _ & _ & _ & Hpsi & Hphi & _).
  repeat split.
Defined.

Lemma min_sentinel_rank_fits_witness :
  exists o, init exact_rank no_svd diag_Q ranks_234 0 tt = inr o /\
            init exact_rank no_svd diag_Q ranks_234 2 tt = inr o.
Proof.
  eexists. split; [vm_compute; reflexivity |].
  refine (proj2 (@min_sentinel_rank_fits Q unit exact_rank no_svd diag_Q
                   ranks_234 tt _ _ eq_refl) _ _).
  - repeat constructor; apply Nat.leb_le; vm_compute; reflexivity.
  - discriminate.
  - discriminate.
Defined.

End SvdProjectionInit.

(** ** ManifoldInterpolation: the checks before and around the dispatch *)

Module ManifoldInterpolationChecks.

Import ManifoldInterpolation.

Section Checks.
Variable num : Type.
Variable zero : num.
Variable GrassmannPoint : Type.
Variable coordinates_t : Type.
Variable query_t : Type.
Variable distance_t : Type.
Variable optimization_t : Type.
Variable surrogate_t : Type.
Variable karcher_mean : list GrassmannPoint -> optimization_t -> distance_t -> GrassmannPoint.
Variable log_map : list GrassmannPoint -> GrassmannPoint -> list (tangent num).
Variable exp_map : list (tangent num) -> GrassmannPoint -> list GrassmannPoint.
Variable LinearNDInterpolator : coordinates_t -> list (tangent num) -> query_t -> tangent num.

Notation "'interpolate_manifold_'" :=
  (interpolate_manifold zero exp_map LinearNDInterpolator) (only parsing).

Lemma check_same_shape_cases (shape_ref : nat * nat) (rest : list (tangent num)) :
  (check_same_shape shape_ref rest = inl TypeError /\
   Exists (fun tp => Numpy.shape tp <> shape_ref) rest) \/
  (check_same_shape shape_ref rest = inr tt /\
   Forall (fun tp => Numpy.shape tp = shape_ref) rest).
Proof.
  induction rest as [| tp rest IH]; cbn [check_same_shape].
  - right. split; [reflexivity | constructor].
  - destruct (Nat.eqb_spec (fst (Numpy.shape tp)) (fst shape_ref)) as [E1 | N1];
      [destruct (Nat.eqb_spec (snd (Numpy.shape tp)) (snd shape_ref)) as [E2 | N2] |];
      cbn [andb].
    + assert (E : Numpy.shape tp = shape_ref).
      { destruct (Numpy.shape tp), shape_ref. cbn [fst snd] in *. congruence. }
      destruct IH as [[Ec He] | [Ec Hf]].
      * left. split; [exact Ec | apply Exists_cons_tl; exact He].
      * right. split; [exact Ec | constructor; assumption].
    + left. split; [reflexivity |]. apply Exists_cons_hd. congruence.
    + left. split; [reflexivity |]. apply Exists_cons_hd. congruence.
Qed.

(** X4.  [interpolate_manifold] on an object that holds an injected method
    (an instance, a function of the caller's or [None]) and coordinates.  It
    raises [IndexError] exactly when there is no tangent matrix, [TypeError]
    exactly when some tangent matrix has not the shape of the first, and
    otherwise returns the exponential map, at the stored mean, of the one
    matrix that the piecewise-linear interpolant gives at the point. *)
Theorem interpolate_manifold_outcomes
    (o : t num GrassmannPoint coordinates_t query_t surrogate_t)
    (c : coordinates_t) (point : query_t) :
  is_Surrogate (interpolation_method o) = false ->
  is_callable (interpolation_method o) = false ->
  coordinates o = Some c ->
  (interpolate_manifold_ o point = inl IndexError <-> tangent_points o = []) /\
  (interpolate_manifold_ o point = inl TypeError <->
   exists t0 rest, tangent_points o = t0 :: rest /\
     Exists (fun tp => Numpy.shape tp <> Numpy.shape t0) rest) /\
  (interpolate_manifold_ o point
   = inr (exp_map [LinearNDInterpolator c (tangent_points o) point] (mean o)) <->
   exists t0 rest, tangent_points o = t0 :: rest /\
     Forall (fun tp => Numpy.shape tp = Numpy.shape t0) rest).
Proof.
  intros Hs Hc Hco. unfold interpolate_manifold, interp_point.
  destruct (tangent_points o) as [| t0 rest] eqn:Et.
  - cbn [rbind]. split; [| split].
    + split; reflexivity.
    + split; [discriminate | intros (a & b & E & _); discriminate].
    + split; [discriminate | intros (a & b & E & _); discriminate].
  - assert (Hno : forall P : list (tangent num) -> Prop,
              Exists (fun tp : tangent num => Numpy.shape tp <> Numpy.shape t0) rest ->
              Forall (fun tp : tangent num => Numpy.shape tp = Numpy.shape t0) rest ->
              False).
    { intros _ He Hf. apply Exists_exists in He. destruct He as (tp & Hin & Hne).
      rewrite Forall_forall in Hf. exact (Hne (Hf tp Hin)). }
    destruct (check_same_shape_cases (Numpy.shape t0) rest) as [[E He] | [E Hf]];
      rewrite E; cbn [rbind].
    + split; [| split].
      * split; discriminate.
      * split; [intros _; exists t0, rest; split; [reflexivity | exact He] |
                reflexivity].
      * split; [discriminate |]. intros (a & b & Eab & Hf). injection Eab as <- <-.
        exfalso. exact (Hno (fun _ => True) He Hf).
    + rewrite Hs, Hco, Hc. cbn [rbind]. unfold ok. split; [| split].
      * split; discriminate.
      * split; [discriminate |]. intros (a & b & Eab & He). injection Eab as <- <-.
        exfalso. exact (Hno (fun _ => True) He Hf).
      * split; [intros _; exists t0, rest; split; [reflexivity | exact Hf] |
                reflexivity].
Qed.

(** X5.  The class [Surrogate] itself, the one object that passes the test
    [is Surrogate], cannot be used either.  The constructor raises
    [IndexError] exactly when there is no tangent matrix or the first one has
    an entry; when it returns, [surrogates] is still [[[]]] (nothing was
    copied, nothing fitted) and [coordinates] was not stored. *)
Theorem surrogate_class_fits_nothing (manifold_data : list GrassmannPoint)
    (coords : coordinates_t) (distance : distance_t)
    (optimization_method : optimization_t) :
  let tps := log_map manifold_data
               (karcher_mean manifold_data optimization_method distance) in
  let built := init karcher_mean log_map
                 (SurrogateClass num coordinates_t query_t surrogate_t)
                 manifold_data coords distance optimization_method in
  (built = inl IndexError <->
   tps = [] \/
   exists t0 rest r c, tps = t0 :: rest /\ Numpy.shape t0 = (S r, S c)) /\
  (forall o, built = inr o ->
     surrogates o = Some [[]] /\ coordinates o = None /\
     exists t0 rest, tps = t0 :: rest /\
       (fst (Numpy.shape t0) = 0%nat \/ snd (Numpy.shape t0) = 0%nat)).
Proof.
  intros tps built. subst built. unfold init, fit_surrogates.
  cbn [is_Surrogate]. fold tps.
  destruct tps as [| t0 rest]; cbn [rbind].
  - split.
    + split; [intros _; left; reflexivity | reflexivity].
    + intros o H. discriminate.
  - destruct (Numpy.shape t0) as [nr nc] eqn:Es. cbn [fst snd].
    destruct nr as [| r]; [| destruct nc as [| c]]; cbn [rbind]; unfold ok.
    + split.
      * split; [discriminate |].
        intros [E | (a & b & r & c & E & Es')]; [discriminate |].
        injection E as <- <-. congruence.
      * intros o H. injection H as <-. cbn [surrogates coordinates].
        split; [reflexivity |]. split; [reflexivity |].
        exists t0, rest. rewrite Es. split; [reflexivity | left; reflexivity].
    + split.
      * split; [discriminate |].
        intros [E | (a & b & r' & c & E & Es')]; [discriminate |].
        injection E as <- <-. congruence.
      * intros o H. injection H as <-. cbn [surrogates coordinates].
        split; [reflexivity |]. split; [reflexivity |].
        exists t0, rest. rewrite Es. split; [reflexivity | right; reflexivity].
    + split.
      * split; [| reflexivity]. intros _. right. exists t0, rest, r, c.
        split; [reflexivity | exact Es].
      * intros o H. discriminate.
Qed.

End Checks.

(** Two tangent matrices of shapes 1 x 1 and 1 x 2, held by an object that
    was given no method. *)
Definition mixed_shapes : t nat unit unit unit unit :=
  {| interpolation_method := PyNone nat unit unit unit;
     mean := tt;
     tangent_points := [[[1%nat]]; [[1%nat; 2%nat]]];
     surrogates := None;
     coordinates := Some tt |}.

Lemma interpolate_manifold_outcomes_witness :
  interpolate_manifold 0%nat (fun _ _ => [tt]) (fun _ tps _ => hd [] tps)
    mixed_shapes tt = inl TypeError.
Proof.
  apply (proj1 (proj2 (@interpolate_manifold_outcomes nat 0%nat unit unit unit
                         unit (fun _ _ => [tt]) (fun _ tps _ => hd [] tps)
                         mixed_shapes tt tt eq_refl eq_refl eq_refl))).
  exists [[1%nat]], [[[1%nat; 2%nat]]]. split; [reflexivity |].
  apply Exists_cons_hd. discriminate.
Defined.

End ManifoldInterpolationChecks.

(** ** GaussianProcessRegressor: the calls, stage by stage *)

Module GPRCalls.

Import Numpy GPR GPRFacts.

Open Scope R_scope.

(** *** Arrays *)

Lemma chunks_concat (n k : nat) (l : vec) :
  length l = (n * k)%nat -> concat (chunks n k l) = l.
Proof.
  revert l. induction n as [| n IH]; intros l H; cbn [chunks concat].
  - destruct l; [reflexivity | discriminate].
  - rewrite IH.
    + apply firstn_skipn.
    + rewrite length_skipn. lia.
Qed.

Lemma size_flatten (a : ndarray) : size a = length (flatten a).
Proof. destruct a; reflexivity. Qed.

Lemma reshape_cases (a : ndarray) (n : nat) :
  n <> 0%nat ->
  ((size a mod n <> 0)%nat /\ reshape a n (size a / n) = inl ValueError) \/
  ((size a mod n = 0)%nat /\
   reshape a n (size a / n) = inr (chunks n (size a / n) (flatten a))).
Proof.
  intros Hn. unfold reshape. pose proof (Nat.div_mod_eq (size a) n) as E.
  destruct (Nat.eqb_spec (size a) (n * (size a / n))) as [Eq | Ne].
  - right. split; [lia | reflexivity].
  - left. split; [lia | reflexivity].
Qed.

Lemma broadcast_to_length (d : nat) (v x : vec) :
  broadcast_to d v = inr x -> length x = d.
Proof.
  unfold broadcast_to. destruct (Nat.eqb_spec (length v) d) as [E | N].
  - intros H. injection H as <-. exact E.
  - destruct v as [| a [| b v]]; try discriminate.
    intros H. injection H as <-. apply repeat_length.
Qed.

Lemma broadcast_to_same (d : nat) (v : vec) :
  length v = d -> broadcast_to d v = inr v.
Proof. intros H. unfold broadcast_to. rewrite H, Nat.eqb_refl. reflexivity. Qed.

(** What [uniform] does to the generator. *)
Lemma uniform_generator (g g' : RandomState) (low high : vec) (n d : nat)
    (r : result mat) :
  uniform g low high n d = (r, g') ->
  tape g' = tape g /\
  match r with
  | inl _ => taken g' = taken g
  | inr _ => taken g' = (taken g + n * d)%nat
  end.
Proof.
  unfold uniform.
  destruct (broadcast_to d low) as [e | lo];
    [intros H; injection H as <- <-; split; reflexivity |].
  destruct (broadcast_to d high) as [e | hi];
    [intros H; injection H as <- <-; split; reflexivity |].
  unfold random_sample. intros H. injection H as <- <-. split; reflexivity.
Qed.

Lemma uniform_no_rows (g : RandomState) (low high : vec) (d : nat) :
  length low = d -> length high = d ->
  exists g', uniform g low high 0 d = (inr [], g').
Proof.
  intros Hl Hh. unfold uniform.
  rewrite (@broadcast_to_same _ _ Hl), (@broadcast_to_same _ _ Hh).
  cbn. eexists. reflexivity.
Qed.

(** *** The index that [np.argmin] returns *)

Lemma flt_lt_le (x y c : fval) :
  flt x c = true -> flt y c = false -> is_nan y = false -> flt x y = true.
Proof.
  destruct x, y, c; cbn; try discriminate; try reflexivity;
    repeat match goal with
           | |- context [Rlt_dec ?a ?b] => destruct (Rlt_dec a b)
           end; try discriminate; try reflexivity; intros; exfalso; lra.
Qed.

(** Without [nan]: the index is the first one that holds the least value. *)
Lemma argmin_from_first (l pre : list fval) (best : nat) (cur : fval) :
  (best < length pre)%nat ->
  nth best pre NaN = cur ->
  Forall (fun x => is_nan x = false) pre ->
  Forall (fun x => flt x cur = false) pre ->
  (forall j, (j < best)%nat -> flt cur (nth j pre NaN) = true) ->
  Forall (fun x => is_nan x = false) l ->
  let t := argmin_from best cur (length pre) l in
  forall j, (j < t)%nat -> flt (nth t (pre ++ l) NaN) (nth j (pre ++ l) NaN) = true.
Proof.
  revert pre best cur.
  induction l as [| x l IH]; intros pre best cur Hb Hn Hpre Hle Hfirst Hl;
    cbn [argmin_from].
  - intros j Hj. rewrite app_nil_r, Hn. apply Hfirst. exact Hj.
  - inversion Hl as [| ? ? Hx Hl']; subst x0 l0.
    assert (Hc : is_nan cur = false).
    { rewrite Forall_forall in Hpre. apply Hpre. rewrite <- Hn. apply nth_In. exact Hb. }
    rewrite Hc, Hx. cbn [orb].
    assert (Hlen : length (pre ++ [x]) = S (length pre)).
    { rewrite length_app. cbn [length]. lia. }
    assert (Hpre' : Forall (fun y => is_nan y = false) (pre ++ [x])).
    { apply Forall_app. split; [exact Hpre | constructor; [exact Hx | constructor]]. }
    replace (pre ++ x :: l) with ((pre ++ [x]) ++ l)
      by (rewrite <- app_assoc; reflexivity).
    rewrite <- Hlen.
    destruct (flt x cur) eqn:Hlt.
    + apply IH; try assumption.
      * rewrite Hlen. lia.
      * rewrite app_nth2 by lia. rewrite Nat.sub_diag. reflexivity.
      * apply Forall_app. split.
        -- eapply Forall_impl; [| exact Hle]. intros y Hy. cbv beta in Hy.
           destruct (flt y x) eqn:Hyx; [| reflexivity].
           rewrite (flt_trans _ _ _ Hyx Hlt) in Hy. discriminate.
        -- constructor; [apply flt_irrefl | constructor].
      * intros j Hj. rewrite app_nth1 by exact Hj.
        rewrite Forall_forall in Hpre, Hle.
        apply (@flt_lt_le _ _ _ Hlt).
        -- apply Hle. apply nth_In. exact Hj.
        -- apply Hpre. apply nth_In. exact Hj.
    + apply IH; try assumption.
      * rewrite Hlen. lia.
      * rewrite app_nth1 by exact Hb. exact Hn.
      * apply Forall_app. split; [exact Hle | constructor; [exact Hlt | constructor]].
      * intros j Hj. rewrite app_nth1 by lia. apply Hfirst. exact Hj.
Qed.

(** With a [nan]: the index is that of the first [nan]. *)
Lemma argmin_from_nan (l pre : list fval) (best : nat) (cur : fval) :
  (best < length pre)%nat ->
  nth best pre NaN = cur ->
  (forall j, (j < best)%nat -> is_nan (nth j pre NaN) = false) ->
  (is_nan cur = false -> Forall (fun x => is_nan x = false) pre) ->
  is_nan cur = true \/ Exists (fun x => is_nan x = true) l ->
  let t := argmin_from best cur (length pre) l in
  is_nan (nth t (pre ++ l) NaN) = true /\
  forall j, (j < t)%nat -> is_nan (nth j (pre ++ l) NaN) = false.
Proof.
  revert pre best cur.
  induction l as [| x l IH]; intros pre best cur Hb Hn Hbefore Hpre Hex;
    cbn [argmin_from].
  - rewrite app_nil_r. destruct Hex as [Hc | Hex]; [| inversion Hex].
    split; [rewrite Hn; exact Hc | exact Hbefore].
  - destruct (is_nan cur) eqn:Hc.
    + split.
      * rewrite app_nth1 by exact Hb. rewrite Hn. exact Hc.
      * intros j Hj. rewrite app_nth1 by lia. apply Hbefore. exact Hj.
    + specialize (Hpre eq_refl).
      assert (Hlen : length (pre ++ [x]) = S (length pre)).
      { rewrite length_app. cbn [length]. lia. }
      assert (Hall : forall j, (j < length pre)%nat ->
                       is_nan (nth j (pre ++ [x]) NaN) = false).
      { intros j Hj. rewrite app_nth1 by exact Hj.
        rewrite Forall_forall in Hpre. apply Hpre. apply nth_In. exact Hj. }
      replace (pre ++ x :: l) with ((pre ++ [x]) ++ l)
        by (rewrite <- app_assoc; reflexivity).
      rewrite <- Hlen.
      destruct (is_nan x) eqn:Hx; cbn [orb].
      * apply IH.
        -- rewrite Hlen. lia.
        -- rewrite app_nth2 by lia. rewrite Nat.sub_diag. reflexivity.
        -- exact Hall.
        -- intros E. congruence.
        -- left. exact Hx.
      * assert (Hpre' : Forall (fun y => is_nan y = false) (pre ++ [x])).
        { apply Forall_app. split; [exact Hpre | constructor; [exact Hx | constructor]]. }
        assert (Hex' : Exists (fun y => is_nan y = true) l).
        { destruct Hex as [E | Hex]; [discriminate |].
          inversion Hex as [? ? E | ? ? E]; subst; [congruence | exact E]. }
        destruct (flt x cur).
        -- apply IH.
           ++ rewrite Hlen. lia.
           ++ rewrite app_nth2 by lia. rewrite Nat.sub_diag. reflexivity.
           ++ exact Hall.
           ++ intros _. exact Hpre'.
           ++ right. exact Hex'.
        -- apply IH.
           ++ rewrite Hlen. lia.
           ++ rewrite app_nth1 by exact Hb. exact Hn.
           ++ intros j Hj. rewrite app_nth1 by lia. apply Hbefore. exact Hj.
           ++ intros _. exact Hpre'.
           ++ right. exact Hex'.
Qed.

Lemma argmin_first (a : fval) (l : list fval) :
  Forall (fun x => is_nan x = false) (a :: l) ->
  forall j, (j < argmin a l)%nat ->
    flt (nth (argmin a l) (a :: l) NaN) (nth j (a :: l) NaN) = true.
Proof.
  intros H. inversion H as [| ? ? Ha Hl]; subst.
  apply (@argmin_from_first l [a] 0%nat a); cbn [length nth].
  - lia.
  - reflexivity.
  - constructor; [exact Ha | constructor].
  - constructor; [apply flt_irrefl | constructor].
  - intros j Hj. lia.
  - exact Hl.
Qed.

Lemma argmin_nan (a : fval) (l : list fval) :
  Exists (fun x => is_nan x = true) (a :: l) ->
  is_nan (nth (argmin a l) (a :: l) NaN) = true /\
  forall j, (j < argmin a l)%nat -> is_nan (nth j (a :: l) NaN) = false.
Proof.
  intros H.
  apply (@argmin_from_nan l [a] 0%nat a); cbn [length nth].
  - lia.
  - reflexivity.
  - intros j Hj. lia.
  - intros E. constructor; [exact E | constructor].
  - inversion H as [? ? E | ? ? E]; subst; [left; exact E | right; exact E].
Qed.

Lemma argmin_lt (a : fval) (l : list fval) : (argmin a l < S (length l))%nat.
Proof.
  unfold argmin. pose proof (@argmin_from_lt l 0%nat a 1%nat Nat.lt_0_1). lia.
Qed.

(** *** Column statistics *)

Lemma length_zip_with (A B C : Type) (f : A -> B -> C) (a : list A) (b : list B) :
  length (zip_with f a b) = Nat.min (length a) (length b).
Proof.
  revert b. induction a as [| x a IH]; intros [| y b]; cbn [zip_with length];
    try reflexivity.
  rewrite IH. reflexivity.
Qed.

Lemma nth_zip_with (A B C : Type) (f : A -> B -> C) (a : list A) (b : list B)
    (j : nat) (da : A) (db : B) (dc : C) :
  (j < length a)%nat -> (j < length b)%nat ->
  nth j (zip_with f a b) dc = f (nth j a da) (nth j b db).
Proof.
  revert b j. induction a as [| x a IH]; intros [| y b] j Ha Hb;
    cbn [length] in *; try lia.
  destruct j as [| j]; cbn [zip_with nth]; [reflexivity |].
  apply IH; lia.
Qed.

Lemma map_const_seq (A : Type) (x : A) (a n : nat) :
  map (fun _ => x) (seq a n) = repeat x n.
Proof.
  revert a. induction n as [| n IH]; intros a; cbn [seq map repeat];
    [reflexivity |].
  rewrite IH. reflexivity.
Qed.

Lemma sum_map_affine (a b : R) (l : vec) :
  sum (map (fun x => (x - a) / b) l) = (sum l - INR (length l) * a) / b.
Proof.
  unfold sum. induction l as [| x l IH].
  - cbn. unfold Rdiv. ring.
  - cbn [map fold_right length]. rewrite IH, S_INR. unfold Rdiv. ring.
Qed.

Lemma sum_map_scale (c : R) (f : R -> R) (l : vec) :
  sum (map (fun x => f x / c) l) = sum (map f l) / c.
Proof.
  unfold sum. induction l as [| x l IH].
  - cbn. unfold Rdiv. ring.
  - cbn [map fold_right]. rewrite IH. unfold Rdiv. ring.
Qed.

Lemma sum_squares_nonneg (a : R) (l : vec) :
  0 <= sum (map (fun x => (x - a) * (x - a)) l).
Proof.
  unfold sum. induction l as [| x l IH]; cbn [map fold_right]; [lra |].
  pose proof (Rle_0_sqr (x - a)) as H. unfold Rsqr in H. lra.
Qed.

(** The mean of a centred and scaled column is 0. *)
Lemma mean_standardized (l : vec) (b : R) :
  l <> [] -> mean (map (fun x => (x - mean l) / b) l) = 0.
Proof.
  intros Hl. unfold mean at 1. rewrite sum_map_affine, length_map.
  unfold mean.
  assert (Hn : INR (length l) <> 0).
  { apply not_0_INR. destruct l; [congruence | discriminate]. }
  unfold Rdiv. replace (sum l - INR (length l) * (sum l * / INR (length l)))
    with 0 by (field; exact Hn).
  ring.
Qed.

(** ... and its standard deviation is 1, unless the column is constant. *)
Lemma std_standardized (l : vec) :
  std l <> 0 -> std (map (fun x => (x - mean l) / std l) l) = 1.
Proof.
  intros Hsd.
  assert (Hl : l <> []).
  { intros ->. apply Hsd. unfold std, mean. cbn.
    unfold Rdiv. rewrite Rmult_0_l. apply sqrt_0. }
  assert (Hn : INR (length l) <> 0).
  { apply not_0_INR. destruct l; [congruence | discriminate]. }
  set (V := mean (map (fun x => (x - mean l) * (x - mean l)) l)).
  assert (HV0 : 0 <= V).
  { unfold V, mean. rewrite length_map. unfold Rdiv.
    apply Rmult_le_pos; [apply sum_squares_nonneg |].
    apply Rlt_le, Rinv_0_lt_compat. apply lt_0_INR.
    destruct l; [congruence | cbn; lia]. }
  assert (Hb : std l * std l = V) by (unfold std; fold V; apply sqrt_sqrt; exact HV0).
  unfold std at 1. rewrite (mean_standardized (std l) Hl).
  rewrite map_map.
  replace (map (fun x => ((x - mean l) / std l - 0) * ((x - mean l) / std l - 0)) l)
    with (map (fun x => (x - mean l) * (x - mean l) / V) l).
  - unfold mean at 1. rewrite sum_map_scale, length_map.
    fold (mean (map (fun x => (x - mean l) * (x - mean l)) l)). fold V.
    assert (HV : V <> 0) by (intros E; rewrite E in Hb; apply Hsd; nra).
    replace (sum (map (fun x => (x - mean l) * (x - mean l)) l) / V / INR (length l))
      with (V / V).
    + unfold Rdiv. rewrite Rinv_r by exact HV. apply sqrt_1.
    + unfold V, mean. rewrite length_map. field. split; [exact Hn |].
      intros E. apply HV. unfold V, mean. rewrite length_map, E.
      unfold Rdiv. ring.
  - apply map_ext. intros x. rewrite <- Hb. field. exact Hsd.
Qed.

Lemma nth_map_seq (A : Type) (f : nat -> A) (d : A) (c j : nat) :
  (j < c)%nat -> nth j (map f (seq 0 c)) d = f j.
Proof.
  intros Hj. rewrite (nth_indep _ d (f 0%nat)) by (rewrite length_map, length_seq; exact Hj).
  rewrite map_nth, seq_nth by exact Hj. reflexivity.
Qed.

Lemma column_standardize (m : mat) (mu sd : vec) (c j : nat) :
  Forall (fun row => length row = c) m ->
  length mu = c -> length sd = c -> (j < c)%nat ->
  column j (standardize m mu sd)
  = map (fun x => (x - nth j mu 0) / nth j sd 0) (column j m).
Proof.
  intros Hm Hmu Hsd Hj. unfold column, standardize. rewrite !map_map.
  apply map_ext_in. intros row Hin. rewrite Forall_forall in Hm.
  specialize (Hm row Hin).
  rewrite (@nth_zip_with _ _ _ Rdiv _ _ j 0 0 0).
  - rewrite (@nth_zip_with _ _ _ Rminus _ _ j 0 0 0) by lia. reflexivity.
  - rewrite length_zip_with. lia.
  - lia.
Qed.

Lemma ncols_standardize (m : mat) (mu sd : vec) (c : nat) :
  Forall (fun row => length row = c) m ->
  length mu = c -> length sd = c -> m <> [] ->
  ncols (standardize m mu sd) = c.
Proof.
  intros Hm Hmu Hsd Hne. destruct m as [| row m]; [congruence |].
  inversion Hm as [| ? ? Hrow _]; subst.
  unfold ncols, standardize. cbn [map hd]. rewrite !length_zip_with. lia.
Qed.

(** The columns of [(m - mean) / std] have mean 0 and standard deviation 1. *)
Lemma standardize_statistics (m : mat) (c : nat) :
  m <> [] -> Forall (fun row => length row = c) m ->
  Forall (fun sd => sd <> 0) (std0 m) ->
  mean0 (standardize m (mean0 m) (std0 m)) = repeat 0 c /\
  std0 (standardize m (mean0 m) (std0 m)) = repeat 1 c.
Proof.
  intros Hne Hm Hsd.
  assert (Hc : ncols m = c).
  { destruct m as [| row m]; [congruence |]. inversion Hm; subst. reflexivity. }
  assert (Hmu : length (mean0 m) = c).
  { unfold mean0, transpose, transpose_n. rewrite !length_map, length_seq. exact Hc. }
  assert (Hsdl : length (std0 m) = c).
  { unfold std0, transpose, transpose_n. rewrite !length_map, length_seq. exact Hc. }
  assert (Hcol : forall j, (j < c)%nat -> column j m <> []).
  { intros j _. unfold column. destruct m; [congruence | discriminate]. }
  assert (Hnmu : forall j, (j < c)%nat -> nth j (mean0 m) 0 = mean (column j m)).
  { intros j Hj. unfold mean0, transpose, transpose_n. rewrite map_map, Hc.
    apply nth_map_seq. exact Hj. }
  assert (Hnsd : forall j, (j < c)%nat -> nth j (std0 m) 0 = std (column j m)).
  { intros j Hj. unfold std0, transpose, transpose_n. rewrite map_map, Hc.
    apply nth_map_seq. exact Hj. }
  assert (Hcols : forall j, (j < c)%nat ->
            column j (standardize m (mean0 m) (std0 m))
            = map (fun x => (x - mean (column j m)) / std (column j m))
                (column j m)).
  { intros j Hj. rewrite (@column_standardize _ _ _ _ _ Hm Hmu Hsdl Hj), (Hnmu j Hj), (Hnsd j Hj).
    reflexivity. }
  assert (Hm0 : forall x : mat,
            mean0 x = map (fun j => mean (column j x)) (seq 0 (ncols x))).
  { intros x. unfold mean0, transpose, transpose_n. apply map_map. }
  assert (Hs0 : forall x : mat,
            std0 x = map (fun j => std (column j x)) (seq 0 (ncols x))).
  { intros x. unfold std0, transpose, transpose_n. apply map_map. }
  rewrite (Hm0 (standardize m (mean0 m) (std0 m))).
  rewrite (Hs0 (standardize m (mean0 m) (std0 m))).
  rewrite (@ncols_standardize _ _ _ _ Hm Hmu Hsdl Hne).
  split.
  - rewrite <- (map_const_seq 0 0 c). apply map_ext_in. intros j Hj.
    apply in_seq in Hj. rewrite (Hcols j) by lia.
    apply mean_standardized. apply Hcol. lia.
  - rewrite <- (map_const_seq 1 0 c). apply map_ext_in. intros j Hj.
    apply in_seq in Hj. rewrite (Hcols j) by lia.
    apply std_standardized. rewrite <- Hnsd by lia.
    rewrite Forall_forall in Hsd. apply Hsd. apply nth_In. lia.
Qed.

Lemma standardize_row_round_trip (row mu sd : vec) :
  length mu = length row -> length sd = length row ->
  Forall (fun x => x <> 0) sd ->
  zip_with Rplus mu (zip_with Rmult (zip_with Rdiv (zip_with Rminus row mu) sd) sd)
  = row.
Proof.
  revert mu sd. induction row as [| x row IH]; intros [| a mu] [| b sd] Hmu Hsd Hnz;
    cbn [length] in *; try discriminate; [reflexivity |].
  inversion Hnz as [| ? ? Hb Hnz']; subst.
  cbn [zip_with]. rewrite IH by (try lia; assumption).
  f_equal. field. exact Hb.
Qed.

(** [mean + ((m - mean) / std) * std] is [m] again. *)
Lemma unstandardize_standardize (m : mat) (mu sd : vec) (c : nat) :
  Forall (fun row => length row = c) m ->
  length mu = c -> length sd = c ->
  Forall (fun x => x <> 0) sd ->
  unstandardize (standardize m mu sd) mu sd = m.
Proof.
  intros Hm Hmu Hsd Hnz. unfold unstandardize, standardize. rewrite map_map.
  rewrite <- (map_id m) at 2. apply map_ext_in. intros row Hin.
  rewrite Forall_forall in Hm. specialize (Hm row Hin).
  apply standardize_row_round_trip; [lia | lia | exact Hnz].
Qed.

Lemma length_mean0 (m : mat) : length (mean0 m) = ncols m.
Proof. unfold mean0, transpose, transpose_n. rewrite !length_map. apply length_seq. Qed.

Lemma length_std0 (m : mat) : length (std0 m) = ncols m.
Proof. unfold std0, transpose, transpose_n. rewrite !length_map. apply length_seq. Qed.

Section Calls.
Variable kernel_c : mat -> mat -> vec -> mat.
Variable cholesky : mat -> result mat.
Variable cho_solve : mat -> mat -> mat.
Variable process_random_state : RandomStateType -> option RandomState.
Variable ConstraintsGPR : Type.
Variable constraints_t : Type.
Variable constraints_args_t : Type.
Variable constraints_of : ConstraintsGPR -> mat -> mat -> predict_fn -> constraints_t.
Variable args_of : ConstraintsGPR -> constraints_args_t.
Variable optimizer_optimize :
  Optimizer constraints_t constraints_args_t ->
  (vec -> result R) -> vec -> bool -> result optimize_result.

Notation "'World'" := (world ConstraintsGPR constraints_t constraints_args_t)
  (only parsing).
Notation "'Regressor'" := (regressor ConstraintsGPR) (only parsing).
Notation "'fit_'" :=
  (fit kernel_c cholesky cho_solve constraints_of args_of optimizer_optimize)
  (only parsing).
Notation "'mle_'" :=
  (mle kernel_c cholesky cho_solve constraints_of args_of optimizer_optimize)
  (only parsing).
Notation "'factorize_'" := (factorize kernel_c cholesky cho_solve) (only parsing).
Notation "'predict_'" := (predict kernel_c cholesky cho_solve) (only parsing).
Notation "'run_once_'" :=
  (run_once kernel_c cholesky cho_solve optimizer_optimize) (only parsing).
Notation "'run_all_'" :=
  (run_all kernel_c cholesky cho_solve optimizer_optimize) (only parsing).
Notation "'configured_'" :=
  (configured kernel_c cholesky cho_solve constraints_of args_of) (only parsing).
Notation "'init_'" :=
  (init process_random_state (constraints_t := constraints_t)
     (constraints_args_t := constraints_args_t)) (only parsing).

(** The restart count and the hyperparameters in force during a call. *)
Definition count_of (n : option nat) (r : Regressor) : nat :=
  match n with Some x => x | None => optimizations_number r end.
Definition start_of (h : option vec) (r : Regressor) : vec :=
  match h with Some x => x | None => hyperparameters r end.

(** *** fit, stage by stage *)

(** The array checks fail: the arguments are stored and nothing else
    happens. *)
Lemma fit_load_fails (sa va : ndarray) (n : option nat) (h : option vec)
    (w : World) (e : exn) :
  checked sa va = inl e ->
  fit_ sa va n h w = (inl e, with_self w (stored sa n h (self w))).
Proof.
  intros E. rewrite fit_eq, load_data_eq, E. reflexivity.
Qed.

(** The array checks pass and no optimization is asked for. *)
Lemma fit_plain (sa va : ndarray) (n : option nat) (h : option vec)
    (w : World) (m v : mat) :
  checked sa va = inr (m, v) ->
  optimize (self w) = false ->
  fit_ sa va n h w =
  factorize_ (fst (training_pair m v (self w))) (snd (training_pair m v (self w)))
    (nrows m) (with_self w (standardized m v (stored sa n h (self w)))).
Proof.
  intros E Eo. rewrite fit_eq, load_data_eq, E. cbn [fst snd self with_self].
  rewrite loaded_optimize, Eo. reflexivity.
Qed.

(** The array checks pass and the optimization is entered. *)
Lemma fit_optimizing (sa va : ndarray) (n : option nat) (h : option vec)
    (w : World) (m v : mat) :
  checked sa va = inr (m, v) ->
  optimize (self w) = true ->
  fit_ sa va n h w =
  let r := set_alpha_ None (standardized m v (stored sa n h (self w))) in
  let d := (ncols m + 2)%nat in
  let s_ := fst (training_pair m v (self w)) in
  let y_ := snd (training_pair m v (self w)) in
  match uniform (np_random w) (lower r) (upper r) (optimizations_number r) d with
  | (inl e, g) => (inl e, Build_world r (optimizer w) g (runs w))
  | (inr drawn, g) =>
      match first_start drawn d r with
      | inl e => (inl e, Build_world r (optimizer w) g (runs w))
      | inr row0 =>
          match configured_ (optimizer w) r m with
          | inl e => (inl e, Build_world r (optimizer w) g (runs w))
          | inr o' =>
              let out := run_all_ o' (jac r) d s_ y_ (row0 :: tl drawn) in
              let l := rev (snd out) ++ runs w in
              match fst out with
              | inl e => (inl e, Build_world r o' g l)
              | inr rows =>
                  match map snd rows with
                  | [] => (inl ValueError, Build_world r o' g l)
                  | f0 :: fs =>
                      if is_pinf (py_min f0 fs)
                      then (inl NotImplementedError, Build_world r o' g l)
                      else factorize_ s_ y_ (nrows m)
                             (Build_world
                                (set_hyperparameters
                                   (map pow10 (nth (argmin f0 fs) (map fst rows) []))
                                   r)
                                o' g l)
                  end
              end
          end
      end
  end.
Proof.
  intros E Eo. rewrite fit_eq, load_data_eq, E. cbn [fst snd self with_self].
  rewrite loaded_optimize, Eo, mle_eq. cbv zeta.
  cbn [self optimizer np_random runs with_self].
  match goal with
  | |- context [uniform ?a ?b ?c ?d ?e] =>
      destruct (uniform a b c d e) as [[e1 | drawn] g]; [reflexivity |]
  end.
  match goal with
  | |- context [first_start ?a ?b ?c] =>
      destruct (first_start a b c) as [e1 | row0]; [reflexivity |]
  end.
  match goal with
  | |- context [configured_ ?a ?b ?c] =>
      destruct (configured_ a b c) as [e1 | o']; [reflexivity |]
  end.
  match goal with
  | |- context [run_all_ ?a ?b ?c ?d ?e ?f] =>
      destruct (run_all_ a b c d e f) as [[e1 | rows] ran]; cbn [fst snd];
        [reflexivity |]
  end.
  destruct (map snd rows) as [| f0 fs]; [reflexivity |].
  destruct (is_pinf (py_min f0 fs)); reflexivity.
Qed.

(** The fields that only [load_data] writes are, after the call, what
    [load_data] left. *)
Definition same_data (r r' : Regressor) : Prop :=
  samples r' = samples r /\ values r' = values r /\
  sample_mean r' = sample_mean r /\ sample_std r' = sample_std r /\
  value_mean r' = value_mean r /\ value_std r' = value_std r /\
  normalize r' = normalize r /\ bounds r' = bounds r /\
  optimize r' = optimize r /\ optimize_constraints r' = optimize_constraints r /\
  optimizations_number r' = optimizations_number r /\
  random_state r' = random_state r /\ jac r' = jac r.

Lemma same_data_refl (r : Regressor) : same_data r r.
Proof. repeat split. Qed.

Lemma factorize_same_data (s_ y_ : mat) (k : nat) (w w' : World)
    (res : result unit) :
  factorize_ s_ y_ k w = (res, w') ->
  same_data (self w) (self w') /\ hyperparameters (self w') = hyperparameters (self w) /\
  optimizer w' = optimizer w /\ np_random w' = np_random w /\ runs w' = runs w /\
  (forall e, res = inl e -> cc (self w') = cc (self w) /\ alpha_ (self w') = alpha_ (self w)).
Proof.
  intros H. apply factorize_cases in H.
  destruct H as [(_ & -> & ->) | (noise & _ & [(e & _ & -> & ->) | (l & _ & -> & ->)])].
  - repeat split.
  - repeat split.
  - repeat split; discriminate.
Qed.

Lemma fit_same_data (sa va : ndarray) (n : option nat) (h : option vec)
    (w w' : World) (res : result unit) (m v : mat) :
  checked sa va = inr (m, v) ->
  fit_ sa va n h w = (res, w') ->
  same_data (standardized m v (stored sa n h (self w))) (self w').
Proof.
  intros E H. destruct (optimize (self w)) eqn:Eo.
  - rewrite (@fit_optimizing sa va n h w m v E Eo) in H. cbv zeta in H.
    repeat match type of H with
           | context [match ?x with _ => _ end] => destruct x
           end;
      try (injection H as <- <-; repeat split);
      apply factorize_same_data in H; destruct H as (H & _);
      cbn [self] in H; exact H.
  - rewrite (@fit_plain sa va n h w m v E Eo) in H.
    apply factorize_same_data in H. destruct H as (H & _). exact H.
Qed.

(** *** __init__ *)

(** X6.  The bounds of a new instance: the [bounds] argument when there is
    one, otherwise the bounds that the optimizer holds, otherwise one pair
    [[1e-3, 1e3]] for every hyperparameter with the last pair replaced by
    [[1e-10, 1e-1]]; in this last case an empty hyperparameter list makes the
    constructor raise [IndexError].  The new instance stores the
    hyperparameters as given, has [jac = False] and no data, no matrix and no
    factor. *)
Theorem init_bounds (hp : vec) (opt : Optimizer constraints_t constraints_args_t)
    (b : option (list (R * R))) (optimize_arg : bool)
    (oc : option ConstraintsGPR) (n : nat) (normalize_arg : bool)
    (rs : RandomStateType) :
  let built := init_ hp opt b optimize_arg oc n normalize_arg rs in
  (built = inl IndexError <-> b = None /\ _bounds opt = None /\ hp = []) /\
  (forall r, built = inr r ->
     bounds r =
       match b, _bounds opt with
       | Some x, _ => x
       | None, Some x => x
       | None, None =>
           repeat (/ 1000, 1000) (length hp - 1) ++ [(/ 10000000000, / 10)]
       end /\
     (b = None -> _bounds opt = None -> length (bounds r) = length hp) /\
     hyperparameters r = hp /\ jac r = false /\
     samples r = None /\ values r = None /\ K r = None /\ cc r = None /\
     alpha_ r = None) /\
  (returns built <-> ~ (b = None /\ _bounds opt = None /\ hp = [])).
Proof.
  intros built. subst built. unfold init, default_bounds.
  destruct b as [x |]; [| destruct (_bounds opt) as [x |]; [| destruct hp as [| a hp]]];
    cbn [rbind length]; unfold ok, raise; cbn [rbind].
  - split; [| split].
    + split; [discriminate | intros (E & _); discriminate].
    + intros r H. injection H as <-. repeat split; discriminate.
    + split; [intros _ (E & _); discriminate | intros _; eexists; reflexivity].
  - split; [| split].
    + split; [discriminate | intros (_ & E & _); discriminate].
    + intros r H. injection H as <-. repeat split; discriminate.
    + split; [intros _ (_ & E & _); discriminate | intros _; eexists; reflexivity].
  - split; [| split].
    + split; [intros _; repeat split | reflexivity].
    + intros r H. discriminate.
    + split; [intros (x & Hx); discriminate | intros H; exfalso; apply H; repeat split].
  - split; [| split].
    + split; [discriminate | intros (_ & _ & E); discriminate].
    + intros r H. injection H as <-. cbn [bounds hyperparameters jac samples values K cc alpha_].
      replace (S (length hp) - 1)%nat with (length hp) by lia. repeat split.
      intros _ _. rewrite length_app, repeat_length. cbn [length]. lia.
    + split; [intros _ (_ & _ & E); discriminate | intros _; eexists; reflexivity].
Qed.

(** X7.  A new instance cannot predict: before any [fit], [predict] raises
    for every argument. *)
Theorem predict_before_fit_raises (hp : vec)
    (opt : Optimizer constraints_t constraints_args_t)
    (b : option (list (R * R))) (optimize_arg : bool)
    (oc : option ConstraintsGPR) (n : nat) (normalize_arg : bool)
    (rs : RandomStateType) (r : Regressor) (points : ndarray)
    (return_std : bool) (h : option vec) :
  init_ hp opt b optimize_arg oc n normalize_arg rs = inr r ->
  raises (predict_ r points return_std h).
Proof.
  unfold init. intros H.
  match type of H with
  | rbind ?x _ = _ => destruct x as [e | bs]; cbn [rbind] in H; [discriminate |]
  end.
  unfold ok in H. injection H as <-. unfold predict. cbn [samples attr rbind].
  eexists. reflexivity.
Qed.

(** *** fit: the data *)

(** X8.  Malformed training data.  [fit] raises [ValueError] for a sample
    array with one axis, [ZeroDivisionError] for one without rows, and
    [ValueError] when the number of values is not a multiple of the number of
    samples.  In each case the arguments are already stored in the instance
    ([samples], and [optimizations_number] and [hyperparameters] when given);
    nothing else has changed: no variate was drawn, the optimizer was neither
    configured nor run, and [values], [K], [cc] and [alpha_] are those of
    before the call. *)
Theorem fit_rejects_malformed_data (sa va : ndarray) (n : option nat)
    (h : option vec) (w : World) :
  let w' := with_self w (stored sa n h (self w)) in
  (samples (self w') = Some sa /\ values (self w') = values (self w) /\
   K (self w') = K (self w) /\ cc (self w') = cc (self w) /\
   alpha_ (self w') = alpha_ (self w) /\
   optimizer w' = optimizer w /\ np_random w' = np_random w /\
   runs w' = runs w) /\
  (forall x, sa = Arr1 x -> fit_ sa va n h w = (inl ValueError, w')) /\
  (forall m, sa = Arr2 m -> nrows m = 0%nat ->
     fit_ sa va n h w = (inl ZeroDivisionError, w')) /\
  (forall m, sa = Arr2 m -> nrows m <> 0%nat -> (size va mod nrows m <> 0)%nat ->
     fit_ sa va n h w = (inl ValueError, w')).
Proof.
  intros w'. subst w'. split; [| split; [| split]].
  - unfold stored. destruct n, h; repeat split.
  - intros x ->. apply fit_load_fails. reflexivity.
  - intros m -> Hm. apply fit_load_fails. unfold checked.
    cbn [as_2d rbind ok]. unfold ok. cbn [rbind]. rewrite Hm. reflexivity.
  - intros m -> Hm Hmod. apply fit_load_fails. unfold checked.
    cbn [as_2d rbind ok]. unfold ok. cbn [rbind].
    apply Nat.eqb_neq in Hm. rewrite Hm. cbn [rbind]. apply Nat.eqb_neq in Hm.
    destruct (@reshape_cases va _ Hm) as [[_ E] | [E _]]; [| contradiction].
    rewrite E. reflexivity.
Qed.

(** X9.  The stored values.  When the samples have [k > 0] rows and the
    number of values is a multiple of [k], then, whatever becomes of the call
    afterwards, [values] holds a matrix of [k] rows of [size / k] entries
    whose entries, read row by row, are those of the [values] argument in
    their order. *)
Theorem fit_stores_values_row_major (sa va : ndarray) (n : option nat)
    (h : option vec) (w w' : World) (res : result unit) (m : mat) :
  fit_ sa va n h w = (res, w') ->
  sa = Arr2 m -> nrows m <> 0%nat -> (size va mod nrows m = 0)%nat ->
  exists v,
    values (self w') = Some v /\
    shaped (nrows m) (size va / nrows m) v /\
    concat v = flatten va.
Proof.
  intros H -> Hm Hmod.
  destruct (@reshape_cases va _ Hm) as [[E _] | [_ E]]; [contradiction |].
  assert (Ec : checked (Arr2 m) va
               = inr (m, chunks (nrows m) (size va / nrows m) (flatten va))).
  { apply checked_ok. repeat split; assumption. }
  exists (chunks (nrows m) (size va / nrows m) (flatten va)).
  assert (Hlen : length (flatten va) = (nrows m * (size va / nrows m))%nat).
  { rewrite <- size_flatten. pose proof (Nat.div_mod_eq (size va) (nrows m)). lia. }
  split; [| split; [split |]].
  - destruct (@fit_same_data _ va n h w w' res _ _ Ec H) as (_ & Hv & _).
    rewrite Hv. apply loaded_values.
  - apply chunks_length.
  - apply chunks_row_length. exact Hlen.
  - apply chunks_concat. exact Hlen.
Qed.

(** X10.  A call with [optimize = False] draws no variate, leaves the
    optimizer as it was and runs it not once; the hyperparameters are the
    [hyperparameters] argument, or those of before the call.  When such a
    call raises, [cc] and [alpha_] still hold the factor and the solve of the
    previous data, although [samples] already holds the new array. *)
Theorem fit_without_optimization (sa va : ndarray) (n : option nat)
    (h : option vec) (w w' : World) (res : result unit) :
  optimize (self w) = false ->
  fit_ sa va n h w = (res, w') ->
  optimizer w' = optimizer w /\ np_random w' = np_random w /\
  runs w' = runs w /\
  hyperparameters (self w') = start_of h (self w) /\
  samples (self w') = Some sa /\
  (forall e, res = inl e ->
     cc (self w') = cc (self w) /\ alpha_ (self w') = alpha_ (self w)).
Proof.
  intros Eo H. destruct (checked sa va) as [e | [m v]] eqn:Ec.
  - rewrite (@fit_load_fails sa va n h w e Ec) in H. injection H as <- <-.
    cbn [self optimizer np_random runs with_self].
    unfold stored, start_of. destruct n, h; repeat split.
  - rewrite (@fit_plain sa va n h w m v Ec Eo) in H.
    apply factorize_same_data in H.
    destruct H as ((Hs & _) & Hh & Ho & Hg & Hr & Hf).
    cbn [self optimizer np_random runs with_self] in *.
    rewrite Hh, Hs, loaded_hyperparameters, loaded_samples.
    repeat split; try assumption.
    + destruct (Hf e H) as [Hc _]. rewrite Hc. apply loaded_cc.
    + destruct (Hf e H) as [_ Ha]. rewrite Ha. apply loaded_alpha.
Qed.


(** *** fit: the optimization *)

(** The loop either runs every starting point, or stops at the first run
    that raises. *)
Lemma run_all_cases (o : Optimizer constraints_t constraints_args_t) (j : bool)
    (d : nat) (s y : mat) (sp : list vec) :
  (exists rows,
     run_all_ o j d s y sp = (inr rows, sp) /\
     Forall2 (fun x0 row => run_once_ o j d s y x0 = inr row) sp rows) \/
  (exists e pre x0 post rows,
     sp = pre ++ x0 :: post /\
     run_all_ o j d s y sp = (inl e, pre ++ [x0]) /\
     Forall2 (fun x0 row => run_once_ o j d s y x0 = inr row) pre rows /\
     run_once_ o j d s y x0 = inl e).
Proof.
  induction sp as [| x0 rest IH]; cbn [run_all].
  - left. exists []. split; [reflexivity | constructor].
  - destruct (run_once_ o j d s y x0) as [e | row] eqn:E0.
    + right. exists e, [], x0, rest, []. repeat split; [constructor | exact E0].
    + destruct IH as [(rows & E & HF) | (e & pre & x1 & post & rows & Es & E & HF & E1)];
        rewrite E.
      * left. exists (row :: rows). split; [reflexivity |].
        constructor; assumption.
      * right. exists e, (x0 :: pre), x1, post, (row :: rows). rewrite Es.
        repeat split; [constructor; assumption | exact E1].
Qed.

Lemma runs_of_call_app (w w' : World) (l : list vec) :
  runs w' = l ++ runs w -> runs_of_call w w' = l.
Proof.
  intros H. unfold runs_of_call. rewrite H, length_app, Nat.add_sub.
  rewrite firstn_app, firstn_all, Nat.sub_diag. cbn [firstn]. apply app_nil_r.
Qed.

Lemma rows_unique (A : Type) (f : vec -> result A) (sp : list vec)
    (rows rows' : list A) :
  Forall2 (fun x0 row => f x0 = inr row) sp rows ->
  Forall2 (fun x0 row => f x0 = inr row) sp rows' ->
  rows = rows'.
Proof.
  intros H. revert rows'. induction H as [| x r sp rows Hx _ IH]; intros rows' H'.
  - inversion H'. reflexivity.
  - inversion H' as [| ? r' ? rows'' Hx' H'']; subst. f_equal; [congruence | auto].
Qed.

Lemma run_once_row_length (o : Optimizer constraints_t constraints_args_t)
    (j : bool) (d : nat) (s y : mat) (x0 : vec) (row : vec * fval) :
  run_once_ o j d s y x0 = inr row -> length (fst row) = d.
Proof.
  unfold run_once.
  destruct (optimizer_optimize o _ x0 j) as [e | [p | x f]]; cbn [rbind];
    [discriminate | |].
  - destruct (broadcast_to d p) as [e | x] eqn:Eb; cbn [rbind]; [discriminate |].
    destruct (log_likelihood kernel_c cholesky cho_solve p s y) as [e | f];
      cbn [rbind]; [discriminate |].
    unfold ok. intros H. injection H as <-. apply (@broadcast_to_length _ _ _ Eb).
  - destruct (broadcast_to d x) as [e | x'] eqn:Eb; cbn [rbind]; [discriminate |].
    unfold ok. intros H. injection H as <-. apply (@broadcast_to_length _ _ _ Eb).
Qed.

Lemma broadcast_to_source (d : nat) (v x : vec) :
  broadcast_to d v = inr x -> length v = d \/ length v = 1%nat.
Proof.
  unfold broadcast_to. destruct (Nat.eqb_spec (length v) d) as [E | N].
  - intros _. left. exact E.
  - destruct v as [| a [| b v]]; try discriminate. intros _. right. reflexivity.
Qed.

Lemma uniform_bounds_length (g g' : RandomState) (low high : vec) (n d : nat)
    (rows : mat) :
  uniform g low high n d = (inr rows, g') ->
  (length low = d \/ length low = 1%nat) /\
  (length high = d \/ length high = 1%nat).
Proof.
  unfold uniform.
  destruct (broadcast_to d low) as [e | lo] eqn:El; [discriminate |].
  destruct (broadcast_to d high) as [e | hi] eqn:Eh; [discriminate |].
  intros _. split; eapply broadcast_to_source; eassumption.
Qed.

(** The relation of a run to the row it leaves, for one call. *)
Definition leaves (w w' : World) (m v : mat) (x0 : vec) (row : vec * fval)
    : Prop :=
  run_once_ (optimizer w') (jac (self w)) (ncols m + 2)
    (fst (training_pair m v (self w))) (snd (training_pair m v (self w))) x0
  = inr row.

(** An optimizing call either stops before the loop, or stops at a run that
    raises, or completes the loop and then either fails the test on the
    objective values or selects a row and goes on to the factorization. *)
Lemma fit_optimizing_cases (sa va : ndarray) (n : option nat) (h : option vec)
    (w w' : World) (res : result unit) (m v : mat) :
  checked sa va = inr (m, v) ->
  optimize (self w) = true ->
  fit_ sa va n h w = (res, w') ->
  let r := set_alpha_ None (standardized m v (stored sa n h (self w))) in
  let d := (ncols m + 2)%nat in
  ((exists e, res = inl e) /\ self w' = r /\ optimizer w' = optimizer w /\
   runs w' = runs w /\ tape (np_random w') = tape (np_random w) /\
   (taken (np_random w') = taken (np_random w) \/
    taken (np_random w')
    = (taken (np_random w) + count_of n (self w) * d)%nat)) \/
  (exists drawn row0,
     uniform (np_random w) (lower (self w)) (upper (self w))
       (count_of n (self w)) d = (inr drawn, np_random w') /\
     drawn <> [] /\
     broadcast_to d (map log10 (start_of h (self w))) = inr row0 /\
     configured_ (optimizer w) r m = inr (optimizer w') /\
     ((exists e pre x0 post rows,
         row0 :: tl drawn = pre ++ x0 :: post /\
         Forall2 (leaves w w' m v) pre rows /\
         run_once_ (optimizer w') (jac (self w)) d
           (fst (training_pair m v (self w))) (snd (training_pair m v (self w)))
           x0 = inl e /\
         res = inl e /\ runs w' = rev (pre ++ [x0]) ++ runs w /\ self w' = r) \/
      (exists rows f0 fs,
         Forall2 (leaves w w' m v) (row0 :: tl drawn) rows /\
         map snd rows = f0 :: fs /\
         runs w' = rev (row0 :: tl drawn) ++ runs w /\
         ((is_pinf (py_min f0 fs) = true /\ res = inl NotImplementedError /\
           self w' = r) \/
          (is_pinf (py_min f0 fs) = false /\
           same_data r (self w') /\
           hyperparameters (self w')
           = map pow10 (fst (nth (argmin f0 fs) rows ([], NaN))) /\
           (forall e, res = inl e ->
              cc (self w') = cc (self w) /\ alpha_ (self w') = None)))))).
Proof.
  intros Ec Eo H r d. rewrite (@fit_optimizing sa va n h w m v Ec Eo) in H.
  cbv zeta in H. fold r d in H.
  assert (Hlo : lower r = lower (self w)).
  { unfold lower, r. cbn [bounds set_alpha_]. rewrite loaded_bounds. reflexivity. }
  assert (Hup : upper r = upper (self w)).
  { unfold upper, r. cbn [bounds set_alpha_]. rewrite loaded_bounds. reflexivity. }
  assert (Hn : optimizations_number r = count_of n (self w)).
  { unfold r. cbn [optimizations_number set_alpha_].
    apply loaded_optimizations_number. }
  assert (Hh : hyperparameters r = start_of h (self w)).
  { unfold r. cbn [hyperparameters set_alpha_]. apply loaded_hyperparameters. }
  assert (Hj : jac r = jac (self w)).
  { unfold r. cbn [jac set_alpha_]. apply loaded_jac. }
  assert (Hcc : cc r = cc (self w)).
  { unfold r. cbn [cc set_alpha_]. apply loaded_cc. }
  rewrite Hlo, Hup, Hn, Hj in H.
  destruct (uniform (np_random w) (lower (self w)) (upper (self w))
              (count_of n (self w)) d) as [[e | drawn] g] eqn:Eu.
  { injection H as <- <-. left. cbn [self optimizer runs np_random].
    destruct (@uniform_generator _ _ _ _ _ _ _ Eu) as [Ht Hk].
    repeat split; [eexists; reflexivity | exact Ht | left; exact Hk]. }
  destruct (first_start drawn d r) as [e | row0] eqn:Ef.
  { injection H as <- <-. left. cbn [self optimizer runs np_random].
    destruct (@uniform_generator _ _ _ _ _ _ _ Eu) as [Ht Hk].
    repeat split; [eexists; reflexivity | exact Ht | right; exact Hk]. }
  destruct (configured_ (optimizer w) r m) as [e | o'] eqn:Eco.
  { injection H as <- <-. left. cbn [self optimizer runs np_random].
    destruct (@uniform_generator _ _ _ _ _ _ _ Eu) as [Ht Hk].
    repeat split; [eexists; reflexivity | exact Ht | right; exact Hk]. }
  apply first_start_nonempty in Ef. destruct Ef as (Hne & Eb & _).
  rewrite Hh in Eb.
  destruct (run_all_cases o' (jac (self w)) d
              (fst (training_pair m v (self w)))
              (snd (training_pair m v (self w))) (row0 :: tl drawn))
    as [(rows & Er & HF) | (e & pre & x0 & post & rows & Es & Er & HF & E1)];
    rewrite Er in H; cbn [fst snd] in H.
  - destruct (map snd rows) as [| f0 fs] eqn:Em.
    { inversion HF; subst; discriminate. }
    destruct (is_pinf (py_min f0 fs)) eqn:Ep.
    + injection H as <- <-. right. exists drawn, row0.
      cbn [self optimizer runs np_random].
      split; [reflexivity |]. split; [exact Hne |]. split; [exact Eb |].
      split; [reflexivity |]. right. exists rows, f0, fs.
      split; [exact HF |]. split; [exact Em |]. split; [reflexivity |].
      left. split; [exact Ep | split; reflexivity].
    + apply factorize_same_data in H.
      cbn [self optimizer runs np_random] in H.
      destruct H as (Hs & Hhp & Ho & Hg & Hr & Hfail).
      right. exists drawn, row0. rewrite Hg, Ho.
      split; [reflexivity |]. split; [exact Hne |]. split; [exact Eb |].
      split; [reflexivity |]. right. exists rows, f0, fs.
      split; [unfold leaves; rewrite Ho; exact HF |].
      split; [exact Em |]. split; [exact Hr |].
      right. split; [exact Ep |]. split; [| split].
      * destruct Hs as (H1 & H2 & H3 & H4 & H5 & H6 & H7 & H8 & H9 & H10 & H11 & H12 & H13).
        repeat split; assumption.
      * rewrite Hhp. cbn [hyperparameters set_hyperparameters]. f_equal.
        change (@nil R) with (fst (@nil R, NaN)). apply map_nth.
      * intros e He. destruct (Hfail e He) as [H1 H2]. rewrite H1, H2.
        cbn [cc alpha_ set_hyperparameters]. split; [exact Hcc | reflexivity].
  - injection H as <- <-. right. exists drawn, row0.
    cbn [self optimizer runs np_random].
    split; [reflexivity |]. split; [exact Hne |]. split; [exact Eb |].
    split; [reflexivity |]. left. exists e, pre, x0, post, rows.
    repeat split; assumption.
Qed.


Lemma stored_random_state (sa : ndarray) (n : option nat) (h : option vec)
    (r : Regressor) :
  random_state (stored sa n h r) = random_state r.
Proof. unfold stored. destruct n, h; reflexivity. Qed.

Lemma stored_hyperparameters (sa : ndarray) (n : option nat) (h : option vec)
    (r : Regressor) :
  hyperparameters (stored sa n h r) = start_of h r.
Proof. unfold stored. destruct n, h; reflexivity. Qed.

Lemma loaded_optimize_constraints (sa : ndarray) (n : option nat)
    (h : option vec) (m v : mat) (r : Regressor) :
  optimize_constraints (standardized m v (stored sa n h r))
  = optimize_constraints r.
Proof.
  unfold standardized, stored.
  destruct n, h; cbn; destruct (normalize r); reflexivity.
Qed.

(** A call that returns got past the array checks. *)
Lemma fit_returns_checked (sa va : ndarray) (n : option nat) (h : option vec)
    (w w' : World) :
  fit_ sa va n h w = (inr tt, w') ->
  exists m v, checked sa va = inr (m, v) /\ sa = Arr2 m.
Proof.
  intros H. destruct (checked sa va) as [e | [m v]] eqn:Ec.
  - rewrite (@fit_load_fails sa va n h w e Ec) in H. discriminate.
  - exists m, v. split; [reflexivity |]. apply checked_ok in Ec. apply Ec.
Qed.

(** X11.  With [optimize = True] and the restart count 0 (and as many bounds
    as log-parameters), [fit] raises [IndexError] at the assignment of the
    first starting point: the optimizer is neither configured nor run, the
    hyperparameters and [cc] are those of before, and [alpha_] is already
    [None]. *)
Theorem fit_with_no_restart (sa va : ndarray) (n : option nat) (h : option vec)
    (w : World) (m v : mat) :
  checked sa va = inr (m, v) ->
  optimize (self w) = true ->
  count_of n (self w) = 0%nat ->
  length (bounds (self w)) = (ncols m + 2)%nat ->
  exists w',
    fit_ sa va n h w = (inl IndexError, w') /\
    runs w' = runs w /\ optimizer w' = optimizer w /\
    hyperparameters (self w') = start_of h (self w) /\
    cc (self w') = cc (self w) /\ alpha_ (self w') = None.
Proof.
  intros Ec Eo En Hb. rewrite (@fit_optimizing sa va n h w m v Ec Eo). cbv zeta.
  assert (Hlo : length (lower (set_alpha_ None
                   (standardized m v (stored sa n h (self w)))))
                = (ncols m + 2)%nat).
  { unfold lower. cbn [bounds set_alpha_]. rewrite loaded_bounds, length_map.
    exact Hb. }
  assert (Hup : length (upper (set_alpha_ None
                   (standardized m v (stored sa n h (self w)))))
                = (ncols m + 2)%nat).
  { unfold upper. cbn [bounds set_alpha_]. rewrite loaded_bounds, length_map.
    exact Hb. }
  cbn [optimizations_number set_alpha_]. rewrite loaded_optimizations_number.
  fold (count_of n (self w)). rewrite En.
  destruct (@uniform_no_rows (np_random w) _ _ _ Hlo Hup) as [g' Eu]. rewrite Eu.
  cbn [first_start]. unfold raise. eexists. split; [reflexivity |].
  cbn [self optimizer runs hyperparameters cc alpha_ set_alpha_].
  rewrite loaded_hyperparameters, loaded_cc. repeat split.
Qed.

(** X12.  After an optimizing call that returns, the hyperparameter vector
    has [input_dim + 2] entries, whatever its length was before; such a call
    is possible only with [input_dim + 2] bounds, or one, and only from
    [input_dim + 2] starting hyperparameters, or one. *)
Theorem fitted_hyperparameters_length (sa va : ndarray) (n : option nat)
    (h : option vec) (w w' : World) (m : mat) :
  fit_ sa va n h w = (inr tt, w') ->
  optimize (self w) = true ->
  sa = Arr2 m ->
  let d := (ncols m + 2)%nat in
  length (hyperparameters (self w')) = d /\
  (length (bounds (self w)) = d \/ length (bounds (self w)) = 1%nat) /\
  (length (start_of h (self w)) = d \/ length (start_of h (self w)) = 1%nat).
Proof.
  intros H Eo Es d.
  destruct (@fit_returns_checked sa va n h w w' H) as (m' & v & Ec & Es').
  rewrite Es in Es'. injection Es' as <-.
  destruct (@fit_optimizing_cases sa va n h w w' _ m v Ec Eo H)
    as [((e & He) & _) | (drawn & row0 & Eu & _ & Eb & _ & Hloop)];
    [discriminate |].
  destruct Hloop as [(e & pre & x0 & post & rows & _ & _ & _ & He & _) |
                     (rows & f0 & fs & HF & Em & _ &
                      [(_ & He & _) | (_ & _ & Hhp & _)])];
    try discriminate.
  split; [| split].
  - rewrite Hhp, length_map.
    assert (Hlen : Forall (fun row : vec * fval => length (fst row) = d) rows).
    { clear - HF. induction HF as [| x row sp rows Hx _ IH]; constructor.
      - apply (@run_once_row_length _ _ _ _ _ _ _ Hx).
      - exact IH. }
    assert (Ht : (argmin f0 fs < length rows)%nat).
    { rewrite <- (length_map snd rows), Em. cbn [length]. apply argmin_lt. }
    rewrite Forall_forall in Hlen. apply Hlen. apply nth_In. exact Ht.
  - destruct (@uniform_bounds_length _ _ _ _ _ _ _ Eu) as [Hl _].
    unfold lower in Hl. rewrite length_map in Hl. exact Hl.
  - apply broadcast_to_source in Eb. rewrite length_map in Eb. exact Eb.
Qed.

(** X13.  [fit] and the two generators.  The generator that the instance
    holds in [random_state] is the same object after the call as before.
    NumPy's global generator delivers the same sequence, of which the call
    has taken either nothing or [N * (input_dim + 2)] variates, [N] being the
    restart count; an optimizing call that returns has taken exactly that
    many. *)
Theorem fit_random_streams (sa va : ndarray) (n : option nat) (h : option vec)
    (w w' : World) (res : result unit) :
  fit_ sa va n h w = (res, w') ->
  random_state (self w') = random_state (self w) /\
  tape (np_random w') = tape (np_random w) /\
  (taken (np_random w') = taken (np_random w) \/
   exists m, sa = Arr2 m /\ optimize (self w) = true /\
     taken (np_random w')
     = (taken (np_random w) + count_of n (self w) * (ncols m + 2))%nat) /\
  (res = inr tt -> optimize (self w) = true -> forall m, sa = Arr2 m ->
   taken (np_random w')
   = (taken (np_random w) + count_of n (self w) * (ncols m + 2))%nat).
Proof.
  intros H. destruct (checked sa va) as [e | [m v]] eqn:Ec.
  - rewrite (@fit_load_fails sa va n h w e Ec) in H. injection H as <- <-.
    cbn [self np_random with_self]. rewrite stored_random_state.
    repeat split; [left; reflexivity | discriminate].
  - assert (Hrs : random_state (self w') = random_state (self w)).
    { destruct (@fit_same_data sa va n h w w' res m v Ec H)
        as (_ & _ & _ & _ & _ & _ & _ & _ & _ & _ & _ & Hr & _).
      rewrite Hr. apply loaded_random_state. }
    assert (Esa : sa = Arr2 m) by (apply checked_ok in Ec; apply Ec).
    split; [exact Hrs |].
    destruct (optimize (self w)) eqn:Eo.
    + destruct (@fit_optimizing_cases sa va n h w w' _ m v Ec Eo H)
        as [((e & He) & _ & _ & _ & Ht & Hk) |
            (drawn & row0 & Eu & _ & _ & _ & _)].
      * split; [exact Ht |]. split.
        -- destruct Hk as [Hk | Hk]; [left; exact Hk |].
           right. exists m. repeat split; assumption.
        -- intros E. rewrite He in E. discriminate.
      * destruct (@uniform_generator _ _ _ _ _ _ _ Eu) as [Ht Hk].
        split; [exact Ht |]. split.
        -- right. exists m. repeat split; assumption.
        -- intros _ _ m' Em. rewrite Esa in Em. injection Em as <-. exact Hk.
    + rewrite (@fit_plain sa va n h w m v Ec Eo) in H.
      apply factorize_same_data in H. destruct H as (_ & _ & _ & Hg & _).
      cbn [np_random with_self] in Hg. rewrite Hg.
      repeat split; [left; reflexivity | discriminate].
Qed.

(** The log-transformed bounds that [fit] hands to the optimizer. *)
Definition log_bounds (r : Regressor) : list (R * R) :=
  map (fun xy => (log10 (fst xy), log10 (snd xy))) (bounds r).

(** X14.  An optimizing call that returns has reconfigured the optimizer it
    shares with its caller.  Without a constraint object the optimizer's
    bounds are replaced by the log-transformed bounds of the instance, so
    that a regressor constructed afterwards with this optimizer and no
    [bounds] argument takes the logarithms for its bounds; with a constraint
    object the optimizer keeps its bounds and receives the constraints and
    their arguments. *)
Theorem fit_configures_optimizer (sa va : ndarray) (n : option nat)
    (h : option vec) (w w' : World) :
  fit_ sa va n h w = (inr tt, w') ->
  optimize (self w) = true ->
  (optimize_constraints (self w) = None ->
   optimizer w' = {| _bounds := Some (log_bounds (self w));
                     _constraints := _constraints (optimizer w);
                     _constraints_argument := _constraints_argument (optimizer w) |} /\
   forall hp optimize_arg (oc : option ConstraintsGPR) n' normalize_arg rs
          (r2 : Regressor),
     init_ hp (optimizer w') None optimize_arg oc n' normalize_arg rs = inr r2 ->
     bounds r2 = log_bounds (self w)) /\
  (forall oc, optimize_constraints (self w) = Some oc ->
   _bounds (optimizer w') = _bounds (optimizer w) /\
   _constraints_argument (optimizer w') = Some (args_of oc) /\
   exists cons, _constraints (optimizer w') = Some cons).
Proof.
  intros H Eo.
  destruct (@fit_returns_checked sa va n h w w' H) as (m & v & Ec & Es).
  destruct (@fit_optimizing_cases sa va n h w w' _ m v Ec Eo H)
    as [((e & He) & _) | (drawn & row0 & _ & _ & _ & Eco & _)];
    [discriminate |].
  unfold configured in Eco. cbn [optimize_constraints set_alpha_] in Eco.
  rewrite loaded_optimize_constraints in Eco.
  split.
  - intros Enone. rewrite Enone in Eco. unfold ok in Eco. injection Eco as Eco.
    cbn [bounds set_alpha_] in Eco. rewrite loaded_bounds in Eco.
    fold (log_bounds (self w)) in Eco. split; [symmetry; exact Eco |].
    intros hp optimize_arg oc n' normalize_arg rs r2 Hi.
    unfold init in Hi. rewrite <- Eco in Hi. cbn [_bounds rbind] in Hi.
    unfold ok in Hi. cbn [rbind] in Hi. injection Hi as <-. reflexivity.
  - intros oc Esome. rewrite Esome in Eco.
    destruct (attr (values (set_alpha_ None
                (standardized m v (stored sa n h (self w)))))) as [e | vals];
      cbn [rbind] in Eco; [discriminate |].
    unfold ok in Eco. injection Eco as Eco. rewrite <- Eco.
    cbn [_bounds _constraints _constraints_argument].
    repeat split. eexists. reflexivity.
Qed.

Lemma leaves_some_row (w w' : World) (m v : mat) (sp : list vec)
    (rows : list (vec * fval)) (x0 : vec) :
  Forall2 (leaves w w' m v) sp rows -> In x0 sp ->
  exists row, leaves w w' m v x0 row.
Proof.
  intros HF. induction HF as [| x row sp rows Hx _ IH]; intros Hin.
  - contradiction.
  - destruct Hin as [-> | Hin]; [exists row; exact Hx | exact (IH Hin)].
Qed.

(** X15.  The test on the objective values.  Let every run of the call have
    left a row (there being at least one).  If the first objective value is
    [inf] and every other one is [inf] or [nan], the call raises
    [NotImplementedError], the hyperparameters and [cc] are those of before
    and [alpha_] is [None].  In every other case (in particular when the
    first value is [nan], whatever the others are) a row is selected: the
    hyperparameters are [10 **] the minimizer at the index that [np.argmin]
    returns. *)
Theorem fit_objective_test (sa va : ndarray) (n : option nat) (h : option vec)
    (w w' : World) (res : result unit) (m v : mat)
    (rows : list (vec * fval)) (f0 : fval) (fs : list fval) :
  fit_ sa va n h w = (res, w') ->
  optimize (self w) = true ->
  checked sa va = inr (m, v) ->
  Forall2 (leaves w w' m v) (rev (runs_of_call w w')) rows ->
  map snd rows = f0 :: fs ->
  (f0 = PInf /\ Forall (fun x => x = PInf \/ x = NaN) fs ->
   res = inl NotImplementedError /\
   hyperparameters (self w') = start_of h (self w) /\
   cc (self w') = cc (self w) /\ alpha_ (self w') = None) /\
  (~ (f0 = PInf /\ Forall (fun x => x = PInf \/ x = NaN) fs) ->
   hyperparameters (self w')
   = map pow10 (fst (nth (argmin f0 fs) rows ([], NaN)))).
Proof.
  intros H Eo Ec HF Em.
  destruct (@fit_optimizing_cases sa va n h w w' _ m v Ec Eo H)
    as [(_ & _ & _ & Hr & _) | (drawn & row0 & _ & _ & _ & _ & Hloop)].
  { exfalso. rewrite (@runs_of_call_app w w' [] Hr) in HF. cbn [rev] in HF.
    inversion HF; subst. discriminate. }
  destruct Hloop as [(e & pre & x0 & post & rows' & _ & _ & E1 & _ & Hr & _) |
                     (rows' & f0' & fs' & HF' & Em' & Hr & Hsel)].
  { exfalso. rewrite (@runs_of_call_app w w' _ Hr), rev_involutive in HF.
    destruct (@leaves_some_row w w' m v _ rows x0 HF) as [row Hrow].
    - apply in_or_app. right. left. reflexivity.
    - unfold leaves in Hrow. congruence. }
  rewrite (@runs_of_call_app w w' _ Hr), rev_involutive in HF.
  assert (rows' = rows) by (eapply rows_unique; eassumption). subst rows'.
  rewrite Em in Em'. injection Em' as <- <-.
  destruct Hsel as [(Ep & He & Hs) | (Ep & _ & Hhp & _)].
  - split.
    + intros _. split; [exact He |]. rewrite Hs.
      cbn [hyperparameters cc alpha_ set_alpha_].
      rewrite loaded_hyperparameters, loaded_cc. repeat split.
    + intros Hno. exfalso. apply Hno. apply py_min_pinf. exact Ep.
  - split.
    + intros Hall. apply py_min_pinf in Hall. congruence.
    + intros _. exact Hhp.
Qed.

(** X16.  Which row an optimizing call that returns has selected.  The
    hyperparameters are [10 **] the minimizer of one of the runs.  When no
    objective value is [nan], this run has a least objective value and is the
    first one that has it (every earlier run has a strictly larger value).
    When some objective value is [nan], it is the first run whose value is
    [nan], whatever the finite values of the other runs. *)
Theorem fit_selects_first_least_or_first_nan (sa va : ndarray) (n : option nat)
    (h : option vec) (w w' : World) (m v : mat) :
  fit_ sa va n h w = (inr tt, w') ->
  optimize (self w) = true ->
  checked sa va = inr (m, v) ->
  exists rows t,
    Forall2 (leaves w w' m v) (rev (runs_of_call w w')) rows /\
    (t < length rows)%nat /\
    hyperparameters (self w') = map pow10 (fst (nth t rows ([], NaN))) /\
    let value i := snd (nth i rows ([], NaN)) in
    (Forall (fun row => is_nan (snd row) = false) rows ->
     Forall (fun row => flt (snd row) (value t) = false) rows /\
     forall i, (i < t)%nat -> flt (value t) (value i) = true) /\
    (Exists (fun row => is_nan (snd row) = true) rows ->
     is_nan (value t) = true /\
     forall i, (i < t)%nat -> is_nan (value i) = false).
Proof.
  intros H Eo Ec.
  destruct (@fit_optimizing_cases sa va n h w w' _ m v Ec Eo H)
    as [((e & He) & _) | (drawn & row0 & _ & _ & _ & _ & Hloop)];
    [discriminate |].
  destruct Hloop as [(e & pre & x0 & post & rows & _ & _ & _ & He & _) |
                     (rows & f0 & fs & HF & Em & Hr &
                      [(_ & He & _) | (_ & _ & Hhp & _)])];
    try discriminate.
  exists rows, (argmin f0 fs).
  assert (Hnth : forall i, snd (nth i rows ([], NaN)) = nth i (f0 :: fs) NaN).
  { intros i. rewrite <- Em. change NaN with (snd (@nil R, NaN)) at 2.
    rewrite map_nth. reflexivity. }
  split; [rewrite (@runs_of_call_app w w' _ Hr), rev_involutive; exact HF |].
  split; [rewrite <- (length_map snd rows), Em; cbn [length]; apply argmin_lt |].
  split; [exact Hhp |]. cbv zeta. split.
  - intros Hnn.
    assert (Hnn' : Forall (fun x => is_nan x = false) (f0 :: fs)).
    { rewrite <- Em. apply Forall_map. exact Hnn. }
    split.
    + destruct (argmin_least Hnn') as [_ Hleast].
      rewrite <- Em in Hleast at 1. rewrite Forall_map in Hleast.
      eapply Forall_impl; [| exact Hleast]. intros row Hrow. cbv beta in Hrow.
      rewrite Hnth. exact Hrow.
    + intros i Hi. rewrite !Hnth. apply (@argmin_first _ _ Hnn'). exact Hi.
  - intros Hex.
    assert (Hex' : Exists (fun x => is_nan x = true) (f0 :: fs)).
    { rewrite <- Em. apply Exists_map. exact Hex. }
    destruct (@argmin_nan _ _ Hex') as [Hn Hfirst].
    split; [rewrite Hnth; exact Hn |].
    intros i Hi. rewrite Hnth. apply Hfirst. exact Hi.
Qed.

(** X17.  A run that raises ends the call with its own error.  If the run
    started last in the call raises [e] (in the optimizer, in the broadcast
    of its result, or in the evaluation of [log_likelihood] that follows an
    array result), then [fit] raises [e]; the results of the earlier runs
    are dropped: the hyperparameters and [cc] are those of before the call,
    and [alpha_] is [None]. *)
Theorem fit_raises_what_a_run_raises (sa va : ndarray) (n : option nat)
    (h : option vec) (w w' : World) (res : result unit) (m v : mat)
    (x0 : vec) (earlier : list vec) (e : exn) :
  fit_ sa va n h w = (res, w') ->
  optimize (self w) = true ->
  checked sa va = inr (m, v) ->
  runs_of_call w w' = x0 :: earlier ->
  run_once_ (optimizer w') (jac (self w)) (ncols m + 2)
    (fst (training_pair m v (self w))) (snd (training_pair m v (self w))) x0
  = inl e ->
  res = inl e /\
  hyperparameters (self w') = start_of h (self w) /\
  cc (self w') = cc (self w) /\ alpha_ (self w') = None.
Proof.
  intros H Eo Ec Hruns Hrun.
  destruct (@fit_optimizing_cases sa va n h w w' _ m v Ec Eo H)
    as [(_ & _ & _ & Hr & _) | (drawn & row0 & _ & _ & _ & _ & Hloop)].
  { rewrite (@runs_of_call_app w w' [] Hr) in Hruns. discriminate. }
  destruct Hloop as [(e' & pre & x1 & post & rows & _ & _ & E1 & He & Hr & Hs) |
                     (rows & f0 & fs & HF & _ & Hr & _)].
  - rewrite (@runs_of_call_app w w' _ Hr), rev_app_distr in Hruns.
    cbn [rev app] in Hruns. injection Hruns as <- _.
    rewrite E1 in Hrun. injection Hrun as <-.
    split; [exact He |]. rewrite Hs. cbn [hyperparameters cc alpha_ set_alpha_].
    rewrite loaded_hyperparameters, loaded_cc. repeat split.
  - exfalso. rewrite (@runs_of_call_app w w' _ Hr) in Hruns.
    destruct (@leaves_some_row w w' m v _ rows x0 HF) as [row Hrow].
    + apply in_rev. rewrite Hruns. left. reflexivity.
    + unfold leaves in Hrow. congruence.
Qed.


(** *** fit, then predict *)

(** The instance after a call that returns. *)
Lemma fit_returns_state (sa va : ndarray) (n : option nat) (h : option vec)
    (w w' : World) :
  fit_ sa va n h w = (inr tt, w') ->
  exists m v r2 noise l,
    checked sa va = inr (m, v) /\
    same_data (standardized m v (stored sa n h (self w))) r2 /\
    last_entry (hyperparameters r2) = inr noise /\
    cholesky (with_jitter
                (covariance kernel_c (fst (training_pair m v (self w)))
                   (but_last (hyperparameters r2)) noise) (nrows m)) = inr l /\
    self w' = factorized kernel_c cho_solve (fst (training_pair m v (self w)))
                (snd (training_pair m v (self w))) noise l r2.
Proof.
  intros H.
  destruct (@fit_returns_checked sa va n h w w' H) as (m & v & Ec & _).
  exists m, v.
  assert (Hfac : forall W2 : World,
            factorize_ (fst (training_pair m v (self w)))
              (snd (training_pair m v (self w))) (nrows m) W2 = (inr tt, w') ->
            same_data (standardized m v (stored sa n h (self w))) (self W2) ->
            exists r2 noise l,
              checked sa va = inr (m, v) /\
              same_data (standardized m v (stored sa n h (self w))) r2 /\
              last_entry (hyperparameters r2) = inr noise /\
              cholesky (with_jitter
                          (covariance kernel_c (fst (training_pair m v (self w)))
                             (but_last (hyperparameters r2)) noise) (nrows m))
              = inr l /\
              self w' = factorized kernel_c cho_solve
                          (fst (training_pair m v (self w)))
                          (snd (training_pair m v (self w))) noise l r2).
  { intros W2 HW Hsame. apply factorize_cases in HW.
    destruct HW as [(_ & E & _) |
                    (noise & El & [(e & _ & E & _) | (l & Ecl & _ & ->)])];
      try discriminate.
    exists (self W2), noise, l. cbn [self with_self].
    split; [exact Ec | split; [exact Hsame | split; [exact El |
      split; [exact Ecl | reflexivity]]]]. }
  destruct (optimize (self w)) eqn:Eo.
  - rewrite (@fit_optimizing sa va n h w m v Ec Eo) in H. cbv zeta in H.
    match type of H with
    | context [uniform ?a ?b ?c ?d ?e] =>
        destruct (uniform a b c d e) as [[e1 | drawn] g]; [discriminate |]
    end.
    match type of H with
    | context [first_start ?a ?b ?c] =>
        destruct (first_start a b c) as [e1 | row0]; [discriminate |]
    end.
    match type of H with
    | context [configured_ ?a ?b ?c] =>
        destruct (configured_ a b c) as [e1 | o']; [discriminate |]
    end.
    match type of H with
    | context [run_all_ ?a ?b ?c ?d ?e ?f] =>
        destruct (run_all_ a b c d e f) as [[e1 | rows] ran]; cbn [fst snd] in H;
          [discriminate |]
    end.
    destruct (map snd rows) as [| f0 fs]; [discriminate |].
    destruct (is_pinf (py_min f0 fs)); [discriminate |].
    apply (Hfac _ H). cbn [self]. repeat split.
  - rewrite (@fit_plain sa va n h w m v Ec Eo) in H.
    apply (Hfac _ H). cbn [self with_self]. apply same_data_refl.
Qed.

(** A regressor whose cached factor and solve are those of its own data and
    hyperparameters predicts with the cache what it predicts without. *)
Lemma predict_consistent_cache (r : Regressor) (m v l : mat) (noise : R)
    (points : ndarray) (return_std : bool) :
  samples r = Some (Arr2 m) -> values r = Some v ->
  (normalize r = true ->
   sample_mean r = Some (mean0 m) /\ sample_std r = Some (std0 m) /\
   value_mean r = Some (mean0 v) /\ value_std r = Some (std0 v)) ->
  last_entry (hyperparameters r) = inr noise ->
  cholesky (with_jitter
              (covariance kernel_c (fst (training_pair m v r))
                 (but_last (hyperparameters r)) noise) (nrows m)) = inr l ->
  cc r = Some l ->
  alpha_ r = Some (cho_solve l (snd (training_pair m v r))) ->
  predict_ (set_alpha_ None r) points return_std None
  = predict_ r points return_std None.
Proof.
  intros Hs Hv Hstat Hl Hc Hcc Ha. unfold predict, training_pair in *.
  cbn [samples values normalize sample_mean sample_std value_mean value_std
       hyperparameters cc alpha_ set_alpha_].
  rewrite Hs, Hv, Ha, Hcc. cbn [attr as_2d rbind ok].
  destruct (normalize r).
  - destruct (Hstat eq_refl) as (E1 & E2 & E3 & E4). rewrite E1, E2, E3, E4.
    cbn [attr rbind ok fst snd] in *. unfold ok. cbn [rbind fst snd].
    rewrite Hl. cbn [rbind]. rewrite Hc. reflexivity.
  - cbn [attr rbind ok fst snd] in *. unfold ok. cbn [rbind fst snd].
    rewrite Hl. cbn [rbind]. rewrite Hc. reflexivity.
Qed.

(** X18.  After a call of [fit] that returns, the cache is consistent with
    the instance: [predict] with the stored hyperparameters returns through
    the cached factor [cc] and solve [alpha_] exactly what it returns when
    the cache is dropped and the covariance matrix of the stored data is
    factorized again. *)
Theorem predict_after_fit_agrees_with_refactorization (sa va : ndarray)
    (n : option nat) (h : option vec) (w w' : World) (points : ndarray)
    (return_std : bool) :
  fit_ sa va n h w = (inr tt, w') ->
  (exists a l, alpha_ (self w') = Some a /\ cc (self w') = Some l) /\
  predict_ (self w') points return_std None
  = predict_ (set_alpha_ None (self w')) points return_std None.
Proof.
  intros H.
  destruct (@fit_returns_state sa va n h w w' H) as (m & v & r2 & noise & l & Ec & Hsame & Hl & Hc & Hw).
  destruct Hsame as (Hs & Hv & Hsm & Hss & Hvm & Hvs & Hn & _).
  assert (Esa : sa = Arr2 m) by (apply checked_ok in Ec; apply Ec).
  assert (Hnorm : normalize r2 = normalize (self w)).
  { rewrite Hn. apply loaded_normalize. }
  assert (Htp : training_pair m v (self w') = training_pair m v (self w)).
  { rewrite Hw. unfold training_pair, factorized.
    cbn [normalize set_alpha_ set_cc set_K]. rewrite Hnorm. reflexivity. }
  split; [rewrite Hw; do 2 eexists; split; reflexivity |].
  symmetry. apply (@predict_consistent_cache (self w') m v l noise points return_std).
  - rewrite Hw. cbn [samples factorized set_alpha_ set_cc set_K].
    rewrite Hs, loaded_samples, Esa. reflexivity.
  - rewrite Hw. cbn [values factorized set_alpha_ set_cc set_K].
    rewrite Hv. apply loaded_values.
  - rewrite Hw.
    cbn [normalize sample_mean sample_std value_mean value_std factorized
         set_alpha_ set_cc set_K].
    rewrite Hnorm, Hsm, Hss, Hvm, Hvs. intros En.
    apply (@loaded_statistics _ sa n h m v (self w) En).
  - rewrite Hw. cbn [hyperparameters factorized set_alpha_ set_cc set_K].
    exact Hl.
  - rewrite Htp, Hw. cbn [hyperparameters factorized set_alpha_ set_cc set_K].
    exact Hc.
  - rewrite Hw. reflexivity.
  - rewrite Htp, Hw. reflexivity.
Qed.

(** *** log_likelihood *)

(** The first column of a matrix, as a matrix of one column. *)
Definition first_column (y : mat) : mat := map (firstn 1) y.

Lemma column_first_column (y : mat) : column 0 (first_column y) = column 0 y.
Proof.
  unfold column, first_column. rewrite map_map. apply map_ext.
  intros [| a row]; reflexivity.
Qed.

Lemma entry00_matmul_transpose (y x : mat) :
  ncols y <> 0%nat -> ncols x <> 0%nat ->
  entry00 (matmul (transpose y) x) = inr (dot (column 0 y) (column 0 x)).
Proof.
  intros Hy Hx. unfold matmul, transpose, transpose_n.
  destruct (ncols y) as [| k]; [congruence |].
  destruct (ncols x) as [| k']; [congruence |].
  reflexivity.
Qed.

Lemma ncols_first_column (y : mat) : ncols y <> 0%nat -> ncols (first_column y) <> 0%nat.
Proof.
  unfold ncols, first_column. destruct y as [| [| a row] y]; cbn; congruence.
Qed.

(** X19.  With several output columns, the likelihood reads only the first:
    the entry [[0, 0]] of [y.T @ cho_solve(L, y)] is the quadratic form of
    the first column of [y].  The hypothesis is the contract of
    [cho_solve] at this input: it solves column by column. *)
Theorem log_likelihood_reads_first_output_column (p0 : vec) (s y : mat) :
  ncols y <> 0%nat ->
  (forall plast l,
     last_entry p0 = inr plast ->
     cholesky (jittered kernel_c p0 s plast) = inr l ->
     ncols (cho_solve l y) <> 0%nat /\
     ncols (cho_solve l (first_column y)) <> 0%nat /\
     column 0 (cho_solve l y) = column 0 (cho_solve l (first_column y))) ->
  log_likelihood kernel_c cholesky cho_solve p0 s y
  = log_likelihood kernel_c cholesky cho_solve p0 s (first_column y).
Proof.
  intros Hy Hsolve. unfold log_likelihood.
  destruct (last_entry p0) as [e | plast] eqn:El; cbn [rbind]; [reflexivity |].
  fold (jittered kernel_c p0 s plast).
  destruct (cholesky (jittered kernel_c p0 s plast)) as [e | l] eqn:Ec;
    cbn [rbind]; [reflexivity |].
  destruct (Hsolve plast l eq_refl Ec) as (H1 & H2 & H3).
  rewrite (@entry00_matmul_transpose _ _ Hy H1).
  rewrite (@entry00_matmul_transpose _ _ (@ncols_first_column _ Hy) H2).
  rewrite column_first_column, H3. reflexivity.
Qed.

(** *** fit: the normalization *)

(** X20.  With [normalize = True] the data that [fit] goes on with (the
    inputs of the kernel and the right-hand side of the likelihood) are
    standardized column by column: every column of either matrix has mean 0
    and standard deviation 1; and the transformation that [predict] applies
    to its mean, [value_mean + y * value_std], takes the standardized values
    back to the stored ones.  The arrays are rectangular and no column is
    constant (its standard deviation would be 0). *)
Theorem load_data_standardizes (sa va : ndarray) (n : option nat)
    (h : option vec) (w w1 : World) (m s_ y_ v : mat) :
  load_data sa va n h w = (inr (m, (s_, y_)), w1) ->
  normalize (self w) = true ->
  values (self w1) = Some v ->
  Forall (fun row => length row = ncols m) m ->
  Forall (fun sd => sd <> 0) (std0 m) ->
  Forall (fun sd => sd <> 0) (std0 v) ->
  (mean0 s_ = repeat 0 (ncols m) /\ std0 s_ = repeat 1 (ncols m)) /\
  (mean0 y_ = repeat 0 (ncols v) /\ std0 y_ = repeat 1 (ncols v)) /\
  unstandardize y_ (mean0 v) (std0 v) = v /\
  sample_mean (self w1) = Some (mean0 m) /\ sample_std (self w1) = Some (std0 m) /\
  value_mean (self w1) = Some (mean0 v) /\ value_std (self w1) = Some (std0 v).
Proof.
  intros H En Hv Hm Hsm Hsv. rewrite load_data_eq in H.
  destruct (checked sa va) as [e | [m' v']] eqn:Ec; [discriminate |].
  cbn [fst snd] in H. injection H as <- Htp <-.
  cbn [self with_self] in Hv. rewrite loaded_values in Hv. injection Hv as <-.
  unfold training_pair in Htp. rewrite En in Htp. injection Htp as <- <-.
  apply checked_ok in Ec. destruct Ec as (_ & Hn & Er).
  destruct (@reshape_cases va _ Hn) as [[_ E] | [Hmod E]]; [congruence |].
  rewrite E in Er. injection Er as Er.
  assert (Hlen : length (flatten va) = (nrows m' * (size va / nrows m'))%nat).
  { rewrite <- size_flatten. pose proof (Nat.div_mod_eq (size va) (nrows m')). lia. }
  assert (Hrows : Forall (fun row => length row = (size va / nrows m')%nat) v').
  { rewrite <- Er. apply chunks_row_length. exact Hlen. }
  assert (Hvn : v' <> []).
  { intros Ev. apply Hn. rewrite <- (chunks_length (nrows m') (size va / nrows m')
                                      (flatten va)), Er, Ev. reflexivity. }
  assert (Hvc : ncols v' = (size va / nrows m')%nat).
  { destruct v' as [| row v']; [congruence |].
    inversion Hrows as [| ? ? Hrow _]. exact Hrow. }
  assert (Hmn : m' <> []).
  { intros Em. apply Hn. rewrite Em. reflexivity. }
  rewrite <- Hvc in Hrows.
  split; [exact (standardize_statistics Hmn Hm Hsm) |].
  split; [exact (standardize_statistics Hvn Hrows Hsv) |].
  split.
  - apply (@unstandardize_standardize v' _ _ (ncols v') Hrows);
      [apply length_mean0 | apply length_std0 | exact Hsv].
  - cbn [self with_self].
    apply (@loaded_statistics _ sa n h m' v' (self w) En).
Qed.

End Calls.

Close Scope R_scope.

End GPRCalls.
